(** * Servachok: the game server's event handler and wire format

    A shallow embedding of [src/server.py] (class [Server]) and
    [src/lib/events.py] (classes [ClientEvent], [ServerEvent]).

    Python objects that are mutated through several references (the
    [Player] objects, the global [Planet.cache]) live in an explicit store;
    exceptions are results that keep the store as it was when they were
    raised; every statement of the source that can raise is modelled with
    the exception it raises. *)

From Stdlib Require Import ZArith Lia Bool List String Ascii.
From Stdlib Require Import Floats.SpecFloat.
From stdpp Require Import base option list gmap strings relations.

Local Open Scope Z_scope.

(** ** Exceptions and results *)

(** The Python exceptions the modelled code can raise.  [Unmodelled] is
    not a Python exception: it marks inputs outside this model's data
    (floating-point JSON numbers, code points above 255, encodings other
    than UTF-8), about which the model says nothing: no step of the
    server is taken on such an input (see [step]) and the statements below
    leave it out.  It also stands where the model's own bookkeeping would
    fail: a reference to no [Player] object, a scan out of fuel. *)
Inductive exn : Set :=
| KeyError | TypeError | ValueError | IndexError | OverflowError
| AttributeError | StructError | JSONDecodeError | UnicodeDecodeError
| RecursionError
| Unmodelled.

Inductive result (A : Type) : Type :=
| Ok (a : A)
| Raise (e : exn).
Arguments Ok {A} a.
Arguments Raise {A} e.

Definition is_unmodelled {A} (r : result A) : bool :=
  match r with
  | Raise Unmodelled => true
  | _ => false
  end.

Definition rbind {A B} (r : result A) (k : A -> result B) : result B :=
  match r with
  | Ok a => k a
  | Raise e => Raise e
  end.

Definition of_option {A} (e : exn) (o : option A) : result A :=
  match o with
  | Some a => Ok a
  | None => Raise e
  end.

(** ** Python values *)

(** The values that occur in event payloads: what [json.loads] returns
    (without floats), dictionaries with integer keys (the handler builds
    one for a select event) and references to [Player] objects (the
    handler stores the sender under the key 'player').  A [string] is read
    as a Python [str] whose code points are all below 256.

    Python values of other types ([float], [tuple], strings with code
    points from 256 on, dictionary keys that are neither [str] nor [int])
    have no counterpart here.  A statement over every [pyval] is a
    statement over the values of these types only, and is worded so. *)
Inductive pykey : Set :=
| KStr (s : string)
| KInt (n : Z).

#[warnings="-register-all"]
Inductive pyval : Set :=
| VNone
| VBool (b : bool)
| VInt (n : Z)
| VStr (s : string)
| VList (l : list pyval)
| VDict (d : list (pykey * pyval))
| VPlayer (r : nat).

#[global] Instance pykey_eq_dec : EqDecision pykey.
Proof. solve_decision. Defined.

(** A Python [dict] keeps its keys in insertion order, without duplicates:
    it is an association list that is only changed through [dict_set]. *)
Abbreviation pydict := (list (pykey * pyval)).

Fixpoint dict_get (d : pydict) (k : pykey) : option pyval :=
  match d with
  | [] => None
  | (k', v) :: d' => if decide (k' = k) then Some v else dict_get d' k
  end.

(** [d[k] = v]: an existing key keeps its position. *)
Fixpoint dict_set (d : pydict) (k : pykey) (v : pyval) : pydict :=
  match d with
  | [] => [(k, v)]
  | (k', v') :: d' =>
      if decide (k' = k) then (k', v) :: d' else (k', v') :: dict_set d' k v
  end.

Fixpoint dict_del (d : pydict) (k : pykey) : pydict :=
  match d with
  | [] => []
  | (k', v') :: d' => if decide (k' = k) then d' else (k', v') :: dict_del d' k
  end.

(** [{**d1, **d2}] and [dict(pairs)]: later entries win. *)
Definition dict_update (d1 d2 : pydict) : pydict :=
  fold_left (fun d kv => dict_set d (fst kv) (snd kv)) d2 d1.

(** [d[k]], raising [KeyError]. *)
Definition dict_item (d : pydict) (k : string) : result pyval :=
  of_option KeyError (dict_get d (KStr k)).

(** Truth value of a Python object, as [all(...)] and [if] test it. *)
Definition truthy (v : pyval) : bool :=
  match v with
  | VNone => false
  | VBool b => b
  | VInt n => negb (n =? 0)
  | VStr s => negb (String.eqb s EmptyString)
  | VList l => match l with [] => false | _ => true end
  | VDict d => match d with [] => false | _ => true end
  | VPlayer _ => true
  end.

(** [x == s] for a string constant [s]. *)
Definition is_str (v : pyval) (s : string) : bool :=
  match v with
  | VStr s' => String.eqb s' s
  | _ => false
  end.

(** ** Characters, bytes and UTF-8 *)

Definition code (c : ascii) : Z := Z.of_N (N_of_ascii c).
Definition chr (n : Z) : ascii := ascii_of_N (Z.to_N n).

Definition dquote : ascii := "034"%char.
Definition backslash : ascii := "092"%char.

Definition byte_of_Z (n : Z) : Byte.byte := byte_of_ascii (chr n).
Definition Z_of_byte (b : Byte.byte) : Z := code (ascii_of_byte b).

(** [str.encode('utf-8')] for code points below 256. *)
Definition utf8_char (c : ascii) : list Byte.byte :=
  let n := code c in
  if n <? 128 then [byte_of_ascii c]
  else [byte_of_Z (Z.lor 192 (Z.shiftr n 6)); byte_of_Z (Z.lor 128 (Z.land n 63))].

Fixpoint encode_utf8 (s : string) : list Byte.byte :=
  match s with
  | EmptyString => []
  | String c r => utf8_char c ++ encode_utf8 r
  end.

(** [bytes.decode('utf-8')]: one-byte sequences and the two-byte sequences
    of the code points 128 to 255; longer sequences are outside the model. *)
Fixpoint decode_utf8 (b : list Byte.byte) : result string :=
  match b with
  | [] => Ok EmptyString
  | x :: b' =>
      let n := Z_of_byte x in
      if n <? 128 then rbind (decode_utf8 b') (fun s => Ok (String (ascii_of_byte x) s))
      else if n <? 194 then Raise UnicodeDecodeError
      else if n <? 196 then
        match b' with
        | y :: b'' =>
            let m := Z_of_byte y in
            if (128 <=? m) && (m <? 192) then
              rbind (decode_utf8 b'')
                (fun s => Ok (String (chr (Z.lor (Z.shiftl (Z.land n 31) 6) (Z.land m 63))) s))
            else Raise UnicodeDecodeError
        | [] => Raise UnicodeDecodeError
        end
      else if n <? 245 then Raise Unmodelled
      else Raise UnicodeDecodeError
  end.

(** [json.detect_encoding]: [true] when the bytes are read as UTF-8 (no
    byte-order mark, no zero byte among the first two). *)
Definition detect_utf8 (b : list Byte.byte) : bool :=
  match map Z_of_byte b with
  | 239 :: 187 :: 191 :: _ => false
  | 255 :: 254 :: _ => false
  | 254 :: 255 :: _ => false
  | [x; y] => negb (x =? 0) && negb (y =? 0)
  | x :: y :: _ :: _ :: _ => negb (x =? 0) && negb (y =? 0)
  | _ => true
  end.

(** ** [struct.pack('i', n)] and [struct.unpack('i', b)] *)

Inductive byteorder : Set := LittleEndian | BigEndian.

Definition le_bytes (n : Z) : list Byte.byte :=
  [byte_of_Z (Z.land n 255);
   byte_of_Z (Z.land (Z.shiftr n 8) 255);
   byte_of_Z (Z.land (Z.shiftr n 16) 255);
   byte_of_Z (Z.land (Z.shiftr n 24) 255)].

Definition struct_pack_i (order : byteorder) (n : Z) : result (list Byte.byte) :=
  if (-2147483648 <=? n) && (n <=? 2147483647) then
    Ok (match order with
        | LittleEndian => le_bytes n
        | BigEndian => rev (le_bytes n)
        end)
  else Raise StructError.

Definition le_value (b0 b1 b2 b3 : Byte.byte) : Z :=
  let u := Z_of_byte b0 + 256 * (Z_of_byte b1 + 256 * (Z_of_byte b2 + 256 * Z_of_byte b3)) in
  if u <? 2147483648 then u else u - 4294967296.

Definition struct_unpack_i (order : byteorder) (b : list Byte.byte) : result Z :=
  match b with
  | [b0; b1; b2; b3] =>
      Ok (match order with
          | LittleEndian => le_value b0 b1 b2 b3
          | BigEndian => le_value b3 b2 b1 b0
          end)
  | _ => Raise StructError
  end.

(** ** The limits of the platform's [json] and [int]

    [json.loads] and [json.dumps] raise [RecursionError] on a nesting of
    lists and objects that is deeper than the interpreter's recursion
    limit leaves room for where they are called, and from Python 3.11 on
    [int(str)] and [str(int)] raise [ValueError] beyond
    [sys.get_int_max_str_digits()] digits.  Both depend on the interpreter
    and its settings, so they are parameters. *)
Record json_limits : Set := mkLimits {
  (** [json.loads], called by the receiver, reads the list or object a
      text consists of and [loads_spare] levels nested in it.  (With no
      level at all the server would read no event.) *)
  loads_spare : nat;
  (** [json.dumps], called by the sender, writes [dumps_depth] nested
      levels. *)
  dumps_depth : nat;
  (** [sys.get_int_max_str_digits()]: 0 for no limit, as in the
      interpreters before the limit was introduced. *)
  max_str_digits : Z
}.

(** A decimal literal, or a number, of [k] digits is beyond the limit.
    The limit is not applied up to 640 digits. *)
Definition too_many_digits (lim : json_limits) (k : nat) : bool :=
  (0 <? max_str_digits lim) && (640 <? Z.of_nat k) && (max_str_digits lim <? Z.of_nat k).

(** ** [json.dumps]

    The default encoder: separators [", "] and [": "], [ensure_ascii], so
    the text is pure ASCII.  Dictionary keys that are integers are written
    as strings.  An object that is not a JSON type (here a [Player]) makes
    the encoder raise [TypeError]. *)

Definition hex_digit (n : Z) : ascii :=
  if n <? 10 then chr (48 + n) else chr (87 + n).

Definition esc_char (c : ascii) : string :=
  let n := code c in
  if n =? 34 then String backslash (String dquote EmptyString)
  else if n =? 92 then String backslash (String backslash EmptyString)
  else if n =? 10 then String backslash "n"
  else if n =? 13 then String backslash "r"
  else if n =? 9 then String backslash "t"
  else if n =? 8 then String backslash "b"
  else if n =? 12 then String backslash "f"
  else if (32 <=? n) && (n <=? 126) then String c EmptyString
  else String backslash
         (String "u" (String "0" (String "0"
            (String (hex_digit (n / 16)) (String (hex_digit (n mod 16)) EmptyString))))).

Fixpoint esc_string (s : string) : string :=
  match s with
  | EmptyString => EmptyString
  | String c r => esc_char c +:+ esc_string r
  end.

Definition encode_str (s : string) : string :=
  String dquote (esc_string s +:+ String dquote EmptyString).

(** Decimal digits of [n >= 0], most significant first. *)
Fixpoint digits (fuel : nat) (n : Z) : string :=
  match fuel with
  | O => EmptyString
  | S f =>
      if n <? 10 then String (chr (48 + n)) EmptyString
      else digits f (n / 10) +:+ String (chr (48 + n mod 10)) EmptyString
  end.

(** [str(n)] for an [int]. *)
Definition int_repr (n : Z) : string :=
  if n <? 0 then String "-" (digits (S (Z.to_nat (Z.log2 (- n)))) (- n))
  else digits (S (Z.to_nat (Z.log2 n))) n.

Definition dumps_key (k : pykey) : string :=
  match k with
  | KStr s => encode_str s
  | KInt n => encode_str (int_repr n)
  end.

Fixpoint serializable (v : pyval) : bool :=
  match v with
  | VList l => forallb serializable l
  | VDict d => forallb (fun kv => let '(_, x) := kv in serializable x) d
  | VPlayer _ => false
  | _ => true
  end.

(** The items after the first one, each behind a separator, and the
    closing bracket. *)
Definition items_text {A} (close : string) (f : A -> string) : list A -> string :=
  fix items (l : list A) : string :=
    match l with
    | [] => close
    | y :: l' => ", " +:+ f y +:+ items l'
    end.

Definition pair_text (f : pyval -> string) (kv : pykey * pyval) : string :=
  let '(k, x) := kv in dumps_key k +:+ ": " +:+ f x.

Fixpoint dumps_val (v : pyval) : string :=
  match v with
  | VNone => "null"
  | VBool true => "true"
  | VBool false => "false"
  | VInt n => int_repr n
  | VStr s => encode_str s
  | VList [] => "[]"
  | VList (x :: l) => String "[" (dumps_val x +:+ items_text "]" dumps_val l)
  | VDict [] => "{}"
  | VDict (kv :: d) =>
      String "{" (pair_text dumps_val kv +:+ items_text "}" (pair_text dumps_val) d)
  | VPlayer _ => EmptyString
  end.

(** The encoder's own limits are left out of [json_dumps]: it returns
    the text also for a value that is nested deeper than [dumps_depth] or
    holds an integer of too many digits, where [json.dumps] raises
    [RecursionError] or [ValueError].  [writable] below marks the values
    within these limits, and the statements that conclude that a text is
    written assume it. *)
Definition json_dumps (v : pyval) : result string :=
  if serializable v then Ok (dumps_val v) else Raise TypeError.

(** ** [json.loads]

    The decoder of the standard library (strict mode), on a text whose
    code points are below 256.  Number literals with a fraction or an
    exponent, [NaN] and [Infinity] are floats and outside the model. *)

Definition is_ws (c : ascii) : bool :=
  let n := code c in (n =? 32) || (n =? 9) || (n =? 10) || (n =? 13).

Fixpoint skip_ws (s : string) : string :=
  match s with
  | String c r => if is_ws c then skip_ws r else s
  | EmptyString => s
  end.

Definition is_digit (c : ascii) : bool :=
  let n := code c in (48 <=? n) && (n <=? 57).

Fixpoint scan_digits (s : string) (acc : Z) : Z * string :=
  match s with
  | String c r => if is_digit c then scan_digits r (10 * acc + (code c - 48)) else (acc, s)
  | EmptyString => (acc, s)
  end.

Definition starts_with_digit (s : string) : bool :=
  match s with
  | String c _ => is_digit c
  | EmptyString => false
  end.

(** What follows the integer part makes the literal a float: [.d] or
    [e], [E] followed by an optionally signed digit. *)
Definition float_tail (s : string) : bool :=
  match s with
  | String c r =>
      if code c =? 46 then starts_with_digit r
      else if (code c =? 101) || (code c =? 69) then
        match r with
        | String c' r' =>
            if (code c' =? 43) || (code c' =? 45) then starts_with_digit r'
            else is_digit c'
        | EmptyString => false
        end
      else false
  | EmptyString => false
  end.

(** The unsigned integer part: [0] or a digit from 1 to 9 followed by
    digits. *)
Definition scan_natural (s : string) : option (Z * string) :=
  match s with
  | String c r =>
      if code c =? 48 then Some (0, r)
      else if is_digit c then Some (scan_digits s 0)
      else None
  | EmptyString => None
  end.

(** An integer literal is converted by [int], which counts its digits. *)
Definition scan_number (lim : json_limits) (s : string) : option (result (Z * string)) :=
  let '(neg, s') :=
    match s with
    | String c r => if code c =? 45 then (true, r) else (false, s)
    | EmptyString => (false, s)
    end in
  match scan_natural s' with
  | Some (n, r) =>
      Some (if float_tail r then Raise Unmodelled
            else if too_many_digits lim (String.length s' - String.length r)
                 then Raise ValueError
            else Ok (if neg then - n else n, r))
  | None => None
  end.

Definition hex_val (c : ascii) : option Z :=
  let n := code c in
  if (48 <=? n) && (n <=? 57) then Some (n - 48)
  else if (97 <=? n) && (n <=? 102) then Some (n - 87)
  else if (65 <=? n) && (n <=? 70) then Some (n - 55)
  else None.

Definition hex4 (a b c d : ascii) : option Z :=
  match hex_val a, hex_val b, hex_val c, hex_val d with
  | Some x, Some y, Some z, Some w => Some (((x * 16 + y) * 16 + z) * 16 + w)
  | _, _, _, _ => None
  end.

Definition unescape (c : ascii) : option ascii :=
  let n := code c in
  if n =? 34 then Some dquote
  else if n =? 92 then Some backslash
  else if n =? 47 then Some "/"%char
  else if n =? 98 then Some (chr 8)
  else if n =? 102 then Some (chr 12)
  else if n =? 110 then Some (chr 10)
  else if n =? 114 then Some (chr 13)
  else if n =? 116 then Some (chr 9)
  else None.

(** [scanstring]: the text after an opening quote, up to the closing one. *)
Fixpoint scanstring (s : string) (acc : string) : result (string * string) :=
  match s with
  | EmptyString => Raise JSONDecodeError
  | String c r =>
      if code c =? 34 then Ok (acc, r)
      else if code c =? 92 then
        match r with
        | EmptyString => Raise JSONDecodeError
        | String e r' =>
            if code e =? 117 then
              match r' with
              | String h1 (String h2 (String h3 (String h4 r''))) =>
                  match hex4 h1 h2 h3 h4 with
                  | None => Raise JSONDecodeError
                  | Some n =>
                      if n <? 256 then scanstring r'' (acc +:+ String (chr n) EmptyString)
                      else Raise Unmodelled
                  end
              | _ => Raise JSONDecodeError
              end
            else
              match unescape e with
              | Some ch => scanstring r' (acc +:+ String ch EmptyString)
              | None => Raise JSONDecodeError
              end
        end
      else if code c <? 32 then Raise JSONDecodeError
      else scanstring r (acc +:+ String c EmptyString)
  end.

(** [strip p s]: the rest of [s] after the prefix [p]. *)
Fixpoint strip (p s : string) : option string :=
  match p, s with
  | EmptyString, _ => Some s
  | String a p', String b s' => if Ascii.eqb a b then strip p' s' else None
  | String _ _, EmptyString => None
  end.

(** [scan_once]: one value at the head of the text.  [depth] is the number
    of nested lists and objects that may still be entered; [fuel] bounds
    the recursion of this definition. *)
Fixpoint scan_once (lim : json_limits) (fuel depth : nat) (s : string)
  : result (pyval * string) :=
  match fuel with
  | O => Raise Unmodelled
  | S f =>
      match s with
      | EmptyString => Raise JSONDecodeError
      | String c r =>
          if code c =? 34 then
            rbind (scanstring r EmptyString) (fun '(x, r') => Ok (VStr x, r'))
          else if code c =? 123 then
            match depth with
            | O => Raise RecursionError
            | S depth' =>
                match skip_ws r with
                | String c1 r1 =>
                    if code c1 =? 125 then Ok (VDict [], r1)
                    else if code c1 =? 34 then object_items lim f depth' r1 []
                    else Raise JSONDecodeError
                | EmptyString => Raise JSONDecodeError
                end
            end
          else if code c =? 91 then
            match depth with
            | O => Raise RecursionError
            | S depth' =>
                match skip_ws r with
                | String c1 r1 =>
                    if code c1 =? 93 then Ok (VList [], r1)
                    else array_items lim f depth' (String c1 r1) []
                | EmptyString => Raise JSONDecodeError
                end
            end
          else
            match strip "null" s, strip "true" s, strip "false" s with
            | Some r', _, _ => Ok (VNone, r')
            | _, Some r', _ => Ok (VBool true, r')
            | _, _, Some r' => Ok (VBool false, r')
            | None, None, None =>
                match scan_number lim s with
                | Some res => rbind res (fun '(n, r') => Ok (VInt n, r'))
                | None =>
                    match strip "NaN" s, strip "Infinity" s, strip "-Infinity" s with
                    | None, None, None => Raise JSONDecodeError
                    | _, _, _ => Raise Unmodelled
                    end
                end
            end
      end
  end
with array_items (lim : json_limits) (fuel depth : nat) (s : string) (acc : list pyval)
  : result (pyval * string) :=
  match fuel with
  | O => Raise Unmodelled
  | S f =>
      rbind (scan_once lim f depth s) (fun '(x, r) =>
        match skip_ws r with
        | String c r1 =>
            if code c =? 93 then Ok (VList (acc ++ [x]), r1)
            else if code c =? 44 then array_items lim f depth (skip_ws r1) (acc ++ [x])
            else Raise JSONDecodeError
        | EmptyString => Raise JSONDecodeError
        end)
  end
with object_items (lim : json_limits) (fuel depth : nat) (s : string) (acc : pydict)
  : result (pyval * string) :=
  match fuel with
  | O => Raise Unmodelled
  | S f =>
      rbind (scanstring s EmptyString) (fun '(k, r) =>
        match skip_ws r with
        | String c r1 =>
            if code c =? 58 then
              rbind (scan_once lim f depth (skip_ws r1)) (fun '(x, r2) =>
                match skip_ws r2 with
                | String c2 r3 =>
                    if code c2 =? 125 then Ok (VDict (dict_set acc (KStr k) x), r3)
                    else if code c2 =? 44 then
                      match skip_ws r3 with
                      | String c3 r4 =>
                          if code c3 =? 34 then
                            object_items lim f depth r4 (dict_set acc (KStr k) x)
                          else Raise JSONDecodeError
                      | EmptyString => Raise JSONDecodeError
                      end
                    else Raise JSONDecodeError
                | EmptyString => Raise JSONDecodeError
                end)
            else Raise JSONDecodeError
        | EmptyString => Raise JSONDecodeError
        end)
  end.

(** [json.loads] of a [str]: one value between optional white space.  The
    fuel is twice the length of the text, plus two: every nested value
    takes at least one character, and [loads_dumps] shows that this is
    enough for the texts [json.dumps] writes. *)
Definition json_loads (lim : json_limits) (s : string) : result pyval :=
  rbind (scan_once lim (2 * String.length s + 2) (S (loads_spare lim)) (skip_ws s))
    (fun '(x, r) =>
    match skip_ws r with
    | EmptyString => Ok x
    | String _ _ => Raise JSONDecodeError
    end).

(** [json.loads] of [bytes]. *)
Definition json_loads_bytes (lim : json_limits) (b : list Byte.byte) : result pyval :=
  if detect_utf8 b then rbind (decode_utf8 b) (json_loads lim) else Raise Unmodelled.

(** ** [lib/events.py] *)

Module EventName.
Definition READY : string := "ready".
Definition RENDERED : string := "rendered".
Definition MOVE : string := "move".
Definition SELECT : string := "select".
Definition ADD_HP : string := "add_hp".
Definition DAMAGE : string := "damage".
Definition CONNECT : string := "connect".
Definition MAP_INIT : string := "mapinit".
Definition GAME_STARTED : string := "game_started".
Definition GAME_OVER : string := "gameover".
End EventName.

(** [GameEvent]: a name and a payload dictionary.  The name of a client
    event is whatever JSON value the client sent under 'name'. *)
Record GameEvent : Set := mkEvent { name : pyval; payload : pydict }.

(** [ClientEvent(player, string)], on the bytes read from the socket;
    [player] is the reference to the sender's [Player] object. *)
Definition ClientEvent (lim : json_limits) (player : nat) (string : list Byte.byte)
  : result GameEvent :=
  rbind (json_loads_bytes lim string) (fun o =>
    match o with
    | VDict d =>
        rbind (dict_item d "name") (fun n =>
          Ok (mkEvent n (dict_set (dict_del d (KStr "name")) (KStr "player") (VPlayer player))))
    | VList _ => Raise TypeError
    | _ => Raise AttributeError
    end).

(** The dictionary [{'name': self.name, **self.payload}]. *)
Definition event_dict (e : GameEvent) : pydict :=
  dict_update [(KStr "name", name e)] (payload e).

(** [ServerEvent.request]: the length of the JSON text (in characters) as
    a native [int], then the text in UTF-8. *)
Definition request (order : byteorder) (e : GameEvent) : result (list Byte.byte) :=
  rbind (json_dumps (VDict (event_dict e))) (fun string =>
    rbind (struct_pack_i order (Z.of_nat (String.length string))) (fun prefix =>
      Ok (prefix ++ encode_utf8 string))).


(** ** Floating point: [round(n / 100.0)]

    IEEE 754 binary64 through the standard library's [SpecFloat]. *)

Definition prec : Z := 53.
Definition emax : Z := 1024.

(** [float(n)], raising [OverflowError] when [n] is too large. *)
Definition float_of_int (n : Z) : result spec_float :=
  match binary_normalize prec emax n 0 false with
  | S754_infinity _ => Raise OverflowError
  | f => Ok f
  end.

(** [round(x)] with one argument: to the nearest integer, ties to even. *)
Definition py_round (x : spec_float) : result Z :=
  match x with
  | S754_zero _ => Ok 0
  | S754_infinity _ => Raise OverflowError
  | S754_nan => Raise ValueError
  | S754_finite s m e =>
      let v :=
        if 0 <=? e then Z.pos m * 2 ^ e
        else
          let d := 2 ^ (- e) in
          let q := Z.pos m / d in
          let r := Z.pos m mod d in
          if 2 * r <? d then q
          else if d <? 2 * r then q + 1
          else if Z.even q then q else q + 1 in
      Ok (if s then - v else v)
  end.

(** [round(n / 100.0)] for an [int] [n]. *)
Definition round_div_100 (n : Z) : result Z :=
  rbind (float_of_int n) (fun x =>
    py_round (SFdiv prec emax x (binary_normalize prec emax 100 0 false))).

(** ** The objects of [server.py] *)

(** Modelled from the spec: class [Player] ([player.py] is not among the
    sources).  A player has an address, an integer id given at accept time,
    a [ready] flag, a [rendered] flag and a sequence of owned unit ids; the
    handler uses [object_ids] as a list ([+=], [remove], [in], [len]).  A
    new player is not ready, has not rendered and owns no unit. *)
Module Player.
Record t : Set := mk {
  address : string * Z;
  id : Z;
  ready : pyval;
  rendered : bool;
  object_ids : list Z
}.
Definition new (address : string * Z) (id : Z) : t :=
  mk address id (VBool false) false [].
Definition with_ready (v : pyval) (p : t) : t :=
  mk (address p) (id p) v (rendered p) (object_ids p).
Definition with_rendered (b : bool) (p : t) : t :=
  mk (address p) (id p) (ready p) b (object_ids p).
Definition with_object_ids (l : list Z) (p : t) : t :=
  mk (address p) (id p) (ready p) (rendered p) l.
End Player.

(** Modelled from the spec: class [Planet] ([planet.py] is not among the
    sources): an owner (a player id or [None]) and an integer
    [units_count]; the class attribute [Planet.cache] maps planet ids to
    planets. *)
Module Planet.
Record t : Set := mk { owner : option Z; units_count : Z }.
Definition with_owner (o : option Z) (p : t) : t := mk o (units_count p).
Definition with_units_count (n : Z) (p : t) : t := mk (owner p) n.
End Planet.

(** [planet.owner == player.id] *)
Definition owned_by (planet : Planet.t) (player : Player.t) : bool :=
  match Planet.owner planet with
  | Some o => o =? Player.id player
  | None => false
  end.

(** The [Server] object together with the module-level state it works
    on.  Sockets are identified by numbers.  [players] is the dictionary
    from sockets to [Player] objects, in insertion order; the objects
    themselves are in [heap] and are referred to by position, so that a
    queued event and the dictionary share one object.  Modelled from the
    spec: [EventPriorityQueue] ([utils.py] is not among the sources) hands
    events out in arrival order; [sender_queue] keeps every event given to
    [__notify] (the sender thread, which only drains it to the sockets, is
    left out).  [generated] counts the values [ID_GENERATOR] has yielded.
    [receiver_alive] and [handler_alive] are false once the thread has
    ended with an exception. *)
Record state : Type := mkState {
  clients : list nat;
  max_clients_count : Z;
  players : list (nat * nat);
  next_player_id : Z;
  readiness : bool;
  game_started : bool;
  handler_queue : list GameEvent;
  sender_queue : list GameEvent;
  heap : list Player.t;
  Planet_cache : gmap Z Planet.t;
  generated : nat;
  receiver_alive : bool;
  handler_alive : bool
}.

Definition with_clients (x : list nat) (s : state) : state :=
  mkState x (max_clients_count s) (players s) (next_player_id s) (readiness s)
    (game_started s) (handler_queue s) (sender_queue s) (heap s) (Planet_cache s)
    (generated s) (receiver_alive s) (handler_alive s).
Definition with_players (x : list (nat * nat)) (s : state) : state :=
  mkState (clients s) (max_clients_count s) x (next_player_id s) (readiness s)
    (game_started s) (handler_queue s) (sender_queue s) (heap s) (Planet_cache s)
    (generated s) (receiver_alive s) (handler_alive s).
Definition with_next_player_id (x : Z) (s : state) : state :=
  mkState (clients s) (max_clients_count s) (players s) x (readiness s)
    (game_started s) (handler_queue s) (sender_queue s) (heap s) (Planet_cache s)
    (generated s) (receiver_alive s) (handler_alive s).
Definition with_readiness (x : bool) (s : state) : state :=
  mkState (clients s) (max_clients_count s) (players s) (next_player_id s) x
    (game_started s) (handler_queue s) (sender_queue s) (heap s) (Planet_cache s)
    (generated s) (receiver_alive s) (handler_alive s).
Definition with_game_started (x : bool) (s : state) : state :=
  mkState (clients s) (max_clients_count s) (players s) (next_player_id s) (readiness s)
    x (handler_queue s) (sender_queue s) (heap s) (Planet_cache s)
    (generated s) (receiver_alive s) (handler_alive s).
Definition with_handler_queue (x : list GameEvent) (s : state) : state :=
  mkState (clients s) (max_clients_count s) (players s) (next_player_id s) (readiness s)
    (game_started s) x (sender_queue s) (heap s) (Planet_cache s)
    (generated s) (receiver_alive s) (handler_alive s).
Definition with_sender_queue (x : list GameEvent) (s : state) : state :=
  mkState (clients s) (max_clients_count s) (players s) (next_player_id s) (readiness s)
    (game_started s) (handler_queue s) x (heap s) (Planet_cache s)
    (generated s) (receiver_alive s) (handler_alive s).
Definition with_heap (x : list Player.t) (s : state) : state :=
  mkState (clients s) (max_clients_count s) (players s) (next_player_id s) (readiness s)
    (game_started s) (handler_queue s) (sender_queue s) x (Planet_cache s)
    (generated s) (receiver_alive s) (handler_alive s).
Definition with_Planet_cache (x : gmap Z Planet.t) (s : state) : state :=
  mkState (clients s) (max_clients_count s) (players s) (next_player_id s) (readiness s)
    (game_started s) (handler_queue s) (sender_queue s) (heap s) x
    (generated s) (receiver_alive s) (handler_alive s).
Definition with_generated (x : nat) (s : state) : state :=
  mkState (clients s) (max_clients_count s) (players s) (next_player_id s) (readiness s)
    (game_started s) (handler_queue s) (sender_queue s) (heap s) (Planet_cache s)
    x (receiver_alive s) (handler_alive s).
Definition with_receiver_alive (x : bool) (s : state) : state :=
  mkState (clients s) (max_clients_count s) (players s) (next_player_id s) (readiness s)
    (game_started s) (handler_queue s) (sender_queue s) (heap s) (Planet_cache s)
    (generated s) x (handler_alive s).
Definition with_handler_alive (x : bool) (s : state) : state :=
  mkState (clients s) (max_clients_count s) (players s) (next_player_id s) (readiness s)
    (game_started s) (handler_queue s) (sender_queue s) (heap s) (Planet_cache s)
    (generated s) (receiver_alive s) x.

(** [Server.__init__], with an empty [Planet.cache] and a fresh
    [ID_GENERATOR]. *)
Definition init (max_client_count : Z) : state :=
  mkState [] max_client_count [] 0 false false [] [] [] ∅ 0 true true.

(** ** Statements: state passing with exceptions

    A statement maps the state to the state it leaves and either a value or
    the exception it raised; what was changed before the exception stays
    changed. *)
Definition M (A : Type) : Type := state -> state * result A.

Definition ret {A} (a : A) : M A := fun s => (s, Ok a).
Definition raise {A} (e : exn) : M A := fun s => (s, Raise e).
Definition bind {A B} (m : M A) (k : A -> M B) : M B :=
  fun s => match m s with
           | (s', Ok a) => k a s'
           | (s', Raise e) => (s', Raise e)
           end.
Definition lift {A} (r : result A) : M A := fun s => (s, r).
Definition gets {A} (f : state -> A) : M A := fun s => (s, Ok (f s)).
Definition modify (f : state -> state) : M unit := fun s => (f s, Ok tt).

Notation "'let*' x ':=' m 'in' k" := (bind m (fun x => k))
  (at level 10, x pattern, m at level 100, k at level 200).
Notation "m ';;' k" := (bind m (fun _ => k))
  (at level 100, k at level 200, right associativity).

(** A [for] loop whose body may raise. *)
Fixpoint for_each {A} (l : list A) (body : A -> M unit) : M unit :=
  match l with
  | [] => ret tt
  | x :: l' => body x;; for_each l' body
  end.

(** [x in l] on a list of integers. *)
Definition mem (x : Z) (l : list Z) : bool := bool_decide (x ∈ l).

(** [l.remove(x)]: the first occurrence goes. *)
Fixpoint list_remove {A} `{EqDecision A} (x : A) (l : list A) : option (list A) :=
  match l with
  | [] => None
  | y :: l' => if decide (y = x) then Some l' else cons y <$> list_remove x l'
  end.

(** [d[k] = v] and [del d[k]] on the socket-keyed dictionary. *)
Fixpoint assoc_set (d : list (nat * nat)) (k v : nat) : list (nat * nat) :=
  match d with
  | [] => [(k, v)]
  | (k', v') :: d' => if decide (k' = k) then (k', v) :: d' else (k', v') :: assoc_set d' k v
  end.

Fixpoint assoc_get (d : list (nat * nat)) (k : nat) : option nat :=
  match d with
  | [] => None
  | (k', v) :: d' => if decide (k' = k) then Some v else assoc_get d' k
  end.

Fixpoint assoc_del (d : list (nat * nat)) (k : nat) : option (list (nat * nat)) :=
  match d with
  | [] => None
  | (k', v) :: d' => if decide (k' = k) then Some d' else cons (k', v) <$> assoc_del d' k
  end.

(** Access to the [Player] object behind a reference. *)
Definition get_player (r : nat) : M Player.t :=
  fun s => (s, of_option Unmodelled (heap s !! r)).

Definition update_player (r : nat) (f : Player.t -> Player.t) : M unit :=
  fun s => match heap s !! r with
           | Some p => (with_heap (<[r := f p]> (heap s)) s, Ok tt)
           | None => (s, Raise Unmodelled)
           end.

(** Attribute access on the value stored under 'player': anything but a
    [Player] object has none of the attributes. *)
Definition as_player (v : pyval) : M nat :=
  match v with
  | VPlayer r => ret r
  | _ => raise AttributeError
  end.

(** [self.players.values()] *)
Definition player_values : M (list Player.t) :=
  fun s => (s, of_option Unmodelled (mapM (fun kv => heap s !! (snd kv)) (players s))).

(** [Planet.cache[planet_id]] *)
Definition cache_item (planet_id : Z) : M Planet.t :=
  fun s => (s, of_option KeyError (Planet_cache s !! planet_id)).

Definition update_planet (planet_id : Z) (f : Planet.t -> Planet.t) : M unit :=
  modify (fun s => with_Planet_cache (alter f planet_id (Planet_cache s)) s).

(** [self.__notify(name, args)] *)
Definition notify (name : pyval) (args : pydict) : M unit :=
  modify (fun s => with_sender_queue (sender_queue s ++ [mkEvent name args]) s).

(** Some planet of the cache is owned by the player: the inner loop of
    the game-over scan. *)
Definition owns_planet (cache : gmap Z Planet.t) (player : Player.t) : bool :=
  existsb (fun kv => owned_by (snd kv) player) (map_to_list cache).

(** The game-over scan over [self.players.values()]: the list
    [active_players] and whether the loop left through [break]. *)
Fixpoint scan_players (cache : gmap Z Planet.t) (ps : list Player.t)
    (active_players : list Z) : list Z * bool :=
  match ps with
  | [] => (active_players, false)
  | player :: ps' =>
      let active_players :=
        if (0 <? length (Player.object_ids player))%nat && owns_planet cache player
        then active_players ++ [Player.id player]
        else active_players in
      if (2 <=? length active_players)%nat then (active_players, true)
      else scan_players cache ps' active_players
  end.

(** [dict.values()] and iteration over a payload value. *)
Definition key_value (k : pykey) : pyval :=
  match k with
  | KStr s => VStr s
  | KInt n => VInt n
  end.

Definition py_iter (v : pyval) : result (list pyval) :=
  match v with
  | VList l => Ok l
  | VStr s => Ok (map (fun c => VStr (String c EmptyString)) (list_ascii_of_string s))
  | VDict d => Ok (map (fun kv => key_value (fst kv)) d)
  | _ => Raise TypeError
  end.

(** The parts of the program that are not among the sources, and the
    facts about the platform the code depends on. *)
Record collaborators : Type := mkCollaborators {
  (** [int(s)] for a string [s]; [None] is [ValueError]. *)
  int_of_str : string -> option Z;
  (** Modelled from the spec: [ID_GENERATOR] ([utils.py] is not among the
      sources), a monotonic generator of unique ids; [ID_GENERATOR i] is
      the value of its [i]-th [next]. *)
  ID_GENERATOR : nat -> Z;
  (** Modelled from the spec: [MapGenerator().run(player_ids)] followed by
      [get_dict()] on every planet ([map_generator.py] is not among the
      sources): from the player ids, the current [Planet.cache] and the
      number of ids generated so far, the new cache, the planet
      dictionaries for the map-init event and the new number of ids
      generated. *)
  MapGenerator_run :
    list Z -> gmap Z Planet.t -> nat -> gmap Z Planet.t * list pyval * nat;
  (** [Player.info()], the public projection sent with a connect event. *)
  Player_info : Player.t -> pyval;
  (** [struct]'s native byte order. *)
  native_order : byteorder;
  (** The limits of [json] and [int] where the server runs. *)
  limits : json_limits
}.

Section Server.

Variable env : collaborators.

(** [int(x)] *)
Definition py_int (v : pyval) : result Z :=
  match v with
  | VInt n => Ok n
  | VBool b => Ok (if b then 1 else 0)
  | VStr s => of_option ValueError (int_of_str env s)
  | _ => Raise TypeError
  end.

(** [[next(ID_GENERATOR) for _ in range(count)]] *)
Definition next_ids (count : Z) : M (list Z) :=
  fun s =>
    let k := Z.to_nat count in
    (with_generated (generated s + k)%nat s, Ok (map (ID_GENERATOR env) (seq (generated s) k))).

(** *** [Server.__wait_for_client], [__remove_client],
    [__wait_for_client_data] *)

Definition wait_for_client (client : nat) (address : string * Z) : M unit :=
  let* s := gets (fun s => s) in
  if negb (game_started s) && negb (readiness s)
     && (Z.of_nat (length (clients s)) <? max_clients_count s) then
    modify (fun s => with_clients (clients s ++ [client]) s);;
    modify (fun s => with_next_player_id (next_player_id s + 1) s);;
    let* next_id := gets next_player_id in
    let player := Player.new address next_id in
    let* r := gets (fun s => length (heap s)) in
    modify (fun s => with_heap (heap s ++ [player]) s);;
    modify (fun s => with_players (assoc_set (players s) client r) s);;
    notify (VStr EventName.CONNECT) [(KStr "player", Player_info env player)]
  else ret tt.

Definition remove_client (client_sock : nat) : M unit :=
  let* cs := gets clients in
  let* cs' := lift (of_option ValueError (list_remove client_sock cs)) in
  modify (with_clients cs');;
  let* ps := gets players in
  let* ps' := lift (of_option KeyError (assoc_del ps client_sock)) in
  modify (with_players ps').

(** [data_size] and [event] are what the two [recv] calls return. *)
Definition wait_for_client_data (client_sock : nat)
    (data_size event : list Byte.byte) : M unit :=
  match data_size with
  | _ :: _ =>
      let* n := lift (struct_unpack_i (native_order env) data_size) in
      if n <? 0 then raise ValueError
      else
        match event with
        | _ :: _ =>
            let* ps := gets players in
            let* player := lift (of_option KeyError (assoc_get ps client_sock)) in
            let* event := lift (ClientEvent (limits env) player event) in
            modify (fun s => with_handler_queue (handler_queue s ++ [event]) s)
        | [] => remove_client client_sock
        end
  | [] => remove_client client_sock
  end.

(** *** [Server.__handler]: the branches of the loop body *)

Definition handle_ready (event : GameEvent) (player : pyval) : M unit :=
  let* v := lift (dict_item (payload event) "ready") in
  let* r := as_player player in
  update_player r (Player.with_ready v);;
  let* p := get_player r in
  notify (name event) [(KStr "player", VInt (Player.id p)); (KStr "ready", v)];;
  let* ps := player_values in
  let all_ready := forallb (fun p => truthy (Player.ready p)) ps in
  if all_ready && (1 <? length ps)%nat then
    let* s := gets (fun s => s) in
    let '(cache, game_map, n) :=
      MapGenerator_run env (map Player.id ps) (Planet_cache s) (generated s) in
    modify (with_Planet_cache cache);;
    modify (with_generated n);;
    modify (with_readiness true);;
    notify (VStr EventName.MAP_INIT) [(KStr "map", VList game_map)]
  else ret tt.

Definition handle_rendered (player : pyval) : M unit :=
  let* r := as_player player in
  update_player r (Player.with_rendered true);;
  let* ps := player_values in
  if forallb Player.rendered ps then
    notify (VStr EventName.GAME_STARTED) [];;
    modify (with_game_started true)
  else ret tt.

Definition handle_move (event : GameEvent) (player : pyval) : M unit :=
  let* u := lift (dict_item (payload event) "unit_id") in
  let* unit_id := lift (py_int u) in
  let* r := as_player player in
  let* p := get_player r in
  if mem unit_id (Player.object_ids p) then notify (name event) (payload event)
  else ret tt.

(** One round of the loop over the requested planet ids; [punits] is
    threaded through. *)
Definition select_planet (player percentage : pyval) (punits : pydict)
    (planet_id : pyval) : M pydict :=
  let* planet_id := lift (py_int planet_id) in
  let* planet := cache_item planet_id in
  let* r := as_player player in
  let* p := get_player r in
  if owned_by planet p then
    let* pct := lift (py_int percentage) in
    let* new_ships_count := lift (round_div_100 (Planet.units_count planet * pct)) in
    update_planet planet_id
      (fun pl => Planet.with_units_count (Planet.units_count pl - new_ships_count) pl);;
    let* ids := next_ids new_ships_count in
    update_player r (fun p => Player.with_object_ids (Player.object_ids p ++ ids) p);;
    ret (dict_set punits (KInt planet_id) (VList (map VInt ids)))
  else ret punits.

Fixpoint select_loop (player percentage : pyval) (planet_ids : list pyval)
    (punits : pydict) : M pydict :=
  match planet_ids with
  | [] => ret punits
  | planet_id :: rest =>
      let* punits := select_planet player percentage punits planet_id in
      select_loop player percentage rest punits
  end.

Definition handle_select (event : GameEvent) (player : pyval) : M unit :=
  let* planet_ids := lift (dict_item (payload event) "from") in
  let* percentage := lift (dict_item (payload event) "percentage") in
  let* planet_ids := lift (py_iter planet_ids) in
  let* punits := select_loop player percentage planet_ids [] in
  notify (name event) [(KStr "selected", VDict punits)].

Definition handle_add_hp (event : GameEvent) (player : pyval) : M unit :=
  let* x := lift (dict_item (payload event) "planet_id") in
  let* planet_id := lift (py_int x) in
  let* h := lift (dict_item (payload event) "hp_count") in
  let* hp_count := lift (py_int h) in
  let* planet := cache_item planet_id in
  let* r := as_player player in
  let* p := get_player r in
  if owned_by planet p then
    update_planet planet_id
      (fun pl => Planet.with_units_count (Planet.units_count pl + hp_count) pl);;
    notify (name event) (payload event)
  else ret tt.

Definition owner_value (o : option Z) : pyval :=
  match o with
  | Some n => VInt n
  | None => VNone
  end.

(** Lines 184 to 208: the damage itself. *)
Definition apply_damage (event : GameEvent) (player : pyval) : M unit :=
  let* x := lift (dict_item (payload event) "planet_id") in
  let* planet_id := lift (py_int x) in
  let* u := lift (dict_item (payload event) "unit_id") in
  let* unit_id := lift (py_int u) in
  let* hp_count :=
    lift (py_int (default (VInt 1) (dict_get (payload event) (KStr "hp_count")))) in
  let* planet := cache_item planet_id in
  let* r := as_player player in
  let* p := get_player r in
  if mem unit_id (Player.object_ids p) then
    (if owned_by planet p then
       update_planet planet_id
         (fun pl => Planet.with_units_count (Planet.units_count pl + hp_count) pl)
     else
       update_planet planet_id
         (fun pl => Planet.with_units_count (Planet.units_count pl - hp_count) pl);;
       let* planet := cache_item planet_id in
       if Planet.units_count planet <? 0 then
         update_planet planet_id (Planet.with_owner (Some (Player.id p)));;
         update_planet planet_id
           (fun pl => Planet.with_units_count (Z.abs (Planet.units_count pl)) pl)
       else ret tt);;
    let* ids := lift (of_option ValueError (list_remove unit_id (Player.object_ids p))) in
    update_player r (Player.with_object_ids ids);;
    let* planet := cache_item planet_id in
    notify (name event)
      [(KStr "planet_change",
        VDict [(KStr "id", VInt planet_id);
               (KStr "units_count", VInt (Planet.units_count planet));
               (KStr "owner", owner_value (Planet.owner planet))]);
       (KStr "unit_id", VInt unit_id)]
  else ret tt.

(** Lines 210 to 231: the game-over check. *)
Definition check_game_over : M unit :=
  let* ps := player_values in
  let* cache := gets Planet_cache in
  let '(active_players, broke) := scan_players cache ps [] in
  if broke then ret tt
  else
    let* winner := lift (of_option IndexError (head active_players)) in
    notify (VStr EventName.GAME_OVER) [(KStr "winner", VInt winner)];;
    modify (with_readiness false);;
    modify (with_game_started false);;
    modify (with_players []);;
    modify (with_clients []).

Definition handle_damage (event : GameEvent) (player : pyval) : M unit :=
  apply_damage event player;;
  check_game_over.

(** The body of the handler loop for one dequeued event. *)
Definition handle (event : GameEvent) : M unit :=
  let* player := lift (dict_item (payload event) "player") in
  (if is_str (name event) EventName.READY then handle_ready event player
   else if is_str (name event) EventName.RENDERED then handle_rendered player
   else ret tt);;
  let* started := gets game_started in
  if started then
    if is_str (name event) EventName.MOVE then handle_move event player
    else if is_str (name event) EventName.SELECT then handle_select event player
    else if is_str (name event) EventName.ADD_HP then handle_add_hp event player
    else if is_str (name event) EventName.DAMAGE then handle_damage event player
    else ret tt
  else ret tt.

(** One turn of the handler loop: nothing when the queue is empty. *)
Definition handler : M unit :=
  let* q := gets handler_queue in
  match q with
  | [] => ret tt
  | event :: q' => modify (with_handler_queue q');; handle event
  end.

(** *** The threads

    One step of the system is one turn of the receiver loop on one
    readable socket, or one turn of the handler loop.  An exception ends
    the thread that raised it.  A turn whose outcome is [Unmodelled] is no
    step: the model does not say what the program does there.

    A turn is taken as a whole.  The program runs the two loops as threads
    without a lock, so it also passes through states in which one thread
    has run between two statements of the other; [step] does not reach
    those.  What is proved of all [reachable] states below is therefore
    kept to what one thread alone writes ([next_player_id], the [Player]
    objects and their units) or only ever empties, and the statements on
    the handler's and the receiver's branches are about one turn run from
    an arbitrary state. *)

(** The state a turn leaves, [stop] marking the end of the thread.  A turn
    whose outcome is [Unmodelled] is given a state here as well, but
    [step] and [enabled] do not take it. *)
Definition run_thread (stop : state -> state) (m : M unit) (s : state) : state :=
  match m s with
  | (s', Ok _) => s'
  | (s', Raise _) => stop s'
  end.

Inductive step : state -> state -> Prop :=
| step_accept s client address :
    receiver_alive s = true ->
    client ∉ clients s ->
    step s (run_thread (with_receiver_alive false) (wait_for_client client address) s)
| step_data s client data_size event :
    receiver_alive s = true ->
    client ∈ clients s ->
    (length data_size <= 4)%nat ->
    (forall n, struct_unpack_i (native_order env) data_size = Ok n ->
               Z.of_nat (length event) <= n) ->
    is_unmodelled (snd (wait_for_client_data client data_size event s)) = false ->
    step s (run_thread (with_receiver_alive false)
              (wait_for_client_data client data_size event) s)
| step_handle s :
    handler_alive s = true ->
    is_unmodelled (snd (handler s)) = false ->
    step s (run_thread (with_handler_alive false) handler s).

(** The states the server can be in, started with [max] as
    [max_client_count]. *)
Definition reachable (max : Z) (s : state) : Prop := rtc step (init max) s.

End Server.

(** ** Notions used in the statements *)

(** A player who holds at least one unit and owns at least one planet. *)
Definition qualifies (cache : gmap Z Planet.t) (player : Player.t) : bool :=
  (0 <? length (Player.object_ids player))%nat && owns_planet cache player.

(** The [Player] objects of [self.players], when every reference is live. *)
Definition current_players (s : state) : option (list Player.t) :=
  mapM (fun kv => heap s !! (snd kv)) (players s).

(** What a JSON text can carry of a value: dictionary keys become
    strings. *)
Definition key_text (k : pykey) : string :=
  match k with
  | KStr s => s
  | KInt n => int_repr n
  end.

Fixpoint norm (v : pyval) : pyval :=
  match v with
  | VList l => VList (map norm l)
  | VDict d => VDict (map (fun kv => let '(k, x) := kv in (KStr (key_text k), norm x)) d)
  | _ => v
  end.

(** Values [json.dumps] accepts and whose dictionaries have no two keys
    with the same text. *)
Fixpoint jsonable (v : pyval) : bool :=
  match v with
  | VList l => forallb jsonable l
  | VDict d =>
      forallb (fun kv => let '(_, x) := kv in jsonable x) d
      && bool_decide (NoDup (map (fun kv => key_text (fst kv)) d))
  | VPlayer _ => false
  | _ => true
  end.

(** Values with string keys only: exactly what [json.loads] can return. *)
Fixpoint string_keyed (v : pyval) : bool :=
  match v with
  | VList l => forallb string_keyed l
  | VDict d =>
      forallb (fun kv => let '(k, x) := kv in
                 match k with KStr _ => string_keyed x | KInt _ => false end) d
  | _ => true
  end.

(** The number of nested values, which bounds the fuel [scan_once] needs. *)
Fixpoint size (v : pyval) : nat :=
  match v with
  | VList l => S (list_sum (map (fun x => S (size x)) l))
  | VDict d => S (list_sum (map (fun kv => let '(_, x) := kv in S (size x)) d))
  | _ => 1
  end.

(** What a damage of [hp_count] by the player [pid] makes of a planet. *)
Definition damaged (planet : Planet.t) (pid hp_count : Z) : Planet.t :=
  if decide (Planet.owner planet = Some pid) then
    Planet.mk (Planet.owner planet) (Planet.units_count planet + hp_count)
  else if Planet.units_count planet - hp_count <? 0 then
    Planet.mk (Some pid) (Z.abs (Planet.units_count planet - hp_count))
  else Planet.mk (Planet.owner planet) (Planet.units_count planet - hp_count).

(** The event a handled damage puts on the sender queue. *)
Definition damage_notice (event : GameEvent) (planet_id unit_id : Z) (planet : Planet.t)
  : GameEvent :=
  mkEvent (name event)
    [(KStr "planet_change",
      VDict [(KStr "id", VInt planet_id);
             (KStr "units_count", VInt (Planet.units_count planet));
             (KStr "owner", owner_value (Planet.owner planet))]);
     (KStr "unit_id", VInt unit_id)].


(** ** Runs

    A run is a list of thread turns; [valid] checks the side conditions of
    [step] along the run. *)
Inductive action : Type :=
| Accept (client : nat) (address : string * Z)
| Data (client : nat) (data_size event : list Byte.byte)
| Handle.

Definition perform (env : collaborators) (a : action) (s : state) : state :=
  match a with
  | Accept client address =>
      run_thread (with_receiver_alive false) (wait_for_client env client address) s
  | Data client data_size event =>
      run_thread (with_receiver_alive false)
        (wait_for_client_data env client data_size event) s
  | Handle => run_thread (with_handler_alive false) (handler env) s
  end.

Definition enabled (env : collaborators) (a : action) (s : state) : bool :=
  match a with
  | Accept client _ => receiver_alive s && bool_decide (client ∉ clients s)
  | Data client data_size event =>
      receiver_alive s && bool_decide (client ∈ clients s)
      && (length data_size <=? 4)%nat
      && match struct_unpack_i (native_order env) data_size with
         | Ok n => Z.of_nat (length event) <=? n
         | Raise _ => true
         end
      && negb (is_unmodelled (snd (wait_for_client_data env client data_size event s)))
  | Handle => handler_alive s && negb (is_unmodelled (snd (handler env s)))
  end.

Fixpoint run (env : collaborators) (l : list action) (s : state) : state :=
  match l with
  | [] => s
  | a :: l' => run env l' (perform env a s)
  end.

Fixpoint valid (env : collaborators) (l : list action) (s : state) : bool :=
  match l with
  | [] => true
  | a :: l' => enabled env a s && valid env l' (perform env a s)
  end.

(** The bytes a client sends for the JSON document [v]: the length and
    the text. *)
Definition client_sends (env : collaborators) (client : nat) (v : pyval) : action :=
  let text := dumps_val v in
  Data client
    (match struct_pack_i (native_order env) (Z.of_nat (String.length text)) with
     | Ok b => b
     | Raise _ => []
     end)
    (encode_utf8 text).

(** ** A sample of the collaborators, to run the model on inputs

    The ids 0, 1, 2, ... for the generator, one planet with 10 units for
    each player, the limits of a default interpreter, and [int(s)] as
    Python reads a string in base 10: white space around it, a sign,
    digits with single underscores between them. *)
Definition sample_limits : json_limits := mkLimits 985 985 4300.

Definition is_py_space (c : ascii) : bool :=
  let n := code c in
  ((9 <=? n) && (n <=? 13)) || ((28 <=? n) && (n <=? 32)) || (n =? 133) || (n =? 160).

Fixpoint lstrip (s : string) : string :=
  match s with
  | String c r => if is_py_space c then lstrip r else s
  | EmptyString => s
  end.

(** The digits after a first digit: the value, how many digits, and the
    rest of the text. *)
Fixpoint scan_int_digits (s : string) (acc : Z) (k : nat) : option (Z * nat * string) :=
  match s with
  | String c r =>
      if is_digit c then scan_int_digits r (10 * acc + (code c - 48)) (S k)
      else if code c =? 95 then
        match r with
        | String c' r' =>
            if is_digit c' then scan_int_digits r' (10 * acc + (code c' - 48)) (S k)
            else None
        | EmptyString => None
        end
      else Some (acc, k, s)
  | EmptyString => Some (acc, k, s)
  end.

Definition sample_int_of_str (s : string) : option Z :=
  let s1 := lstrip s in
  let '(neg, s2) :=
    match s1 with
    | String c r =>
        if code c =? 45 then (true, r) else if code c =? 43 then (false, r) else (false, s1)
    | EmptyString => (false, s1)
    end in
  match s2 with
  | String c r =>
      if is_digit c then
        match scan_int_digits r (code c - 48) 1 with
        | Some (n, k, rest) =>
            match lstrip rest with
            | EmptyString =>
                if too_many_digits sample_limits k then None
                else Some (if neg then - n else n)
            | String _ _ => None
            end
        | None => None
        end
      else None
  | EmptyString => None
  end.

Definition sample_planet_dict (i : nat) (pid : Z) : pyval :=
  VDict [(KStr "id", VInt (Z.of_nat i)); (KStr "owner", VInt pid);
         (KStr "units_count", VInt 10)].

Definition sample_map (ids : list Z) (cache : gmap Z Planet.t) (n : nat)
  : gmap Z Planet.t * list pyval * nat :=
  (list_to_map (imap (fun i pid => (Z.of_nat i, Planet.mk (Some pid) 10)) ids),
   imap sample_planet_dict ids, n).

Definition sample_info (p : Player.t) : pyval :=
  VDict [(KStr "id", VInt (Player.id p))].

Definition sample : collaborators :=
  mkCollaborators sample_int_of_str (fun i => Z.of_nat i) sample_map sample_info
    LittleEndian sample_limits.

Definition msg (name : string) (fields : pydict) : pyval :=
  VDict ((KStr "name", VStr name) :: fields).

Definition addr (port : Z) : string * Z := ("127.0.0.1"%string, port).

(** Two players connect, both report ready (the map is generated) and
    both report the map rendered (the game starts). *)
Definition started_run (env : collaborators) : list action :=
  [Accept 0 (addr 5000); Accept 1 (addr 5001);
   client_sends env 0 (msg "ready" [(KStr "ready", VBool true)]); Handle;
   client_sends env 1 (msg "ready" [(KStr "ready", VBool true)]); Handle;
   client_sends env 0 (msg "rendered" []); Handle;
   client_sends env 1 (msg "rendered" []); Handle].

Definition two_players_started : list action := started_run sample.

(** ** Notions of the JSON round trip *)

(** A power of ten above [n], found with the fuel [digits] uses. *)
Fixpoint pow10 (fuel : nat) (n : Z) : Z :=
  match fuel with
  | O => 1
  | S f => if n <? 10 then 10 else 10 * pow10 f (n / 10)
  end.

(** A text at which a number literal ends: no digit and no fraction or
    exponent follows. *)
Definition terminated (s : string) : Prop :=
  starts_with_digit s = false /\ float_tail s = false.

(** The first character of a value's text: not white space, not a
    closing bracket. *)
Definition value_start (s : string) : Prop :=
  exists c r, s = String c r /\ is_ws c = false /\ (code c =? 93) = false.

(** The number of decimal digits of [n]. *)
Definition int_digits (n : Z) : nat := String.length (int_repr (Z.abs n)).

(** [fits lim v d]: the lists and dictionaries of [v] are nested at most
    [d] deep and no integer in it has too many digits. *)
Fixpoint fits (lim : json_limits) (v : pyval) (d : nat) {struct v} : bool :=
  match v with
  | VInt n => negb (too_many_digits lim (int_digits n))
  | VList l =>
      match d with
      | O => false
      | S d' => forallb (fun x => fits lim x d') l
      end
  | VDict kvs =>
      match d with
      | O => false
      | S d' => forallb (fun kv => let '(_, x) := kv in fits lim x d') kvs
      end
  | _ => true
  end.



(** A value within the limits of [json.loads] where the receiver calls
    it. *)
Definition readable (lim : json_limits) (v : pyval) : bool :=
  fits lim v (S (loads_spare lim)).


(** [scan_once] reads the text [json.dumps] writes for [v], whatever
    follows it. *)
Definition scans (lim : json_limits) (v : pyval) : Prop :=
  forall rest fuel d, jsonable v = true -> fits lim v d = true ->
    (size v <= fuel)%nat -> terminated rest ->
    scan_once lim fuel d (dumps_val v +:+ rest) = Ok (norm v, rest).

(** The fuel the items of a list, and of a dictionary, need. *)
Definition weight (l : list pyval) : nat := list_sum (map (fun x => S (size x)) l).

Definition pweight (d : pydict) : nat :=
  list_sum (map (fun kv => let '(_, x) := kv in S (size x)) d).

(** A text of ASCII characters only, as [json.dumps] writes. *)
Fixpoint ascii_text (s : string) : bool :=
  match s with
  | EmptyString => true
  | String c r => (code c <? 128) && ascii_text r
  end.

(** ** Invariants of the server *)

(** What a turn of the handler keeps: the [Player] objects stay where they
    are with their ids and, once set, their [rendered] flag; the id counter
    stays; the player dictionary stays or is emptied by a game over. *)
Record keeps (s s' : state) : Prop := mkKeeps {
  keeps_length : length (heap s') = length (heap s);
  keeps_heap : forall r p, heap s !! r = Some p ->
    exists p', heap s' !! r = Some p' /\ Player.id p' = Player.id p
               /\ (Player.rendered p = true -> Player.rendered p' = true);
  keeps_next_id : next_player_id s' = next_player_id s;
  keeps_players : players s' = players s \/ players s' = []
}.

(** A statement keeps the relation [R] whatever its outcome. *)
Definition preserves (R : relation state) {A} (m : M A) : Prop :=
  forall s, R s (fst (m s)).

(** The id generator only moves forward. *)
Definition grows (s s' : state) : Prop := (generated s <= generated s')%nat.

(** [game_started] is as it was; [Planet.cache] is as it was. *)
Definition started_kept (s s' : state) : Prop := game_started s' = game_started s.

Definition cache_kept (s s' : state) : Prop := Planet_cache s' = Planet_cache s.

(** The map generator does not turn the id generator back. *)
Definition map_generator_monotone (env : collaborators) : Prop :=
  forall ids cache n, (n <= (snd (MapGenerator_run env ids cache n)))%nat.

(** What holds in every state the server reaches: the references in
    [self.players] are live, the ids of the players created so far are
    1, 2, ... and [next_player_id] counts them.  Only the receiver creates
    players and writes [next_player_id]; the handler only empties
    [self.players]. *)
Record consistent (s : state) : Prop := mkConsistent {
  live_players : forall k r, (k, r) ∈ players s -> (r < length (heap s))%nat;
  ids_consecutive : map Player.id (heap s) = map Z.of_nat (seq 1 (length (heap s)));
  next_id_counts : next_player_id s = Z.of_nat (length (heap s))
}.

(** The client list holds each socket once and no more sockets than the
    server admits, and every socket in it is a key of the players
    dictionary.  (The converse is left out: a game over empties the
    dictionary and the list one after the other.) *)
Record connected (s : state) : Prop := mkConnected {
  clients_nodup : NoDup (clients s);
  players_nodup : NoDup (map fst (players s));
  clients_players : forall c, c ∈ clients s -> c ∈ map fst (players s);
  clients_bounded : Z.of_nat (length (clients s)) <= Z.max 0 (max_clients_count s)
}.

(** What a turn of the handler does to them: nothing, or a game over
    empties both. *)
Definition session_kept (s s' : state) : Prop :=
  max_clients_count s' = max_clients_count s
  /\ ((clients s' = clients s /\ players s' = players s)
      \/ (clients s' = [] /\ players s' = [])).

(** The object at a reference is still there, with its id and, once set,
    its [rendered] flag. *)
Definition persists (s s' : state) : Prop :=
  forall r p, heap s !! r = Some p ->
    exists p', heap s' !! r = Some p' /\ Player.id p' = Player.id p
               /\ (Player.rendered p = true -> Player.rendered p' = true).

(** The sender's [Player] object keeps its id and the planet [j] is as it
    was. *)
Definition foreign_kept (r : nat) (id : Z) (j : Z) (planet : Planet.t) (s : state) : Prop :=
  (exists p, heap s !! r = Some p /\ Player.id p = id)
  /\ Planet_cache s !! j = Some planet.

(** [u] is one of the ids the generator has given out so far. *)
Definition issued (env : collaborators) (s : state) (u : Z) : Prop :=
  exists i, (i < generated s)%nat /\ u = ID_GENERATOR env i.

(** Every unit a player holds was given out by the generator, and it is
    held once, by one player. *)
Record units_owned (env : collaborators) (s : state) : Prop := mkUnitsOwned {
  units_issued : forall r p u,
    heap s !! r = Some p -> u ∈ Player.object_ids p -> issued env s u;
  units_once : forall r p, heap s !! r = Some p -> NoDup (Player.object_ids p);
  units_apart : forall r1 r2 p1 p2 u,
    heap s !! r1 = Some p1 -> heap s !! r2 = Some p2 ->
    u ∈ Player.object_ids p1 -> u ∈ Player.object_ids p2 -> r1 = r2
}.

(** A statement that keeps [units_owned]. *)
Definition units_kept (env : collaborators) (s s' : state) : Prop :=
  units_owned env s -> units_owned env s'.

(** The id generator never repeats itself. *)
Definition id_generator_increasing (env : collaborators) : Prop :=
  forall i j, (i < j)%nat -> ID_GENERATOR env i < ID_GENERATOR env j.

(** ** The select event in the words of the claim

    What claim C7 says the handling of a select event does, written as a
    function of its own to compare the handler with: the planet cache, the
    sender's unit list, the number of ids generated and the units recorded
    per planet, taken through the requested planets one after the other. *)
Record selection : Type := mkSelection {
  sel_cache : gmap Z Planet.t;
  sel_ids : list Z;
  sel_generated : nat;
  sel_units : pydict
}.

(** One requested planet: a planet that is not the sender's is passed
    over; of the sender's planet, [round(units_count * percentage / 100.0)]
    units are taken, that many ids (none for a negative count) are the
    generator's next ones, and they are appended to the sender's units and
    recorded under the planet.  A planet id that is not in the cache, or a
    count that cannot be rounded, has no outcome here. *)
Definition spec_select_round (env : collaborators) (pid pct : Z) (acc : selection)
    (planet_id : Z) : option selection :=
  match sel_cache acc !! planet_id with
  | None => None
  | Some planet =>
      if decide (Planet.owner planet = Some pid) then
        match round_div_100 (Planet.units_count planet * pct) with
        | Ok count =>
            let ids := map (ID_GENERATOR env) (seq (sel_generated acc) (Z.to_nat count)) in
            Some (mkSelection
                    (<[planet_id := Planet.mk (Planet.owner planet)
                                      (Planet.units_count planet - count)]> (sel_cache acc))
                    (sel_ids acc ++ ids)
                    (sel_generated acc + Z.to_nat count)
                    (dict_set (sel_units acc) (KInt planet_id) (VList (map VInt ids))))
        | Raise _ => None
        end
      else Some acc
  end.

Fixpoint spec_select (env : collaborators) (pid pct : Z) (acc : selection)
    (planet_ids : list Z) : option selection :=
  match planet_ids with
  | [] => Some acc
  | planet_id :: rest =>
      match spec_select_round env pid pct acc planet_id with
      | Some acc' => spec_select env pid pct acc' rest
      | None => None
      end
  end.

(** ** The state in which the winner is read off an empty list *)

(** The state after [started_run], given what the map generator
    returned. *)
Definition started_state (env : collaborators) (cache : gmap Z Planet.t)
    (game_map : list pyval) (n : nat) : state :=
  let p1 := Player.mk (addr 5000) 1 (VBool true) true [] in
  let p2 := Player.mk (addr 5001) 2 (VBool true) true [] in
  mkState [0; 1]%nat 8 [(0, 0); (1, 1)]%nat 2 true true []
    [mkEvent (VStr EventName.CONNECT)
       [(KStr "player", Player_info env (Player.new (addr 5000) 1))];
     mkEvent (VStr EventName.CONNECT)
       [(KStr "player", Player_info env (Player.new (addr 5001) 2))];
     mkEvent (VStr EventName.READY) [(KStr "player", VInt 1); (KStr "ready", VBool true)];
     mkEvent (VStr EventName.READY) [(KStr "player", VInt 2); (KStr "ready", VBool true)];
     mkEvent (VStr EventName.MAP_INIT) [(KStr "map", VList game_map)];
     mkEvent (VStr EventName.GAME_STARTED) []]
    [p1; p2] cache n true true.

(** A damage message without [hp_count]. *)
Definition damage_msg (planet_id unit_id : Z) : pyval :=
  msg "damage" [(KStr "planet_id", VInt planet_id); (KStr "unit_id", VInt unit_id)].

(** [started_state] with a damage event of the first player waiting in the
    handler queue. *)
Definition crash_state (env : collaborators) (cache : gmap Z Planet.t) (game_map : list pyval) (n : nat)
    (k : Z) : state :=
  with_handler_queue
    [mkEvent (VStr EventName.DAMAGE)
       [(KStr "planet_id", VInt k); (KStr "unit_id", VInt 0);
        (KStr "player", VPlayer 0)]]
    (started_state env cache game_map n).

(** ** Sample runs *)

(** A client selects [percentage] percent of the units of one planet. *)
Definition sel (client : nat) (planet_id percentage : Z) : action :=
  client_sends sample client
    (msg "select" [(KStr "from", VList [VInt planet_id]); (KStr "percentage", VInt percentage)]).

Definition ready_msg : pyval := msg "ready" [(KStr "ready", VBool true)].


(** Both players ready: the map is generated, nobody has rendered. *)
Definition ready_state : state :=
  run sample [Accept 0 (addr 5000); Accept 1 (addr 5001);
              client_sends sample 0 ready_msg; Handle;
              client_sends sample 1 ready_msg; Handle] (init 8).

(** The game has started: each player owns a planet with 10 units and
    holds no unit. *)
Definition started_sample : state := run sample two_players_started (init 8).

(** Player 1 has taken all 10 units of planet 0, player 2 half of the 10
    units of planet 1. *)
Definition capture_run : list action :=
  two_players_started ++ [sel 0 0 100; Handle; sel 1 1 50; Handle].

Definition capture_state : state := run sample capture_run (init 8).

(** Both players have taken all the units of their planet. *)
Definition emptied_state : state :=
  run sample (two_players_started ++ [sel 0 0 100; Handle; sel 1 1 100; Handle]) (init 8).

(** Events as the handler takes them from its queue, for the player at
    reference [r]. *)
Definition damage_event (r : nat) (planet_id unit_id hp_count : Z) : GameEvent :=
  mkEvent (VStr EventName.DAMAGE)
    [(KStr "planet_id", VInt planet_id); (KStr "unit_id", VInt unit_id);
     (KStr "hp_count", VInt hp_count); (KStr "player", VPlayer r)].

Definition plain_damage_event (r : nat) (planet_id unit_id : Z) : GameEvent :=
  mkEvent (VStr EventName.DAMAGE)
    [(KStr "planet_id", VInt planet_id); (KStr "unit_id", VInt unit_id);
     (KStr "player", VPlayer r)].

Definition ready_event (r : nat) : GameEvent :=
  mkEvent (VStr EventName.READY) [(KStr "ready", VBool true); (KStr "player", VPlayer r)].

(** How many map-init and game-over events were broadcast so far. *)
Definition map_inits (s : state) : nat :=
  length (List.filter (fun e => is_str (name e) EventName.MAP_INIT) (sender_queue s)).


(** The two players of the sample runs once the game has started. *)
Definition player_one : Player.t := Player.mk (addr 5000) 1 (VBool true) true [].

Definition player_two : Player.t := Player.mk (addr 5001) 2 (VBool true) true [].

(** An add_hp and a move event as the handler takes them from its queue. *)
Definition add_hp_event (r : nat) (planet_id hp_count : Z) : GameEvent :=
  mkEvent (VStr EventName.ADD_HP)
    [(KStr "planet_id", VInt planet_id); (KStr "hp_count", VInt hp_count);
     (KStr "player", VPlayer r)].

Definition move_event (r : nat) (unit_id : Z) : GameEvent :=
  mkEvent (VStr EventName.MOVE) [(KStr "unit_id", VInt unit_id); (KStr "player", VPlayer r)].

(** A rendered and a select event as the handler takes them from its
    queue. *)
Definition rendered_event (r : nat) : GameEvent :=
  mkEvent (VStr EventName.RENDERED) [(KStr "player", VPlayer r)].

Definition select_event (r : nat) (planet_ids : list Z) (percentage : Z) : GameEvent :=
  mkEvent (VStr EventName.SELECT)
    [(KStr "from", VList (map VInt planet_ids)); (KStr "percentage", VInt percentage);
     (KStr "player", VPlayer r)].

(** A client sends a damage, and an add_hp. *)
Definition dmg (client : nat) (planet_id unit_id hp_count : Z) : action :=
  client_sends sample client
    (msg "damage" [(KStr "planet_id", VInt planet_id); (KStr "unit_id", VInt unit_id);
                   (KStr "hp_count", VInt hp_count)]).

Definition hp (client : nat) (planet_id hp_count : Z) : action :=
  client_sends sample client
    (msg "add_hp" [(KStr "planet_id", VInt planet_id); (KStr "hp_count", VInt hp_count)]).

(** Both players are ready and the first has rendered: the game has not
    started. *)
Definition one_rendered_state : state :=
  run sample [Accept 0 (addr 5000); Accept 1 (addr 5001);
              client_sends sample 0 ready_msg; Handle;
              client_sends sample 1 ready_msg; Handle;
              client_sends sample 0 (msg "rendered" []); Handle] (init 8).

(** In [capture_state] both players have sent a damage for planet 1 and
    the first one has been handled: player 1 has taken the planet, the
    game is over, and the damage of player 2 is still in the queue. *)
Definition game_over_run : list action :=
  capture_run ++ [dmg 0 1 3 7; dmg 1 1 10 7; Handle].

Definition game_over_sample : state := run sample game_over_run (init 8).

(** The frame of the event [gameover] with winner 1. *)
Definition game_over_frame : list Byte.byte :=
  Eval vm_compute in
    match request LittleEndian
            (mkEvent (VStr EventName.GAME_OVER) [(KStr "winner", VInt 1)]) with
    | Ok wire => wire
    | Raise _ => []
    end.

(** The frame of a text that is no JSON: the length 1 and the byte [x]. *)
Definition bad_frame_size : list Byte.byte :=
  Eval vm_compute in
    match struct_pack_i LittleEndian 1 with
    | Ok b => b
    | Raise _ => []
    end.

(** * The JSON text and the frame on the wire *)

Lemma append_cons c (a b : string) : String c a +:+ b = String c (a +:+ b).
Proof. reflexivity. Qed.
Lemma append_nil (b : string) : EmptyString +:+ b = b.
Proof. reflexivity. Qed.
Lemma append_nil_r (a : string) : a +:+ EmptyString = a.
Proof. induction a as [|c a IH]; [reflexivity|]. rewrite append_cons, IH. reflexivity. Qed.
Lemma append_assoc (a b c : string) : (a +:+ b) +:+ c = a +:+ (b +:+ c).
Proof. induction a as [|x a IH]; [reflexivity|]. rewrite !append_cons, IH. reflexivity. Qed.
Lemma length_append (a b : string) :
  String.length (a +:+ b) = (String.length a + String.length b)%nat.
Proof. induction a as [|x a IH]; [reflexivity|]. rewrite append_cons. simpl. rewrite IH. reflexivity. Qed.

Lemma scanstring_esc_char c r acc :
  scanstring (esc_char c +:+ r) acc = scanstring r (acc +:+ String c EmptyString).
Proof.
  destruct c as [[] [] [] [] [] [] [] []]; reflexivity.
Qed.

Lemma scanstring_esc s : forall acc rest,
  scanstring (esc_string s +:+ String dquote rest) acc = Ok (acc +:+ s, rest).
Proof.
  induction s as [|c s IH]; intros acc rest.
  - simpl esc_string. rewrite append_nil, append_nil_r. reflexivity.
  - simpl esc_string. rewrite append_assoc, scanstring_esc_char, IH.
    rewrite append_assoc. reflexivity.
Qed.

Lemma scan_once_quote lim f d r :
  scan_once lim (S f) d (String dquote r)
  = rbind (scanstring r EmptyString) (fun '(x, r') => Ok (VStr x, r')).
Proof. reflexivity. Qed.

Lemma scan_string_value lim s rest f d :
  scan_once lim (S f) d (encode_str s +:+ rest) = Ok (VStr s, rest).
Proof.
  unfold encode_str. rewrite append_cons, scan_once_quote.
  rewrite append_assoc, append_cons, append_nil, scanstring_esc. reflexivity.
Qed.

(** Numbers *)

Lemma digit_char d : 0 <= d < 10 -> is_digit (chr (48 + d)) = true /\ code (chr (48 + d)) = 48 + d.
Proof.
  intros H. assert (Hd : d = 0 \/ d = 1 \/ d = 2 \/ d = 3 \/ d = 4 \/ d = 5 \/ d = 6 \/ d = 7 \/ d = 8 \/ d = 9) by lia.
  destruct Hd as [->|[->|[->|[->|[->|[->|[->|[->|[->| ->]]]]]]]]]; split; reflexivity.
Qed.

Lemma scan_digits_cons c r acc :
  is_digit c = true -> scan_digits (String c r) acc = scan_digits r (10 * acc + (code c - 48)).
Proof. intros H. simpl. rewrite H. reflexivity. Qed.

Lemma scan_digits_stop s acc : starts_with_digit s = false -> scan_digits s acc = (acc, s).
Proof. destruct s as [|c r]; simpl; [reflexivity|]. intros ->. reflexivity. Qed.

Lemma scan_digits_digits f : forall n acc rest,
  0 <= n < 2 ^ (Z.of_nat f + 1) ->
  scan_digits (digits (S f) n +:+ rest) acc = scan_digits rest (acc * pow10 (S f) n + n).
Proof.
  induction f as [|f IH]; intros n acc rest Hn.
  - simpl in Hn. assert (Hlt : (n <? 10) = true) by lia.
    simpl digits. simpl pow10. rewrite Hlt. rewrite append_cons, append_nil.
    destruct (digit_char n) as [Hd Hc]; [lia|].
    rewrite scan_digits_cons by exact Hd. rewrite Hc. f_equal. lia.
  - change (digits (S (S f)) n) with
      (if n <? 10 then String (chr (48 + n)) EmptyString
       else digits (S f) (n / 10) +:+ String (chr (48 + n mod 10)) EmptyString).
    change (pow10 (S (S f)) n) with (if n <? 10 then 10 else 10 * pow10 (S f) (n / 10)).
    destruct (n <? 10) eqn:Hlt.
    + rewrite append_cons, append_nil.
      destruct (digit_char n) as [Hd Hc]; [lia|].
      rewrite scan_digits_cons by exact Hd. rewrite Hc. f_equal. lia.
    + rewrite append_assoc, append_cons, append_nil.
      assert (Hdiv : 0 <= n / 10 < 2 ^ (Z.of_nat f + 1)).
      { split; [apply Z.div_pos; lia|].
        apply Z.div_lt_upper_bound; [lia|].
        replace (Z.of_nat (S f) + 1) with (Z.succ (Z.of_nat f + 1)) in Hn by lia.
        rewrite Z.pow_succ_r in Hn by lia. lia. }
      rewrite IH by exact Hdiv.
      destruct (digit_char (n mod 10)) as [Hd Hc]; [apply Z.mod_pos_bound; lia|].
      rewrite scan_digits_cons by exact Hd. rewrite Hc. f_equal.
      pose proof (Z.div_mod n 10 ltac:(lia)). lia.
Qed.

Lemma log2_fuel n : 0 <= n -> 0 <= n < 2 ^ (Z.of_nat (Z.to_nat (Z.log2 n)) + 1).
Proof.
  intros Hn. split; [exact Hn|].
  rewrite Z2Nat.id by apply Z.log2_nonneg.
  destruct (Z.eq_dec n 0) as [->|Hne]; [reflexivity|].
  pose proof (Z.log2_spec n ltac:(lia)) as [_ H]. 
  replace (Z.log2 n + 1) with (Z.succ (Z.log2 n)) by lia. exact H.
Qed.

(** The first digit of a positive number is not zero. *)
Lemma digits_head f : forall n,
  0 <= n < 2 ^ (Z.of_nat f + 1) ->
  exists c r, digits (S f) n = String c r /\ is_digit c = true
              /\ (0 < n -> code c <> 48) /\ (n = 0 -> c = "0"%char /\ r = EmptyString).
Proof.
  induction f as [|f IH]; intros n Hn.
  - simpl in Hn. assert (Hlt : (n <? 10) = true) by lia.
    simpl digits. rewrite Hlt. destruct (digit_char n) as [Hd Hc]; [lia|].
    eexists _, _. split; [reflexivity|]. split; [exact Hd|]. split.
    + rewrite Hc. lia.
    + intros ->. split; reflexivity.
  - change (digits (S (S f)) n) with
      (if n <? 10 then String (chr (48 + n)) EmptyString
       else digits (S f) (n / 10) +:+ String (chr (48 + n mod 10)) EmptyString).
    destruct (n <? 10) eqn:Hlt.
    + destruct (digit_char n) as [Hd Hc]; [lia|].
      eexists _, _. split; [reflexivity|]. split; [exact Hd|]. split.
      * rewrite Hc. lia.
      * intros ->. split; reflexivity.
    + assert (Hdiv : 0 <= n / 10 < 2 ^ (Z.of_nat f + 1)).
      { split; [apply Z.div_pos; lia|].
        apply Z.div_lt_upper_bound; [lia|].
        replace (Z.of_nat (S f) + 1) with (Z.succ (Z.of_nat f + 1)) in Hn by lia.
        rewrite Z.pow_succ_r in Hn by lia. lia. }
      destruct (IH _ Hdiv) as (c & r & -> & Hd & Hpos & _).
      rewrite append_cons. eexists _, _. split; [reflexivity|]. split; [exact Hd|]. split.
      * intros _. apply Hpos. 
        assert (1 <= n / 10) by (apply Z.div_le_lower_bound; lia). lia.
      * intros ->. discriminate.
Qed.

Lemma scan_natural_digits f n rest :
  0 <= n < 2 ^ (Z.of_nat f + 1) ->
  starts_with_digit rest = false ->
  scan_natural (digits (S f) n +:+ rest) = Some (n, rest).
Proof.
  intros Hn Hrest.
  destruct (digits_head f n Hn) as (c & r & E & Hd & Hpos & Hzero).
  destruct (Z.eq_dec n 0) as [->|Hne].
  - destruct (Hzero eq_refl) as [-> ->]. rewrite E. reflexivity.
  - pose proof (scan_digits_digits f n 0 rest Hn) as Hs.
    rewrite E in *. rewrite append_cons in *.
    unfold scan_natural. 
    destruct (code c =? 48) eqn:Hc; [apply Z.eqb_eq in Hc; exfalso; exact (Hpos ltac:(lia) Hc)|].
    rewrite Hd, Hs. rewrite scan_digits_stop by exact Hrest. do 2 f_equal; lia.
Qed.

Lemma length_append_sub (a b : string) :
  (String.length (a +:+ b) - String.length b)%nat = String.length a.
Proof. rewrite length_append. lia. Qed.

Lemma int_digits_neg n : n < 0 -> int_digits n = String.length (digits (S (Z.to_nat (Z.log2 (- n)))) (- n)).
Proof.
  intros Hn. unfold int_digits, int_repr. replace (Z.abs n) with (- n) by lia.
  destruct (Z.ltb_spec (- n) 0) as [E|E]; [lia|]. reflexivity.
Qed.

Lemma int_digits_nonneg n : 0 <= n -> int_digits n = String.length (digits (S (Z.to_nat (Z.log2 n))) n).
Proof.
  intros Hn. unfold int_digits, int_repr. replace (Z.abs n) with n by lia.
  destruct (Z.ltb_spec n 0) as [E|E]; [lia|]. reflexivity.
Qed.

Lemma scan_number_int lim n rest :
  too_many_digits lim (int_digits n) = false ->
  terminated rest -> scan_number lim (int_repr n +:+ rest) = Some (Ok (n, rest)).
Proof.
  intros Hlim [Hd Hf]. unfold int_repr. destruct (n <? 0) eqn:Hneg.
  - rewrite int_digits_neg in Hlim by lia.
    rewrite append_cons. unfold scan_number.
    change (code "-" =? 45) with true. cbv iota beta.
    rewrite scan_natural_digits; [|apply log2_fuel; lia|exact Hd].
    rewrite Hf, length_append_sub, Hlim. do 3 f_equal; lia.
  - assert (Hn : 0 <= n) by lia.
    rewrite int_digits_nonneg in Hlim by lia.
    pose proof (log2_fuel n Hn) as Hfuel.
    pose proof (scan_natural_digits _ n rest Hfuel Hd) as Hs.
    pose proof (length_append_sub (digits (S (Z.to_nat (Z.log2 n))) n) rest) as Hl.
    destruct (digits_head _ n Hfuel) as (c & r & E & Hdig & _ & _).
    rewrite E in *. rewrite append_cons in *. unfold scan_number.
    assert (Hc : (code c =? 45) = false).
    { unfold is_digit in Hdig. apply Z.eqb_neq. lia. }
    rewrite Hc, Hs, Hf, Hl, Hlim. reflexivity.
Qed.

Lemma scan_once_number lim f d c r res :
  code c = 45 \/ is_digit c = true ->
  scan_number lim (String c r) = Some res ->
  scan_once lim (S f) d (String c r) = rbind res (fun '(n, r') => Ok (VInt n, r')).
Proof.
  intros H E.
  assert (scan_once lim (S f) d (String c r)
          = match scan_number lim (String c r) with
            | Some res => rbind res (fun '(n, r') => Ok (VInt n, r'))
            | None =>
                match strip "NaN" (String c r), strip "Infinity" (String c r),
                      strip "-Infinity" (String c r) with
                | None, None, None => Raise JSONDecodeError
                | _, _, _ => Raise Unmodelled
                end
            end) as ->.
  { destruct c as [[] [] [] [] [] [] [] []]; vm_compute in H;
      try (exfalso; destruct H; discriminate); reflexivity. }
  rewrite E. reflexivity.
Qed.

Lemma scan_int_value lim f d n rest :
  too_many_digits lim (int_digits n) = false ->
  terminated rest -> scan_once lim (S f) d (int_repr n +:+ rest) = Ok (VInt n, rest).
Proof.
  intros Hlim Ht. pose proof (scan_number_int lim n rest Hlim Ht) as E.
  assert (exists c r, int_repr n +:+ rest = String c r /\ (code c = 45 \/ is_digit c = true))
    as (c & r & Er & Hc).
  { unfold int_repr. destruct (n <? 0) eqn:Hneg.
    - rewrite append_cons. eexists _, _. split; [reflexivity|]. left. reflexivity.
    - destruct (digits_head _ n (log2_fuel n ltac:(lia))) as (c & r & -> & Hd & _).
      rewrite append_cons. eexists _, _. split; [reflexivity|]. right. exact Hd. }
  rewrite Er in *. rewrite (scan_once_number lim f d c r _ Hc E). reflexivity.
Qed.

(** Induction on values, through lists and dictionaries. *)
Section pyval_induction.
Variable P : pyval -> Prop.
Hypothesis HNone : P VNone.
Hypothesis HBool : forall b, P (VBool b).
Hypothesis HInt : forall n, P (VInt n).
Hypothesis HStr : forall s, P (VStr s).
Hypothesis HList : forall l, Forall P l -> P (VList l).
Hypothesis HDict : forall d, Forall (fun kv => P (snd kv)) d -> P (VDict d).
Hypothesis HPlayer : forall r, P (VPlayer r).

Fixpoint pyval_induction (v : pyval) : P v :=
  match v with
  | VNone => HNone
  | VBool b => HBool b
  | VInt n => HInt n
  | VStr s => HStr s
  | VList l =>
      HList l ((fix go (l : list pyval) : Forall P l :=
                  match l with
                  | [] => @List.Forall_nil _ P
                  | x :: l' => @List.Forall_cons _ P x l' (pyval_induction x) (go l')
                  end) l)
  | VDict d =>
      HDict d ((fix go (d : list (pykey * pyval)) : Forall (fun kv => P (snd kv)) d :=
                  match d with
                  | [] => @List.Forall_nil _ (fun kv => P (snd kv))
                  | kv :: d' =>
                      @List.Forall_cons _ (fun kv => P (snd kv)) kv d' (pyval_induction (snd kv)) (go d')
                  end) d)
  | VPlayer r => HPlayer r
  end.
End pyval_induction.

Lemma int_repr_start n :
  exists c r, int_repr n = String c r /\ (code c = 45 \/ is_digit c = true).
Proof.
  unfold int_repr. destruct (n <? 0) eqn:Hneg.
  - eexists _, _. split; [reflexivity|]. left. reflexivity.
  - destruct (digits_head _ n (log2_fuel n ltac:(lia))) as (c & r & -> & Hd & _).
    eexists _, _. split; [reflexivity|]. right. exact Hd.
Qed.

Lemma digit_or_minus_start c :
  code c = 45 \/ is_digit c = true -> is_ws c = false /\ (code c =? 93) = false.
Proof.
  unfold is_digit, is_ws. intros [H|H]; split; lia.
Qed.

Lemma dumps_val_start v rest : jsonable v = true -> value_start (dumps_val v +:+ rest).
Proof.
  intros Hj. destruct v as [| [] | n | s | [|x l] | [|kv d] | r]; try discriminate Hj;
    try (eexists _, _; split; [reflexivity|split; reflexivity]).
  destruct (int_repr_start n) as (c & r & E & Hc).
  simpl dumps_val. rewrite E, append_cons.
  eexists _, _. split; [reflexivity|]. apply digit_or_minus_start, Hc.
Qed.

Lemma skip_ws_value s : value_start s -> skip_ws s = s.
Proof. intros (c & r & -> & Hw & _). simpl. rewrite Hw. reflexivity. Qed.

Lemma skip_ws_space s : skip_ws (String " " s) = skip_ws s.
Proof. reflexivity. Qed.

(** Unfolding of the decoder's loops. *)
Lemma scan_once_array lim f d r :
  scan_once lim (S f) (S d) (String "[" r)
  = match skip_ws r with
    | String c1 r1 =>
        if code c1 =? 93 then Ok (VList [], r1) else array_items lim f d (String c1 r1) []
    | EmptyString => Raise JSONDecodeError
    end.
Proof. reflexivity. Qed.

Lemma scan_once_object lim f d r :
  scan_once lim (S f) (S d) (String "{" r)
  = match skip_ws r with
    | String c1 r1 =>
        if code c1 =? 125 then Ok (VDict [], r1)
        else if code c1 =? 34 then object_items lim f d r1 []
        else Raise JSONDecodeError
    | EmptyString => Raise JSONDecodeError
    end.
Proof. reflexivity. Qed.

Lemma array_items_unfold lim f d s acc :
  array_items lim (S f) d s acc
  = rbind (scan_once lim f d s) (fun '(x, r) =>
      match skip_ws r with
      | String c r1 =>
          if code c =? 93 then Ok (VList (acc ++ [x]), r1)
          else if code c =? 44 then array_items lim f d (skip_ws r1) (acc ++ [x])
          else Raise JSONDecodeError
      | EmptyString => Raise JSONDecodeError
      end).
Proof. reflexivity. Qed.

Lemma object_items_unfold lim f d s acc :
  object_items lim (S f) d s acc
  = rbind (scanstring s EmptyString) (fun '(k, r) =>
      match skip_ws r with
      | String c r1 =>
          if code c =? 58 then
            rbind (scan_once lim f d (skip_ws r1)) (fun '(x, r2) =>
              match skip_ws r2 with
              | String c2 r3 =>
                  if code c2 =? 125 then Ok (VDict (dict_set acc (KStr k) x), r3)
                  else if code c2 =? 44 then
                    match skip_ws r3 with
                    | String c3 r4 =>
                        if code c3 =? 34 then object_items lim f d r4 (dict_set acc (KStr k) x)
                        else Raise JSONDecodeError
                    | EmptyString => Raise JSONDecodeError
                    end
                  else Raise JSONDecodeError
              | EmptyString => Raise JSONDecodeError
              end)
          else Raise JSONDecodeError
      | EmptyString => Raise JSONDecodeError
      end).
Proof. reflexivity. Qed.

Lemma items_terminated {A} close (f : A -> string) l rest :
  (close = "]" \/ close = "}") -> terminated (items_text close f l +:+ rest).
Proof.
  intros H. destruct l as [|y l']; [destruct H as [-> | ->]|]; split; reflexivity.
Qed.

Lemma array_items_text lim d l : forall x acc rest fuel,
  Forall (scans lim) (x :: l) ->
  forallb jsonable (x :: l) = true ->
  forallb (fun x => fits lim x d) (x :: l) = true ->
  (weight (x :: l) <= fuel)%nat ->
  array_items lim fuel d (dumps_val x +:+ items_text "]" dumps_val l +:+ rest) acc
  = Ok (VList (acc ++ map norm (x :: l)), rest).
Proof.
  induction l as [|y l IH]; intros x acc rest fuel Hs Hj Hfit Hw.
  - destruct fuel as [|g]; [unfold weight in Hw; simpl in Hw; lia|].
    rewrite array_items_unfold.
    apply Forall_cons in Hs as [Hx _]. simpl in Hj. apply andb_true_iff in Hj as [Hjx _].
    simpl in Hfit. apply andb_true_iff in Hfit as [Hfx _].
    rewrite Hx; [| exact Hjx | exact Hfx | unfold weight in Hw; simpl in Hw; lia
                 | first [split; reflexivity | apply items_terminated; left; reflexivity]].
    reflexivity.
  - destruct fuel as [|g]; [unfold weight in Hw; simpl in Hw; lia|].
    rewrite array_items_unfold.
    apply Forall_cons in Hs as [Hx Hs]. simpl in Hj. apply andb_true_iff in Hj as [Hjx Hj].
    simpl in Hfit. apply andb_true_iff in Hfit as [Hfx Hfit].
    rewrite Hx; [| exact Hjx | exact Hfx | unfold weight in Hw; simpl in Hw; lia
                 | first [split; reflexivity | apply items_terminated; left; reflexivity]].
    simpl items_text. rewrite !append_assoc. 
    change (", " +:+ ?s) with (String "," (String " " s)).
    cbv beta iota. simpl rbind.
    rewrite skip_ws_value
      by (apply dumps_val_start; simpl in Hj; apply andb_true_iff in Hj as [Hjy _]; exact Hjy).
    rewrite IH; [| exact Hs | exact Hj | exact Hfit | unfold weight in *; simpl in *; lia].
    rewrite <- app_assoc. reflexivity.
Qed.

Lemma dict_set_fresh (acc : pydict) k v :
  k ∉ map fst acc -> dict_set acc k v = acc ++ [(k, v)].
Proof.
  induction acc as [|[k' v'] acc IH]; intros Hk; [reflexivity|].
  simpl in *. apply not_elem_of_cons in Hk as [Hne Hk].
  destruct (decide (k' = k)) as [->|_]; [congruence|]. rewrite IH by exact Hk. reflexivity.
Qed.

Lemma dumps_key_text k : dumps_key k = encode_str (key_text k).
Proof. destruct k; reflexivity. Qed.

Lemma next_pair_text k y (items rest : string) :
  (", " +:+ (dumps_key k +:+ ": " +:+ dumps_val y) +:+ items) +:+ rest
  = String "," (String " " (String dquote
      (esc_string (key_text k) +:+ String dquote (": " +:+ dumps_val y +:+ items +:+ rest)))).
Proof.
  rewrite dumps_key_text. unfold encode_str.
  change (", " +:+ ?s) with (String "," (String " " s)).
  rewrite !append_cons. do 3 f_equal.
  rewrite !append_assoc. rewrite append_cons, append_nil. reflexivity.
Qed.

Lemma object_items_text lim dp d : forall k x acc rest fuel,
  Forall (fun kv => scans lim (snd kv)) ((k, x) :: d) ->
  forallb (fun kv => let '(_, x) := kv in jsonable x) ((k, x) :: d) = true ->
  forallb (fun kv => let '(_, x) := kv in fits lim x dp) ((k, x) :: d) = true ->
  NoDup (map (fun kv => key_text (fst kv)) ((k, x) :: d)) ->
  (forall t, t ∈ map (fun kv => key_text (fst kv)) ((k, x) :: d) -> KStr t ∉ map fst acc) ->
  (pweight ((k, x) :: d) <= fuel)%nat ->
  object_items lim fuel dp
    (esc_string (key_text k) +:+ String dquote
       (": " +:+ dumps_val x +:+ items_text "}" (pair_text dumps_val) d +:+ rest)) acc
  = Ok (VDict (acc ++ map (fun kv => let '(k, x) := kv in (KStr (key_text k), norm x))
                         ((k, x) :: d)), rest).
Proof.
  induction d as [|[k' y] d IH]; intros k x acc rest fuel Hs Hj Hfit Hnd Hfresh Hw.
  - destruct fuel as [|g]; [unfold pweight in Hw; simpl in Hw; lia|].
    rewrite object_items_unfold, scanstring_esc.
    apply Forall_cons in Hs as [Hx _]. simpl in Hj. apply andb_true_iff in Hj as [Hjx _].
    simpl in Hfit. apply andb_true_iff in Hfit as [Hfx _].
    simpl in Hx. rewrite append_nil. 
    change (": " +:+ ?s) with (String ":" (String " " s)).
    simpl rbind.
    rewrite skip_ws_value by (apply dumps_val_start; exact Hjx).
    rewrite Hx; [| exact Hjx | exact Hfx | unfold pweight in Hw; simpl in Hw; lia
                 | first [split; reflexivity | apply items_terminated; right; reflexivity]].
    simpl. rewrite dict_set_fresh; [reflexivity|].
    apply Hfresh. simpl. left.
  - destruct fuel as [|g]; [unfold pweight in Hw; simpl in Hw; lia|].
    rewrite object_items_unfold, scanstring_esc.
    apply Forall_cons in Hs as [Hx Hs]. simpl in Hj. apply andb_true_iff in Hj as [Hjx Hj].
    simpl in Hfit. apply andb_true_iff in Hfit as [Hfx Hfit].
    simpl in Hx. rewrite append_nil.
    change (": " +:+ ?s) with (String ":" (String " " s)).
    simpl rbind.
    rewrite skip_ws_value by (apply dumps_val_start; exact Hjx).
    rewrite Hx; [| exact Hjx | exact Hfx | unfold pweight in Hw; simpl in Hw; lia
                 | first [split; reflexivity | apply items_terminated; right; reflexivity]].
    simpl items_text. 
    rewrite next_pair_text. simpl rbind.
    rewrite IH; [| exact Hs | exact Hj | exact Hfit | | | unfold pweight in *; simpl in *; lia].
    + rewrite dict_set_fresh by (apply Hfresh; simpl; left).
      rewrite <- app_assoc. reflexivity.
    + apply NoDup_cons in Hnd as [_ Hnd]. exact Hnd.
    + intros t Ht. apply NoDup_cons in Hnd as [Hk Hnd].
      rewrite dict_set_fresh by (apply Hfresh; simpl; left).
      rewrite map_app. simpl. intros Hin. apply elem_of_app in Hin as [Hin|Hin].
      * revert Hin. apply Hfresh. simpl. right. exact Ht.
      * apply list_elem_of_singleton in Hin. injection Hin as ->. apply Hk. exact Ht.
Qed.

Lemma scans_all lim : forall v, scans lim v.
Proof.
  induction v as [| b | n | s | l IH | d IH | r] using pyval_induction;
    intros rest fuel dp Hj Hfit Hsz Ht.
  - destruct fuel; [simpl in Hsz; lia|]. reflexivity.
  - destruct fuel; [simpl in Hsz; lia|]. destruct b; reflexivity.
  - destruct fuel; [simpl in Hsz; lia|]. apply scan_int_value; [|exact Ht].
    simpl in Hfit. apply negb_true_iff in Hfit. exact Hfit.
  - destruct fuel; [simpl in Hsz; lia|]. apply scan_string_value.
  - destruct fuel as [|f]; [simpl in Hsz; lia|].
    destruct dp as [|dp]; [discriminate Hfit|]. cbn [fits] in Hfit.
    destruct l as [|x l]; [reflexivity|].
    simpl dumps_val. rewrite append_cons, scan_once_array.
    rewrite append_assoc.
    destruct (dumps_val_start x (items_text "]" dumps_val l +:+ rest)) as (c & r & E & Hw & Hc).
    { simpl in Hj. apply andb_true_iff in Hj as [Hjx _]. exact Hjx. }
    rewrite (skip_ws_value _ (ex_intro _ c (ex_intro _ r (conj E (conj Hw Hc))))).
    rewrite E, Hc, <- E.
    rewrite array_items_text; [reflexivity | exact IH | exact Hj | exact Hfit |].
    simpl in Hsz. unfold weight. simpl. lia.
  - destruct fuel as [|f]; [simpl in Hsz; lia|].
    destruct dp as [|dp]; [discriminate Hfit|]. cbn [fits] in Hfit.
    destruct d as [|[k x] d]; [reflexivity|].
    change (dumps_val (VDict ((k, x) :: d)))
      with (String "{" ((dumps_key k +:+ ": " +:+ dumps_val x)
                        +:+ items_text "}" (pair_text dumps_val) d)).
    rewrite append_cons, scan_once_object.
    rewrite dumps_key_text. unfold encode_str.
    rewrite !append_assoc, !append_cons, !append_assoc, !append_cons, !append_nil.
    simpl skip_ws. cbv iota beta.
    change (code dquote =? 125) with false. change (code dquote =? 34) with true.
    cbv iota.
    simpl in Hj. apply andb_true_iff in Hj as [Hj Hnd].
    apply bool_decide_eq_true in Hnd.
    apply object_items_text; [exact IH | | exact Hfit | exact Hnd | | ].
    + exact Hj.
    + intros t _. simpl. apply not_elem_of_nil.
    + simpl in Hsz. unfold pweight. simpl. lia.
  - discriminate Hj.
Qed.

(** The fuel of [json_loads] is enough for a text written by [dumps_val]. *)

Lemma items_length {A} close (f : A -> string) l :
  String.length (items_text close f l)
  = (String.length close + list_sum (map (fun y => 2 + String.length (f y)) l))%nat.
Proof.
  induction l as [|y l IH]; simpl; [lia|].
  rewrite !length_append, IH. simpl. lia.
Qed.

Lemma list_sum_map_cons {A} (f : A -> nat) x l :
  list_sum (map f (x :: l)) = (f x + list_sum (map f l))%nat.
Proof. reflexivity. Qed.

Lemma int_repr_length n : (1 <= String.length (int_repr n))%nat.
Proof. destruct (int_repr_start n) as (c & r & -> & _). simpl. lia. Qed.

Lemma size_le_length : forall v, jsonable v = true -> (size v <= String.length (dumps_val v))%nat.
Proof.
  induction v as [| b | n | s | l IH | d IH | r] using pyval_induction; intros Hj.
  - simpl. lia.
  - destruct b; simpl; lia.
  - simpl. apply int_repr_length.
  - simpl. lia.
  - destruct l as [|x l]; [simpl; lia|].
    simpl in Hj. apply andb_true_iff in Hj as [Hjx Hj].
    apply Forall_cons in IH as [Hx IH].
    simpl dumps_val. simpl String.length. rewrite length_append, items_length.
    simpl size. specialize (Hx Hjx).
    assert (list_sum (map (fun x => S (size x)) l)
            <= list_sum (map (fun y => S (S (String.length (dumps_val y)))) l))%nat.
    { clear -IH Hj. induction l as [|y l IHl]; [simpl; lia|].
      rewrite !list_sum_map_cons. simpl in Hj. apply andb_true_iff in Hj as [Hjy Hj].
      apply Forall_cons in IH as [Hy IH]. specialize (Hy Hjy). specialize (IHl IH Hj). lia. }
    simpl. lia.
  - destruct d as [|[k x] d]; [simpl; lia|].
    simpl in Hj. apply andb_true_iff in Hj as [Hj _]. apply andb_true_iff in Hj as [Hjx Hj].
    apply Forall_cons in IH as [Hx IH]. simpl in Hx.
    change (dumps_val (VDict ((k, x) :: d)))
      with (String "{" ((dumps_key k +:+ ": " +:+ dumps_val x)
                        +:+ items_text "}" (pair_text dumps_val) d)).
    simpl String.length. rewrite !length_append, items_length.
    simpl size. specialize (Hx Hjx).
    assert (list_sum (map (fun kv => let '(_, x) := kv in S (size x)) d)
            <= list_sum (map (fun y => S (S (String.length (pair_text dumps_val y)))) d))%nat.
    { clear -IH Hj. induction d as [|[k y] d IHd]; [simpl; lia|].
      rewrite !list_sum_map_cons. simpl in Hj. apply andb_true_iff in Hj as [Hjy Hj].
      apply Forall_cons in IH as [Hy IH]. specialize (Hy Hjy). specialize (IHd IH Hj).
      change (pair_text dumps_val (k, y)) with (dumps_key k +:+ ": " +:+ dumps_val y).
      rewrite !length_append. simpl in Hy. lia. }
    simpl. lia.
  - discriminate Hj.
Qed.

Theorem loads_dumps lim v :
  jsonable v = true -> readable lim v = true ->
  json_loads lim (dumps_val v) = Ok (norm v).
Proof.
  intros Hj Hfit. unfold json_loads.
  pose proof (dumps_val_start v EmptyString Hj) as Hs. rewrite append_nil_r in Hs.
  rewrite (skip_ws_value _ Hs).
  pose proof (scans_all lim v EmptyString (2 * String.length (dumps_val v) + 2)%nat
                (S (loads_spare lim)) Hj Hfit) as H.
  rewrite append_nil_r in H. rewrite H; [reflexivity| |split; reflexivity].
  pose proof (size_le_length v Hj). lia.
Qed.

(** Bytes *)

Lemma decode_utf8_char c b :
  decode_utf8 (utf8_char c ++ b) = rbind (decode_utf8 b) (fun s => Ok (String c s)).
Proof. destruct c as [[] [] [] [] [] [] [] []]; reflexivity. Qed.

Lemma decode_encode_utf8 s : decode_utf8 (encode_utf8 s) = Ok s.
Proof.
  induction s as [|c s IH]; [reflexivity|].
  simpl encode_utf8. rewrite decode_utf8_char, IH. reflexivity.
Qed.

Lemma ascii_text_append a b : ascii_text (a +:+ b) = ascii_text a && ascii_text b.
Proof.
  induction a as [|c a IH]; [reflexivity|].
  rewrite append_cons. simpl. rewrite IH, andb_assoc. reflexivity.
Qed.

Lemma ascii_text_length s : ascii_text s = true -> length (encode_utf8 s) = String.length s.
Proof.
  induction s as [|c s IH]; [reflexivity|]. simpl. intros H.
  apply andb_true_iff in H as [Hc Hs]. unfold utf8_char. rewrite Hc. simpl.
  rewrite IH by exact Hs. reflexivity.
Qed.

Lemma ascii_esc_char c : ascii_text (esc_char c) = true.
Proof. destruct c as [[] [] [] [] [] [] [] []]; reflexivity. Qed.

Lemma ascii_esc_string s : ascii_text (esc_string s) = true.
Proof.
  induction s as [|c s IH]; [reflexivity|].
  simpl esc_string. rewrite ascii_text_append, ascii_esc_char, IH. reflexivity.
Qed.

Lemma ascii_encode_str s : ascii_text (encode_str s) = true.
Proof.
  unfold encode_str. simpl. rewrite ascii_text_append, ascii_esc_string. reflexivity.
Qed.

Lemma ascii_digits f : forall n, 0 <= n -> ascii_text (digits f n) = true.
Proof.
  induction f as [|f IH]; intros n Hn; [reflexivity|].
  simpl digits. destruct (n <? 10) eqn:Hlt.
  - destruct (digit_char n) as [_ Hc]; [lia|]. simpl. rewrite Hc.
    rewrite andb_true_r. lia.
  - rewrite ascii_text_append, IH by (apply Z.div_pos; lia).
    destruct (digit_char (n mod 10)) as [_ Hc]; [apply Z.mod_pos_bound; lia|].
    simpl. rewrite Hc, andb_true_r. pose proof (Z.mod_pos_bound n 10). lia.
Qed.

Lemma ascii_int_repr n : ascii_text (int_repr n) = true.
Proof.
  unfold int_repr. destruct (n <? 0) eqn:H.
  - exact (ascii_digits _ (- n) ltac:(lia)).
  - apply ascii_digits. lia.
Qed.

Lemma ascii_dumps_key k : ascii_text (dumps_key k) = true.
Proof. rewrite dumps_key_text. apply ascii_encode_str. Qed.

Lemma ascii_items {A} close (f : A -> string) l :
  ascii_text close = true -> Forall (fun y => ascii_text (f y) = true) l ->
  ascii_text (items_text close f l) = true.
Proof.
  intros Hc. induction 1 as [|y l Hy Hl IH]; [exact Hc|].
  simpl items_text. rewrite !ascii_text_append, Hy, IH. reflexivity.
Qed.

Lemma ascii_dumps_val : forall v, ascii_text (dumps_val v) = true.
Proof.
  induction v as [| b | n | s | l IH | d IH | r] using pyval_induction.
  - reflexivity.
  - destruct b; reflexivity.
  - apply ascii_int_repr.
  - apply ascii_encode_str.
  - destruct l as [|x l]; [reflexivity|].
    apply Forall_cons in IH as [Hx IH].
    simpl dumps_val. simpl ascii_text. rewrite ascii_text_append, Hx.
    rewrite ascii_items; [reflexivity|reflexivity|exact IH].
  - destruct d as [|[k x] d]; [reflexivity|].
    apply Forall_cons in IH as [Hx IH]. simpl in Hx.
    change (dumps_val (VDict ((k, x) :: d)))
      with (String "{" ((dumps_key k +:+ ": " +:+ dumps_val x)
                        +:+ items_text "}" (pair_text dumps_val) d)).
    simpl ascii_text. rewrite !ascii_text_append, ascii_dumps_key, Hx.
    rewrite ascii_items; [reflexivity|reflexivity|].
    eapply Forall_impl; [exact IH|]. intros [k' y] Hy. simpl in Hy.
    unfold pair_text. rewrite !ascii_text_append, ascii_dumps_key, Hy. reflexivity.
  - reflexivity.
Qed.

Lemma detect_utf8_object kv d :
  detect_utf8 (encode_utf8 (dumps_val (VDict (kv :: d)))) = true.
Proof.
  destruct kv as [k x].
  change (dumps_val (VDict ((k, x) :: d)))
    with (String "{" ((dumps_key k +:+ ": " +:+ dumps_val x)
                      +:+ items_text "}" (pair_text dumps_val) d)).
  rewrite dumps_key_text. unfold encode_str. rewrite !append_cons.
  simpl encode_utf8.
  match goal with |- detect_utf8 (_ :: _ :: ?b) = true => destruct b as [|z [|w b']] end;
    reflexivity.
Qed.



Lemma Z_of_byte_of_Z m : 0 <= m < 256 -> Z_of_byte (byte_of_Z m) = m.
Proof.
  intros H. unfold Z_of_byte, byte_of_Z, code, chr.
  rewrite ascii_of_byte_of_ascii, N_ascii_embedding by lia. lia.
Qed.

Lemma le_value_le_bytes n :
  -2147483648 <= n <= 2147483647 ->
  match le_bytes n with
  | [b0; b1; b2; b3] => le_value b0 b1 b2 b3 = n
  | _ => False
  end.
Proof.
  intros H. unfold le_bytes, le_value.
  change 255 with (Z.ones 8). rewrite !Z.land_ones by lia.
  rewrite !Z.shiftr_div_pow2 by lia.
  rewrite !Z_of_byte_of_Z by (apply Z.mod_pos_bound; lia).
  change (2 ^ 8) with 256. change (2 ^ 16) with 65536. change (2 ^ 24) with 16777216.
  destruct (_ <? 2147483648) eqn:E; [apply Z.ltb_lt in E|apply Z.ltb_ge in E];
    Z.div_mod_to_equations; lia.
Qed.

Lemma unpack_pack order n b :
  struct_pack_i order n = Ok b ->
  length b = 4%nat /\ struct_unpack_i order b = Ok n.
Proof.
  unfold struct_pack_i. destruct (_ && _) eqn:Hr; [|discriminate].
  apply andb_true_iff in Hr as [H1 H2].
  pose proof (le_value_le_bytes n ltac:(lia)) as Hv.
  intros [= <-]. destruct order; unfold le_bytes in *; simpl; (split; [reflexivity|]);
    f_equal; exact Hv.
Qed.


Lemma norm_string_keyed : forall v, string_keyed v = true -> norm v = v.
Proof.
  induction v as [| b | n | s | l IH | d IH | r] using pyval_induction; intros Hk;
    try reflexivity.
  - simpl in *. f_equal. induction l as [|x l IHl]; [reflexivity|].
    simpl in Hk. apply andb_true_iff in Hk as [Hx Hk].
    apply Forall_cons in IH as [Hx' IH]. simpl. rewrite Hx' by exact Hx.
    rewrite IHl by assumption. reflexivity.
  - simpl in *. f_equal. induction d as [|[k x] d IHd]; [reflexivity|].
    simpl in Hk. apply andb_true_iff in Hk as [Hx Hk].
    apply Forall_cons in IH as [Hx' IH]. simpl in *.
    destruct k as [s|n]; [|discriminate]. rewrite Hx' by exact Hx.
    rewrite IHd by assumption. reflexivity.
Qed.

Lemma loads_bytes_dumps lim kv d :
  jsonable (VDict (kv :: d)) = true ->
  readable lim (VDict (kv :: d)) = true ->
  json_loads_bytes lim (encode_utf8 (dumps_val (VDict (kv :: d)))) = Ok (norm (VDict (kv :: d))).
Proof.
  intros Hj Hfit. unfold json_loads_bytes.
  rewrite detect_utf8_object, decode_encode_utf8.
  exact (loads_dumps lim _ Hj Hfit).
Qed.

(** Integers below [2 ^ 64] in absolute value are within every digit
    limit: the limit is not applied up to 640 digits. *)
Lemma digits_length f : forall n, (String.length (digits f n) <= f)%nat.
Proof.
  induction f as [|f IH]; intros n; [reflexivity|].
  simpl digits. destruct (n <? 10); [simpl; lia|].
  rewrite length_append. specialize (IH (n / 10)). simpl. lia.
Qed.

Lemma int_digits_le n : (int_digits n <= S (Z.to_nat (Z.log2 (Z.abs n))))%nat.
Proof.
  unfold int_digits, int_repr.
  destruct (Z.ltb_spec (Z.abs n) 0) as [E|E]; [lia|]. apply digits_length.
Qed.

Lemma few_digits lim k : (k <= 640)%nat -> too_many_digits lim k = false.
Proof.
  intros Hk. unfold too_many_digits.
  destruct (Z.ltb_spec 640 (Z.of_nat k)) as [E|E]; [lia|].
  rewrite andb_false_r. reflexivity.
Qed.

Lemma int_fits lim n d : Z.abs n < 2 ^ 64 -> fits lim (VInt n) d = true.
Proof.
  intros Hn. cbn [fits]. apply negb_true_iff, few_digits.
  pose proof (int_digits_le n) as Hle.
  assert (Z.log2 (Z.abs n) < 64).
  { destruct (Z.eq_dec (Z.abs n) 0) as [->|Hne]; [reflexivity|].
    apply Z.log2_lt_pow2; lia. }
  pose proof (Z.log2_nonneg (Z.abs n)). lia.
Qed.

Lemma rbind_ok {A B} (a : A) (k : A -> result B) : rbind (Ok a) k = k a.
Proof. reflexivity. Qed.


(** * The handler: damage, game over, ready *)

Lemma owned_by_spec planet p :
  owned_by planet p = bool_decide (Planet.owner planet = Some (Player.id p)).
Proof.
  unfold owned_by. destruct (Planet.owner planet) as [o|].
  - destruct (Z.eqb_spec o (Player.id p)) as [->|Hne].
    + rewrite bool_decide_eq_true_2; reflexivity.
    + rewrite bool_decide_eq_false_2; [reflexivity|congruence].
  - rewrite bool_decide_eq_false_2; [reflexivity|discriminate].
Qed.

Lemma alter_lookup_insert {A} (f : A -> A) (m : gmap Z A) k x :
  m !! k = Some x -> alter f k m = <[k := f x]> m.
Proof.
  intros H. apply map_eq. intros j. destruct (decide (k = j)) as [->|Hne].
  - rewrite lookup_alter_eq, lookup_insert_eq, H. reflexivity.
  - rewrite lookup_alter_ne, lookup_insert_ne by exact Hne. reflexivity.
Qed.

Lemma list_remove_elem_of {A} `{EqDecision A} (x : A) l ids :
  list_remove x l = Some ids -> x ∈ l.
Proof.
  revert ids. induction l as [|y l IH]; intros ids; simpl; [discriminate|].
  destruct (decide (y = x)) as [->|Hne]; [intros _; left|].
  destruct (list_remove x l) eqn:E; [|discriminate]. intros _. right. eapply IH. reflexivity.
Qed.

Lemma elem_of_list_remove {A} `{EqDecision A} (x : A) l :
  x ∈ l -> is_Some (list_remove x l).
Proof.
  induction l as [|y l IH]; intros H; [inversion H|]. simpl.
  destruct (decide (y = x)) as [->|Hne]; [eexists; reflexivity|].
  apply elem_of_cons in H as [->|H]; [congruence|].
  destruct (IH H) as [ids ->]. eexists. reflexivity.
Qed.

Section GameOverScan.
#[local] Arguments Nat.leb : simpl never.



End GameOverScan.

Section Damage.
Variable env : collaborators.

Lemma handle_damage_event s event player :
  name event = VStr EventName.DAMAGE ->
  dict_get (payload event) (KStr "player") = Some player ->
  handle env event s
  = if game_started s then handle_damage env event player s else (s, Ok tt).
Proof.
  intros Hn Hp. unfold handle, bind, lift, dict_item, gets, ret.
  rewrite Hp, Hn. simpl. destruct (game_started s); reflexivity.
Qed.

Lemma apply_damage_accepted s event r p planet planet_id unit_id hp_count x u ids :
  dict_get (payload event) (KStr "planet_id") = Some x -> py_int env x = Ok planet_id ->
  dict_get (payload event) (KStr "unit_id") = Some u -> py_int env u = Ok unit_id ->
  py_int env (default (VInt 1) (dict_get (payload event) (KStr "hp_count"))) = Ok hp_count ->
  heap s !! r = Some p ->
  Planet_cache s !! planet_id = Some planet ->
  list_remove unit_id (Player.object_ids p) = Some ids ->
  apply_damage env event (VPlayer r) s
  = (with_sender_queue
       (sender_queue s ++
          [damage_notice event planet_id unit_id (damaged planet (Player.id p) hp_count)])
       (with_heap (<[r := Player.with_object_ids ids p]> (heap s))
          (with_Planet_cache
             (<[planet_id := damaged planet (Player.id p) hp_count]> (Planet_cache s)) s)),
     Ok tt).
Proof.
  intros Hx Hpx Hu Hpu Hhp Hr Hc Hrm.
  unfold apply_damage, bind, lift, dict_item, cache_item, as_player, ret, get_player.
  rewrite Hx. simpl. rewrite Hpx, Hu. simpl. rewrite Hpu, Hhp, Hc, Hr. simpl.
  unfold mem. rewrite bool_decide_eq_true_2 by (eapply list_remove_elem_of, Hrm).
  rewrite owned_by_spec. unfold damaged, update_planet, update_player, notify, modify.
  destruct (decide (Planet.owner planet = Some (Player.id p))) as [Ho|Ho].
  - rewrite bool_decide_eq_true_2 by exact Ho. simpl. rewrite Hrm. simpl. rewrite Hr.
    simpl. rewrite lookup_alter_eq, Hc. simpl.
    rewrite (alter_lookup_insert _ _ _ _ Hc). reflexivity.
  - rewrite bool_decide_eq_false_2 by exact Ho. simpl.
    rewrite lookup_alter_eq, Hc. simpl.
    destruct (Planet.units_count planet - hp_count <? 0) eqn:Hneg; simpl;
      rewrite Hrm; simpl; rewrite Hr; simpl.
    + rewrite !lookup_alter_eq, Hc. simpl.
      rewrite (alter_lookup_insert _ _ _ _ Hc), !alter_insert_eq. reflexivity.
    + rewrite !lookup_alter_eq, Hc. simpl.
      rewrite (alter_lookup_insert _ _ _ _ Hc). reflexivity.
Qed.

Lemma check_game_over_frame s :
  heap (fst (check_game_over s)) = heap s
  /\ Planet_cache (fst (check_game_over s)) = Planet_cache s
  /\ generated (fst (check_game_over s)) = generated s.
Proof.
  unfold check_game_over, bind, player_values, gets, lift, notify, modify.
  destruct (mapM _ _) as [ps|]; simpl; [|auto].
  destruct (scan_players _ _ _) as [active [|]]; simpl; [auto|].
  destruct (head active); simpl; auto.
Qed.

Lemma NoDup_list_remove (x : Z) l ids :
  NoDup l -> list_remove x l = Some ids -> x ∉ ids.
Proof.
  revert ids. induction l as [|y l IH]; intros ids Hnd; simpl; [discriminate|].
  apply NoDup_cons in Hnd as [Hy Hnd].
  destruct (decide (y = x)) as [->|Hne]; [intros [= <-]; exact Hy|].
  destruct (list_remove x l) as [ids'|] eqn:E; [|discriminate].
  intros [= <-]. intros Hin. apply elem_of_cons in Hin as [->|Hin]; [congruence|].
  exact (IH _ Hnd eq_refl Hin).
Qed.

(** Claim C1, amended.  For a damage event handled while [game_started]
    is true (the damage branch is under that test: a damage handled before
    the start or after a game over changes nothing), whose unit id is among
    the sender's [object_ids], whose planet has another owner (or none) and
    whose amount is above the planet's [units_count]: after [handle] the
    planet belongs to the sender and its [units_count] is the absolute
    value of the deficit (2 for an amount of 7 against 5 units), and the
    unit id has been removed from the sender's [object_ids]. *)
Theorem damage_captures_planet s event r p planet planet_id unit_id hp_count x u :
  game_started s = true ->
  name event = VStr EventName.DAMAGE ->
  dict_get (payload event) (KStr "player") = Some (VPlayer r) ->
  dict_get (payload event) (KStr "planet_id") = Some x -> py_int env x = Ok planet_id ->
  dict_get (payload event) (KStr "unit_id") = Some u -> py_int env u = Ok unit_id ->
  py_int env (default (VInt 1) (dict_get (payload event) (KStr "hp_count"))) = Ok hp_count ->
  heap s !! r = Some p ->
  Planet_cache s !! planet_id = Some planet ->
  unit_id ∈ Player.object_ids p ->
  Planet.owner planet <> Some (Player.id p) ->
  Planet.units_count planet < hp_count ->
  let s' := (fst (handle env event s)) in
  Planet_cache s' !! planet_id
  = Some (Planet.mk (Some (Player.id p)) (Z.abs (hp_count - Planet.units_count planet)))
  /\ (hp_count = 7 -> Planet.units_count planet = 5 ->
      Planet_cache s' !! planet_id = Some (Planet.mk (Some (Player.id p)) 2))
  /\ exists ids,
      list_remove unit_id (Player.object_ids p) = Some ids
      /\ heap s' !! r = Some (Player.with_object_ids ids p)
      /\ (NoDup (Player.object_ids p) -> unit_id ∉ ids).
Proof.
  intros Hgs Hn Hpl Hx Hpx Hu Hpu Hhp Hr Hc Hin Hown Hlt s'.
  destruct (elem_of_list_remove _ _ Hin) as [ids Hrm].
  assert (Hs' : Planet_cache s' !! planet_id
                = Some (damaged planet (Player.id p) hp_count)
                /\ heap s' !! r = Some (Player.with_object_ids ids p)).
  { subst s'. rewrite (handle_damage_event _ _ _ Hn Hpl), Hgs.
    unfold handle_damage, bind.
    rewrite (apply_damage_accepted _ _ _ _ _ _ _ _ _ _ _ Hx Hpx Hu Hpu Hhp Hr Hc Hrm).
    match goal with |- context [check_game_over ?t] =>
      destruct (check_game_over_frame t) as (Hh & Hp & _);
      destruct (check_game_over t) as [t' [[]|e]] end;
      simpl in *; rewrite Hh, Hp; simpl; rewrite lookup_insert_eq;
      (split; [reflexivity|]); apply list_lookup_insert_eq;
      apply lookup_lt_Some in Hr; exact Hr. }
  destruct Hs' as [Hcache Hheap].
  assert (Hd : damaged planet (Player.id p) hp_count
               = Planet.mk (Some (Player.id p)) (Z.abs (hp_count - Planet.units_count planet))).
  { unfold damaged. rewrite decide_False by exact Hown.
    assert (Hneg : (Planet.units_count planet - hp_count <? 0) = true) by lia.
    rewrite Hneg. f_equal. lia. }
  rewrite Hd in Hcache. split; [exact Hcache|]. split.
  - intros -> H5. rewrite Hcache, H5. reflexivity.
  - exists ids. split; [exact Hrm|]. split; [exact Hheap|].
    intros Hnd. eapply NoDup_list_remove; eassumption.
Qed.


Lemma dict_get_set_eq (d : pydict) k v : dict_get (dict_set d k v) k = Some v.
Proof.
  induction d as [|[k' v'] d IH]; simpl.
  - rewrite decide_True by reflexivity. reflexivity.
  - destruct (decide (k' = k)) as [->|Hne]; simpl.
    + rewrite decide_True by reflexivity. reflexivity.
    + rewrite decide_False by exact Hne. exact IH.
Qed.

Lemma dict_get_set_ne (d : pydict) k k' v :
  k <> k' -> dict_get (dict_set d k v) k' = dict_get d k'.
Proof.
  intros Hne. induction d as [|[k0 v0] d IH]; simpl.
  - rewrite decide_False by exact Hne. reflexivity.
  - destruct (decide (k0 = k)) as [->|Hne0]; simpl.
    + rewrite !decide_False by exact Hne. reflexivity.
    + destruct (decide (k0 = k')); [reflexivity|exact IH].
Qed.

Lemma apply_damage_ext e1 e2 player s :
  name e1 = name e2 ->
  dict_get (payload e1) (KStr "planet_id") = dict_get (payload e2) (KStr "planet_id") ->
  dict_get (payload e1) (KStr "unit_id") = dict_get (payload e2) (KStr "unit_id") ->
  default (VInt 1) (dict_get (payload e1) (KStr "hp_count"))
  = default (VInt 1) (dict_get (payload e2) (KStr "hp_count")) ->
  apply_damage env e1 player s = apply_damage env e2 player s.
Proof.
  intros H1 H2 H3 H4. unfold apply_damage, dict_item. rewrite H1, H2, H3, H4. reflexivity.
Qed.

Lemma damaged_own planet pid hp :
  Planet.owner planet = Some pid ->
  damaged planet pid hp = Planet.mk (Planet.owner planet) (Planet.units_count planet + hp).
Proof. intros H. unfold damaged. rewrite decide_True by exact H. reflexivity. Qed.

Lemma damaged_foreign planet pid hp :
  Planet.owner planet <> Some pid -> hp <= Planet.units_count planet ->
  damaged planet pid hp = Planet.mk (Planet.owner planet) (Planet.units_count planet - hp).
Proof.
  intros H Hle. unfold damaged. rewrite decide_False by exact H.
  destruct (_ <? 0) eqn:E; [lia|reflexivity].
Qed.

Lemma damaged_capture planet pid hp :
  Planet.owner planet <> Some pid -> Planet.units_count planet < hp ->
  damaged planet pid hp = Planet.mk (Some pid) (hp - Planet.units_count planet).
Proof.
  intros H Hlt. unfold damaged. rewrite decide_False by exact H.
  destruct (_ <? 0) eqn:E; [f_equal; lia|lia].
Qed.

Lemma handle_damage_cache s event r p planet planet_id unit_id hp_count x u :
  game_started s = true ->
  name event = VStr EventName.DAMAGE ->
  dict_get (payload event) (KStr "player") = Some (VPlayer r) ->
  dict_get (payload event) (KStr "planet_id") = Some x -> py_int env x = Ok planet_id ->
  dict_get (payload event) (KStr "unit_id") = Some u -> py_int env u = Ok unit_id ->
  py_int env (default (VInt 1) (dict_get (payload event) (KStr "hp_count"))) = Ok hp_count ->
  heap s !! r = Some p ->
  Planet_cache s !! planet_id = Some planet ->
  unit_id ∈ Player.object_ids p ->
  Planet_cache (fst (handle env event s)) !! planet_id
  = Some (damaged planet (Player.id p) hp_count)
  /\ exists ids, list_remove unit_id (Player.object_ids p) = Some ids
                 /\ heap (fst (handle env event s)) !! r = Some (Player.with_object_ids ids p).
Proof.
  intros Hgs Hn Hpl Hx Hpx Hu Hpu Hhp Hr Hc Hin.
  destruct (elem_of_list_remove _ _ Hin) as [ids Hrm].
  rewrite (handle_damage_event _ _ _ Hn Hpl), Hgs.
  unfold handle_damage, bind.
  rewrite (apply_damage_accepted _ _ _ _ _ _ _ _ _ _ _ Hx Hpx Hu Hpu Hhp Hr Hc Hrm).
  match goal with |- context [check_game_over ?t] =>
    destruct (check_game_over_frame t) as (Hh & Hp & _);
    destruct (check_game_over t) as [t' [[]|e]] end;
    simpl in *; rewrite Hh, Hp; simpl; rewrite lookup_insert_eq;
    (split; [reflexivity|]); exists ids; (split; [exact Hrm|]);
    apply list_lookup_insert_eq; apply lookup_lt_Some in Hr; exact Hr.
Qed.

(** Claim C9, amended.  A damage event without [hp_count] is handled as
    the same event with [hp_count] 1.  When the unit is the sender's, the
    planet becomes [damaged planet id 1]: its [units_count] goes up by 1 on
    the sender's own planet, down by 1 on another planet that has at least
    1 unit, and on another planet with less than 1 unit the sender takes
    the planet with [1 - units_count] units. *)
Theorem damage_without_hp_count s event :
  name event = VStr EventName.DAMAGE ->
  dict_get (payload event) (KStr "hp_count") = None ->
  handle env event s
  = handle env (mkEvent (name event) (dict_set (payload event) (KStr "hp_count") (VInt 1))) s
  /\ forall r p planet planet_id unit_id x u,
      game_started s = true ->
      dict_get (payload event) (KStr "player") = Some (VPlayer r) ->
      dict_get (payload event) (KStr "planet_id") = Some x -> py_int env x = Ok planet_id ->
      dict_get (payload event) (KStr "unit_id") = Some u -> py_int env u = Ok unit_id ->
      heap s !! r = Some p ->
      Planet_cache s !! planet_id = Some planet ->
      unit_id ∈ Player.object_ids p ->
      Planet_cache (fst (handle env event s)) !! planet_id
      = Some (damaged planet (Player.id p) 1)
      /\ (Planet.owner planet = Some (Player.id p) ->
          damaged planet (Player.id p) 1
          = Planet.mk (Planet.owner planet) (Planet.units_count planet + 1))
      /\ (Planet.owner planet <> Some (Player.id p) -> 1 <= Planet.units_count planet ->
          damaged planet (Player.id p) 1
          = Planet.mk (Planet.owner planet) (Planet.units_count planet - 1))
      /\ (Planet.owner planet <> Some (Player.id p) -> Planet.units_count planet < 1 ->
          damaged planet (Player.id p) 1
          = Planet.mk (Some (Player.id p)) (1 - Planet.units_count planet)).
Proof.
  intros Hn Hhp. split.
  - set (event' := mkEvent _ _).
    assert (Hext : forall player, apply_damage env event player s
                                  = apply_damage env event' player s).
    { intros player. apply apply_damage_ext; subst event'; simpl.
      - reflexivity.
      - rewrite dict_get_set_ne by discriminate. reflexivity.
      - rewrite dict_get_set_ne by discriminate. reflexivity.
      - rewrite dict_get_set_eq, Hhp. reflexivity. }
    destruct (dict_get (payload event) (KStr "player")) as [player|] eqn:Hpl.
    + rewrite (handle_damage_event s event player Hn Hpl).
      rewrite (handle_damage_event s event' player Hn).
      2:{ subst event'. simpl. rewrite dict_get_set_ne by discriminate. exact Hpl. }
      unfold handle_damage, bind. rewrite Hext. reflexivity.
    + unfold handle, bind, lift, dict_item. subst event'. simpl.
      rewrite dict_get_set_ne by discriminate. rewrite Hpl. reflexivity.
  - intros r p planet planet_id unit_id x u Hgs Hpl Hx Hpx Hu Hpu Hr Hc Hin.
    split; [|split; [|split]].
    + eapply handle_damage_cache; try eassumption. rewrite Hhp. reflexivity.
    + apply damaged_own.
    + intros. apply damaged_foreign; assumption.
    + intros. apply damaged_capture; assumption.
Qed.

(** Whatever the outcome of a damage, the cache is untouched or one planet
    has become [damaged]. *)
Lemma apply_damage_cache event player s :
  Planet_cache (fst (apply_damage env event player s)) = Planet_cache s
  \/ exists r p planet planet_id hp_count,
       player = VPlayer r /\ heap s !! r = Some p
       /\ Planet_cache s !! planet_id = Some planet
       /\ py_int env (default (VInt 1) (dict_get (payload event) (KStr "hp_count")))
          = Ok hp_count
       /\ Planet_cache (fst (apply_damage env event player s))
          = <[planet_id := damaged planet (Player.id p) hp_count]> (Planet_cache s).
Proof.
  destruct (dict_get (payload event) (KStr "planet_id")) as [x|] eqn:Hx.
  2:{ left. unfold apply_damage, bind, lift, dict_item. rewrite Hx. reflexivity. }
  destruct (py_int env x) as [planet_id|e] eqn:Hpx.
  2:{ left. unfold apply_damage, bind, lift, dict_item. rewrite Hx. simpl.
      rewrite Hpx. reflexivity. }
  destruct (dict_get (payload event) (KStr "unit_id")) as [u|] eqn:Hu.
  2:{ left. unfold apply_damage, bind, lift, dict_item. rewrite Hx. simpl.
      rewrite Hpx, Hu. reflexivity. }
  destruct (py_int env u) as [unit_id|e] eqn:Hpu.
  2:{ left. unfold apply_damage, bind, lift, dict_item. rewrite Hx. simpl.
      rewrite Hpx, Hu. simpl. rewrite Hpu. reflexivity. }
  destruct (py_int env (default (VInt 1) (dict_get (payload event) (KStr "hp_count"))))
    as [hp_count|e] eqn:Hhp.
  2:{ left. unfold apply_damage, bind, lift, dict_item. rewrite Hx. simpl.
      rewrite Hpx, Hu. simpl. rewrite Hpu, Hhp. reflexivity. }
  destruct (Planet_cache s !! planet_id) as [planet|] eqn:Hc.
  2:{ left. unfold apply_damage, bind, lift, dict_item, cache_item. rewrite Hx. simpl.
      rewrite Hpx, Hu. simpl. rewrite Hpu, Hhp, Hc. reflexivity. }
  destruct player as [| | | | | |r];
    try (left; unfold apply_damage, bind, lift, dict_item, cache_item, as_player, raise;
         rewrite Hx; simpl; rewrite Hpx, Hu; simpl; rewrite Hpu, Hhp, Hc; reflexivity).
  destruct (heap s !! r) as [p|] eqn:Hr.
  2:{ left. unfold apply_damage, bind, lift, dict_item, cache_item, as_player, ret,
        get_player. rewrite Hx. simpl. rewrite Hpx, Hu. simpl.
      rewrite Hpu, Hhp, Hc, Hr. reflexivity. }
  destruct (decide (unit_id ∈ Player.object_ids p)) as [Hin|Hin].
  - destruct (elem_of_list_remove _ _ Hin) as [ids Hrm].
    right. exists r, p, planet, planet_id, hp_count.
    rewrite (apply_damage_accepted _ _ _ _ _ _ _ _ _ _ _ Hx Hpx Hu Hpu Hhp Hr Hc Hrm).
    auto 10.
  - left. unfold apply_damage, bind, lift, dict_item, cache_item, as_player, ret,
      get_player. rewrite Hx. simpl. rewrite Hpx, Hu. simpl.
    rewrite Hpu, Hhp, Hc, Hr. simpl. unfold mem.
    rewrite bool_decide_eq_false_2 by exact Hin. reflexivity.
Qed.

Lemma handle_damage_event_cache s event :
  name event = VStr EventName.DAMAGE ->
  Planet_cache (fst (handle env event s)) = Planet_cache s
  \/ exists player, Planet_cache (fst (handle env event s))
                    = Planet_cache (fst (apply_damage env event player s)).
Proof.
  intros Hn. destruct (dict_get (payload event) (KStr "player")) as [player|] eqn:Hpl.
  - rewrite (handle_damage_event s event player Hn Hpl).
    destruct (game_started s); [|left; reflexivity].
    right. exists player. unfold handle_damage, bind.
    destruct (apply_damage env event player s) as [s1 [[]|e]]; simpl; [|reflexivity].
    apply check_game_over_frame.
  - left. unfold handle, bind, lift, dict_item. rewrite Hpl. reflexivity.
Qed.

Lemma damaged_nonneg planet pid hp :
  0 <= Planet.units_count planet -> 0 <= hp ->
  0 <= Planet.units_count (damaged planet pid hp).
Proof.
  intros Hu Hhp. unfold damaged. destruct (decide _); simpl; [lia|].
  destruct (_ <? 0) eqn:E; simpl; lia.
Qed.

Lemma select_planet_owned s r p planet planet_id v percentage pct count punits :
  py_int env v = Ok planet_id ->
  Planet_cache s !! planet_id = Some planet ->
  heap s !! r = Some p ->
  Planet.owner planet = Some (Player.id p) ->
  py_int env percentage = Ok pct ->
  round_div_100 (Planet.units_count planet * pct) = Ok count ->
  let ids := map (ID_GENERATOR env) (seq (generated s) (Z.to_nat count)) in
  select_planet env (VPlayer r) percentage punits v s
  = (with_heap (<[r := Player.with_object_ids (Player.object_ids p ++ ids) p]> (heap s))
       (with_generated (generated s + Z.to_nat count)
          (with_Planet_cache
             (<[planet_id := Planet.with_units_count
                               (Planet.units_count planet - count) planet]>
                (Planet_cache s)) s)),
     Ok (dict_set punits (KInt planet_id) (VList (map VInt ids)))).
Proof.
  intros Hv Hc Hr Ho Hp Hcount ids.
  unfold select_planet, bind, lift, cache_item, as_player, ret, get_player.
  rewrite Hv, Hc. simpl. rewrite Hr. simpl.
  rewrite owned_by_spec, bool_decide_eq_true_2 by exact Ho.
  rewrite Hp, Hcount. unfold update_planet, modify, next_ids, update_player. simpl.
  rewrite Hr. simpl. rewrite (alter_lookup_insert _ _ _ _ Hc). reflexivity.
Qed.

End Damage.

(** * What the handler and the receiver keep *)

Lemma keeps_refl s : keeps s s.
Proof.
  split; auto. intros r p H. exists p. auto.
Qed.

#[local] Instance keeps_trans : Transitive keeps.
Proof.
  intros s1 s2 s3 H12 H23.
  destruct H12 as [L1 H1 N1 P1], H23 as [L2 H2 N2 P2]. split.
  - congruence.
  - intros r p Hr. destruct (H1 r p Hr) as (p' & Hr' & Hid & Hm).
    destruct (H2 r p' Hr') as (p'' & Hr'' & Hid' & Hm'). exists p''.
    split; [exact Hr''|]. split; [congruence|auto].
  - congruence.
  - destruct P2 as [P2|P2]; [|right; exact P2]. rewrite P2. exact P1.
Qed.

Section Preserves.
Context (R : relation state) `{!Reflexive R} `{!Transitive R}.

Lemma preserves_ret {A} (a : A) : preserves R (ret a).
Proof. intros s. reflexivity. Qed.
Lemma preserves_raise {A} e : preserves R (@raise A e).
Proof. intros s. reflexivity. Qed.
Lemma preserves_lift {A} (r : result A) : preserves R (lift r).
Proof. intros s. reflexivity. Qed.
Lemma preserves_gets {A} (f : state -> A) : preserves R (gets f).
Proof. intros s. reflexivity. Qed.
Lemma preserves_get_player r : preserves R (get_player r).
Proof. intros s. reflexivity. Qed.
Lemma preserves_player_values : preserves R player_values.
Proof. intros s. reflexivity. Qed.
Lemma preserves_cache_item k : preserves R (cache_item k).
Proof. intros s. reflexivity. Qed.
Lemma preserves_as_player v : preserves R (as_player v).
Proof. intros s. destruct v; reflexivity. Qed.
Lemma preserves_modify f : (forall s, R s (f s)) -> preserves R (modify f).
Proof. intros H s. apply H. Qed.
Lemma preserves_bind {A B} (m : M A) (k : A -> M B) :
  preserves R m -> (forall a, preserves R (k a)) -> preserves R (bind m k).
Proof.
  intros Hm Hk s. unfold bind. specialize (Hm s).
  destruct (m s) as [s' [a|e]]; simpl in *; [|exact Hm].
  etransitivity; [exact Hm|apply Hk].
Qed.
Lemma preserves_for_each {A} (l : list A) (body : A -> M unit) :
  (forall x, preserves R (body x)) -> preserves R (for_each l body).
Proof.
  intros H. induction l as [|x l IH]; simpl; [apply preserves_ret|].
  apply preserves_bind; [apply H|intros _; exact IH].
Qed.
End Preserves.

#[local] Instance keeps_reflexive : Reflexive keeps := keeps_refl.

Lemma keeps_same s s' :
  heap s' = heap s -> next_player_id s' = next_player_id s ->
  (players s' = players s \/ players s' = []) ->
  keeps s s'.
Proof.
  intros Hh Hn Hp. split; [congruence| |exact Hn|exact Hp].
  intros r p Hr. exists p. rewrite Hh. auto.
Qed.

Lemma keeps_update_player r f :
  (forall p, Player.id (f p) = Player.id p
             /\ (Player.rendered p = true -> Player.rendered (f p) = true)) ->
  preserves keeps (update_player r f).
Proof.
  intros Hf s. unfold update_player. destruct (heap s !! r) as [p|] eqn:Hr; [|reflexivity].
  simpl. split; simpl; [apply length_insert| |reflexivity|left; reflexivity].
  intros r' p' Hr'. destruct (decide (r = r')) as [<-|Hne].
  - rewrite list_lookup_insert_eq by (eapply lookup_lt_Some, Hr).
    exists (f p). rewrite Hr in Hr'. injection Hr' as <-. split; [reflexivity|apply Hf].
  - rewrite list_lookup_insert_ne by exact Hne. exists p'. auto.
Qed.

Lemma keeps_notify n a : preserves keeps (notify n a).
Proof. intros s. apply keeps_same; simpl; auto. Qed.

Lemma keeps_update_planet k f : preserves keeps (update_planet k f).
Proof. intros s. apply keeps_same; simpl; auto. Qed.

Lemma keeps_next_ids env c : preserves keeps (next_ids env c).
Proof. intros s. apply keeps_same; simpl; auto. Qed.

Ltac pres_step lem :=
  match goal with
  | |- preserves ?R (bind ?m ?k) => refine (preserves_bind R m k _ _); [|intros ?]
  | |- preserves ?R (ret _) => apply (preserves_ret R)
  | |- preserves ?R (raise _) => apply (preserves_raise R)
  | |- preserves ?R (lift _) => apply (preserves_lift R)
  | |- preserves ?R (gets _) => apply (preserves_gets R)
  | |- preserves ?R (get_player _) => apply (preserves_get_player R)
  | |- preserves ?R player_values => apply (preserves_player_values R)
  | |- preserves ?R (cache_item _) => apply (preserves_cache_item R)
  | |- preserves ?R (as_player _) => apply (preserves_as_player R)
  | |- preserves _ (if ?b then _ else _) => destruct b
  | |- preserves _ (match ?x with _ => _ end) => destruct x
  | |- preserves _ _ => lem
  end.
Ltac pres lem := repeat (pres_step lem).

Ltac keeps_prim :=
  idtac; first
    [ apply keeps_notify | apply keeps_update_planet | apply keeps_next_ids
    | apply keeps_update_player; intros ?; split; [reflexivity|simpl; auto]
    | apply (preserves_modify keeps); intros ?; apply keeps_same; simpl; auto; fail ].

Section Handler.
Variable env : collaborators.

Lemma keeps_handle_ready event player : preserves keeps (handle_ready env event player).
Proof. unfold handle_ready. pres ltac:(keeps_prim). Qed.

Lemma keeps_handle_move event player : preserves keeps (handle_move env event player).
Proof. unfold handle_move. pres ltac:(keeps_prim). Qed.

Lemma keeps_select_planet player pct punits v :
  preserves keeps (select_planet env player pct punits v).
Proof. unfold select_planet. pres ltac:(keeps_prim). Qed.

Lemma keeps_select_loop player pct l : forall punits,
  preserves keeps (select_loop env player pct l punits).
Proof.
  induction l as [|v l IH]; intros punits; simpl; [apply (preserves_ret keeps)|].
  refine (preserves_bind keeps _ _ _ _); [apply keeps_select_planet|intros; apply IH].
Qed.

Lemma keeps_handle_select event player : preserves keeps (handle_select env event player).
Proof. unfold handle_select. pres ltac:(first [apply keeps_select_loop | keeps_prim]). Qed.

Lemma keeps_handle_add_hp event player : preserves keeps (handle_add_hp env event player).
Proof. unfold handle_add_hp. pres ltac:(keeps_prim). Qed.

Lemma keeps_apply_damage event player : preserves keeps (apply_damage env event player).
Proof. unfold apply_damage. pres ltac:(keeps_prim). Qed.

Lemma keeps_check_game_over : preserves keeps check_game_over.
Proof.
  intros s. unfold check_game_over, bind, player_values, gets, lift, notify, modify.
  destruct (mapM _ _) as [ps|]; simpl; [|reflexivity].
  destruct (scan_players _ _ _) as [active [|]]; simpl; [reflexivity|].
  destruct (head active); simpl; [|reflexivity].
  apply keeps_same; simpl; auto.
Qed.

Lemma keeps_handle_rendered player : preserves keeps (handle_rendered player).
Proof. unfold handle_rendered. pres ltac:(keeps_prim). Qed.

Lemma keeps_handle event : preserves keeps (handle env event).
Proof.
  unfold handle, handle_damage.
  pres ltac:(first [ apply keeps_handle_ready | apply keeps_handle_rendered
                   | apply keeps_handle_move | apply keeps_handle_select
                   | apply keeps_handle_add_hp | apply keeps_apply_damage
                   | apply keeps_check_game_over ]).
Qed.

Lemma keeps_handler : preserves keeps (handler env).
Proof.
  unfold handler.
  pres ltac:(first [ apply keeps_handle
                   | apply (preserves_modify keeps); intros ?; apply keeps_same; simpl; auto ]).
Qed.
End Handler.

#[local] Instance grows_reflexive : Reflexive grows.
Proof. intros s. unfold grows. lia. Qed.
#[local] Instance grows_transitive : Transitive grows.
Proof. intros s1 s2 s3. unfold grows. lia. Qed.

Ltac grows_prim :=
  idtac; first
    [ apply (preserves_modify grows); intros ?; unfold grows; simpl; lia
    | intros ?; unfold grows, notify, update_planet, modify; simpl; lia
    | intros ?; unfold grows, next_ids; simpl; lia
    | intros ?; unfold grows, update_player; destruct (heap _ !! _); simpl; lia ].

Section Grows.
Variable env : collaborators.
Hypothesis Hmap : map_generator_monotone env.

Lemma grows_map_generation ps :
  preserves grows
    (let* s := gets (fun s => s) in
     let '(cache, game_map, n) :=
       MapGenerator_run env (map Player.id ps) (Planet_cache s) (generated s) in
     modify (with_Planet_cache cache);;
     modify (with_generated n);;
     modify (with_readiness true);;
     notify (VStr EventName.MAP_INIT) [(KStr "map", VList game_map)]).
Proof.
  intros s. unfold bind, gets. simpl.
  pose proof (Hmap (map Player.id ps) (Planet_cache s) (generated s)) as Hn.
  destruct (MapGenerator_run env _ _ _) as [[cache gm] n].
  unfold grows, notify, modify. simpl in *. exact Hn.
Qed.

Lemma grows_handle_ready event player : preserves grows (handle_ready env event player).
Proof.
  unfold handle_ready.
  repeat first [ apply grows_map_generation | pres_step ltac:(grows_prim) ].
Qed.

Lemma grows_handle_rendered player : preserves grows (handle_rendered player).
Proof. unfold handle_rendered. pres ltac:(grows_prim). Qed.

Lemma grows_handle_move event player : preserves grows (handle_move env event player).
Proof. unfold handle_move. pres ltac:(grows_prim). Qed.

Lemma grows_select_planet player pct punits v :
  preserves grows (select_planet env player pct punits v).
Proof. unfold select_planet. pres ltac:(grows_prim). Qed.

Lemma grows_select_loop player pct l : forall punits,
  preserves grows (select_loop env player pct l punits).
Proof.
  induction l as [|v l IH]; intros punits; simpl; [apply (preserves_ret grows)|].
  refine (preserves_bind grows _ _ _ _); [apply grows_select_planet|intros; apply IH].
Qed.

Lemma grows_handle_select event player : preserves grows (handle_select env event player).
Proof. unfold handle_select. pres ltac:(first [apply grows_select_loop | grows_prim]). Qed.

Lemma grows_handle_add_hp event player : preserves grows (handle_add_hp env event player).
Proof. unfold handle_add_hp. pres ltac:(grows_prim). Qed.

Lemma grows_apply_damage event player : preserves grows (apply_damage env event player).
Proof. unfold apply_damage. pres ltac:(grows_prim). Qed.

Lemma grows_check_game_over : preserves grows check_game_over.
Proof. unfold check_game_over. pres ltac:(grows_prim). Qed.

Lemma grows_handle event : preserves grows (handle env event).
Proof.
  unfold handle, handle_damage.
  pres ltac:(first [ apply grows_handle_ready | apply grows_handle_rendered
                   | apply grows_handle_move | apply grows_handle_select
                   | apply grows_handle_add_hp | apply grows_apply_damage
                   | apply grows_check_game_over ]).
Qed.

Lemma grows_handler : preserves grows (handler env).
Proof. unfold handler. pres ltac:(first [apply grows_handle | grows_prim]). Qed.
End Grows.

#[local] Instance started_kept_reflexive : Reflexive started_kept.
Proof. intros s. reflexivity. Qed.
#[local] Instance started_kept_transitive : Transitive started_kept.
Proof. intros s1 s2 s3. unfold started_kept. congruence. Qed.

Ltac started_prim :=
  idtac; first
    [ apply (preserves_modify started_kept); intros ?; reflexivity
    | intros ?; unfold started_kept, notify, update_planet, modify; reflexivity
    | intros ?; unfold started_kept, update_player; destruct (heap _ !! _); reflexivity ].

#[local] Instance cache_kept_reflexive : Reflexive cache_kept.
Proof. intros s. reflexivity. Qed.
#[local] Instance cache_kept_transitive : Transitive cache_kept.
Proof. intros s1 s2 s3. unfold cache_kept. congruence. Qed.

Ltac cache_prim :=
  idtac; first
    [ apply (preserves_modify cache_kept); intros ?; reflexivity
    | intros ?; unfold cache_kept, notify, modify; reflexivity
    | intros ?; unfold cache_kept, update_player; destruct (heap _ !! _); reflexivity ].

Section Untouched.
Variable env : collaborators.

Lemma started_handle_ready event player :
  preserves started_kept (handle_ready env event player).
Proof. unfold handle_ready. pres ltac:(started_prim). Qed.

Lemma cache_handle_rendered player : preserves cache_kept (handle_rendered player).
Proof. unfold handle_rendered. pres ltac:(cache_prim). Qed.

Lemma cache_handle_move event player : preserves cache_kept (handle_move env event player).
Proof. unfold handle_move. pres ltac:(cache_prim). Qed.

Lemma cache_check_game_over : preserves cache_kept check_game_over.
Proof. unfold check_game_over. pres ltac:(cache_prim). Qed.
End Untouched.

(** The receiver's turns. *)

Lemma elem_of_assoc_set d k v x : x ∈ assoc_set d k v -> x ∈ d \/ x = (k, v).
Proof.
  induction d as [|[k' v'] d IH]; simpl.
  - intros H. apply list_elem_of_singleton in H. right. exact H.
  - destruct (decide (k' = k)) as [->|Hne]; intros H.
    + apply elem_of_cons in H as [->|H]; [right; reflexivity|left; right; exact H].
    + apply elem_of_cons in H as [->|H]; [left; left|].
      destruct (IH H) as [H'|H']; [left; right; exact H'|right; exact H'].
Qed.

Lemma elem_of_assoc_del d k d' x : assoc_del d k = Some d' -> x ∈ d' -> x ∈ d.
Proof.
  revert d'. induction d as [|[k' v'] d IH]; intros d'; simpl; [discriminate|].
  destruct (decide (k' = k)) as [->|Hne].
  - intros [= <-] H. right. exact H.
  - destruct (assoc_del d k) as [d0|] eqn:E; [|discriminate]. intros [= <-] H.
    apply elem_of_cons in H as [->|H]; [left|right; eapply IH; [reflexivity|exact H]].
Qed.

Section Receiver.
Variable env : collaborators.

Lemma remove_client_frame client s :
  let s' := (fst (remove_client client s)) in
  heap s' = heap s /\ next_player_id s' = next_player_id s
  /\ game_started s' = game_started s /\ generated s' = generated s
  /\ (forall x, x ∈ players s' -> x ∈ players s).
Proof.
  unfold remove_client, bind, gets, lift, modify. simpl.
  destruct (list_remove client (clients s)) as [cs|]; simpl; [|auto 10].
  destruct (assoc_del (players s) client) as [ps|] eqn:E; simpl; [|auto 10].
  repeat split; auto. intros x. eapply elem_of_assoc_del, E.
Qed.

Lemma wait_for_client_data_frame client data_size event s :
  let s' := (fst (wait_for_client_data env client data_size event s)) in
  heap s' = heap s /\ next_player_id s' = next_player_id s
  /\ game_started s' = game_started s /\ generated s' = generated s
  /\ (forall x, x ∈ players s' -> x ∈ players s).
Proof.
  unfold wait_for_client_data.
  destruct data_size as [|b bs]; [apply remove_client_frame|].
  unfold bind, lift. destruct (struct_unpack_i _ _) as [n|e]; simpl; [|auto 10].
  destruct (n <? 0); simpl; [auto 10|].
  destruct event as [|e0 ev]; [apply remove_client_frame|].
  unfold gets. simpl. destruct (assoc_get _ _) as [r|]; simpl; [|auto 10].
  destruct (ClientEvent _ _) as [ce|e]; simpl; auto 10.
Qed.

Lemma wait_for_client_cases client address s :
  let s' := (fst (wait_for_client env client address s)) in
  s' = s
  \/ (game_started s = false
      /\ heap s' = heap s ++ [Player.new address (next_player_id s + 1)]
      /\ next_player_id s' = next_player_id s + 1
      /\ game_started s' = false /\ generated s' = generated s
      /\ players s' = assoc_set (players s) client (length (heap s))).
Proof.
  unfold wait_for_client, bind, gets, modify, notify. simpl.
  destruct (game_started s) eqn:Hg; simpl; [left; reflexivity|].
  destruct (readiness s); simpl; [left; reflexivity|].
  destruct (_ <? _); simpl; [|left; reflexivity].
  right. rewrite Hg. auto 10.
Qed.
End Receiver.

(** ** The invariant of the reachable states *)

Lemma consistent_init max : consistent (init max).
Proof.
  split; simpl; auto.
  intros k r H. inversion H.
Qed.

Lemma consistent_keeps s s' : keeps s s' -> consistent s -> consistent s'.
Proof.
  intros Hk [Hlive Hids Hnext].
  destruct Hk as [Hlen Hheap Hn Hp]. split.
  - intros k r Hin. rewrite Hlen. destruct Hp as [Hp|Hp]; rewrite Hp in Hin.
    + eapply Hlive, Hin.
    + inversion Hin.
  - rewrite Hlen, <- Hids. apply list_eq. intros i. rewrite !list_lookup_fmap.
    destruct (heap s !! i) as [p|] eqn:Hi.
    + destruct (Hheap i p Hi) as (p' & -> & Hid & _). simpl. congruence.
    + apply lookup_ge_None in Hi. rewrite <- Hlen in Hi. apply lookup_ge_None in Hi.
      rewrite Hi. reflexivity.
  - congruence.
Qed.

Lemma consistent_flags s s' :
  heap s' = heap s -> players s' = players s -> next_player_id s' = next_player_id s ->
  consistent s -> consistent s'.
Proof.
  intros Hh Hp Hn [H1 H3 H4]. split.
  - rewrite Hh, Hp. exact H1.
  - rewrite Hh. exact H3.
  - rewrite Hn, Hh. exact H4.
Qed.

Section Reachable.
Variable env : collaborators.

Lemma consistent_step s s' : step env s s' -> consistent s -> consistent s'.
Proof.
  intros Hstep Hc. destruct Hstep as [s client address Ha Hfresh
                                     | s client data_size event Ha Hin Hlen Hrecv
                                     | s Ha].
  - unfold run_thread.
    pose proof (wait_for_client_cases env client address s) as Hcases.
    assert (Hs' : consistent (fst (wait_for_client env client address s))).
    { destruct Hcases as [->|(Hg & Hh & Hn & Hg' & _ & Hp)]; [exact Hc|].
      destruct Hc as [H1 H3 H4]. split.
      - intros k r Hkr. rewrite Hp in Hkr. rewrite Hh, length_app. simpl.
        apply elem_of_assoc_set in Hkr as [Hkr|[= _ ->]]; [|lia].
        specialize (H1 k r Hkr). lia.
      - rewrite Hh, map_app, length_app, H3. simpl.
        rewrite Nat.add_1_r, seq_S, map_app. simpl. do 2 f_equal. rewrite H4. lia.
      - rewrite Hn, Hh, length_app, H4. simpl. lia. }
    destruct (wait_for_client env client address s) as [s1 [[]|e]]; simpl in *;
      [exact Hs'|]. eapply consistent_flags; [..|exact Hs']; reflexivity.
  - unfold run_thread.
    pose proof (wait_for_client_data_frame env client data_size event s)
      as (Hh & Hn & Hg & _ & Hp).
    assert (Hs' : consistent (fst (wait_for_client_data env client data_size event s))).
    { destruct Hc as [H1 H3 H4]. split; rewrite ?Hh, ?Hn; auto.
      intros k r Hkr. apply H1 with k, Hp, Hkr. }
    destruct (wait_for_client_data env client data_size event s) as [s1 [[]|e]];
      simpl in *; [exact Hs'|]. eapply consistent_flags; [..|exact Hs']; reflexivity.
  - unfold run_thread. pose proof (keeps_handler env s) as Hk.
    pose proof (consistent_keeps _ _ Hk Hc) as Hs'.
    destruct (handler env s) as [s1 [[]|e]]; simpl in *; [exact Hs'|].
    eapply consistent_flags; [..|exact Hs']; reflexivity.
Qed.

Lemma reachable_consistent max s : reachable env max s -> consistent s.
Proof.
  unfold reachable. intros H.
  apply (rtc_ind_r (R := step env) (fun s => consistent s) (init max));
    [apply consistent_init| |exact H].
  intros y z _ Hstep Hy. eapply consistent_step; eassumption.
Qed.

Lemma valid_run l : forall s, valid env l s = true -> rtc (step env) s (run env l s).
Proof.
  induction l as [|a l IH]; intros s Hv; simpl in *; [reflexivity|].
  apply andb_true_iff in Hv as [Ha Hv].
  eapply rtc_l; [|apply IH, Hv].
  destruct a as [client address|client data_size event|]; simpl in *.
  - apply andb_true_iff in Ha as [H1 H2]. apply bool_decide_eq_true in H2.
    apply step_accept; assumption.
  - apply andb_true_iff in Ha as [Ha H5]. apply negb_true_iff in H5.
    apply andb_true_iff in Ha as [Ha H4]. apply andb_true_iff in Ha as [Ha H3].
    apply andb_true_iff in Ha as [H1 H2]. apply bool_decide_eq_true in H2.
    apply step_data; try assumption.
    + apply Nat.leb_le, H3.
    + intros n Hn. rewrite Hn in H4. lia.
  - apply andb_true_iff in Ha as [Ha H5]. apply negb_true_iff in H5.
    apply step_handle; assumption.
Qed.
End Reachable.

Section Sessions.
Variable env : collaborators.

Lemma assoc_get_set d k v : assoc_get (assoc_set d k v) k = Some v.
Proof.
  induction d as [|[k' v'] d IH]; simpl.
  - rewrite decide_True by reflexivity. reflexivity.
  - destruct (decide (k' = k)) as [->|Hne]; simpl.
    + rewrite decide_True by reflexivity. reflexivity.
    + rewrite decide_False by exact Hne. exact IH.
Qed.

(** Claim C10.  In every reachable state the [Player] objects created so
    far (the heap keeps them all, also after a game over has emptied
    [self.players]) have the ids 1, 2, ..., in the order of their creation,
    and [next_player_id] is their number.  So a turn of
    [__wait_for_client] either changes nothing or creates one player whose
    id is the next integer, positive and above every id given before. *)
Theorem player_ids_consecutive max s client address :
  reachable env max s ->
  map Player.id (heap s) = map Z.of_nat (seq 1 (length (heap s)))
  /\ next_player_id s = Z.of_nat (length (heap s))
  /\ (fst (wait_for_client env client address s) = s
      \/ exists player,
          heap (fst (wait_for_client env client address s)) = heap s ++ [player]
          /\ Player.id player = Z.of_nat (length (heap s)) + 1
          /\ Forall (fun q => 0 < Player.id q < Player.id player) (heap s)
          /\ assoc_get (players (fst (wait_for_client env client address s))) client
             = Some (length (heap s))).
Proof.
  intros Hreach. destruct (reachable_consistent env max s Hreach) as [_ Hids Hnext].
  split; [exact Hids|]. split; [exact Hnext|].
  destruct (wait_for_client_cases env client address s) as [H|(_ & Hh & _ & _ & _ & Hp)];
    [left; exact H|right].
  exists (Player.new address (next_player_id s + 1)). split; [exact Hh|].
  split; [simpl; lia|]. split.
  - simpl. rewrite Hnext. apply Forall_forall. intros q Hq.
    apply list_elem_of_lookup in Hq as [i Hi].
    assert (Hq : map Player.id (heap s) !! i = Some (Player.id q))
      by (rewrite list_lookup_fmap, Hi; reflexivity).
    rewrite Hids, list_lookup_fmap in Hq.
    destruct (seq 1 (length (heap s)) !! i) as [j|] eqn:Hj; [|discriminate].
    apply lookup_seq in Hj as [-> Hlt]. simpl in Hq. injection Hq as <-. lia.
  - rewrite Hp. apply assoc_get_set.
Qed.

Lemma is_str_eq v n : is_str v n = true -> v = VStr n.
Proof.
  destruct v; try discriminate. simpl. intros H. apply String.eqb_eq in H. congruence.
Qed.

(** Claim C5, amended.  One handled event takes [game_started] from false
    to true only when it is a rendered event and, at the handler's test
    right after the sender's [rendered] flag was set, every player of
    [self.players] had its flag set; the handler then queues the
    game-started broadcast and changes nothing else.  [readiness] is not
    read and stays as it was, true or false. *)
Theorem game_started_set_by_rendered s event :
  game_started s = false ->
  game_started (fst (handle env event s)) = true ->
  name event = VStr EventName.RENDERED
  /\ readiness (fst (handle env event s)) = readiness s
  /\ exists r p ps,
       dict_get (payload event) (KStr "player") = Some (VPlayer r)
       /\ heap s !! r = Some p
       /\ current_players (with_heap (<[r := Player.with_rendered true p]> (heap s)) s)
          = Some ps
       /\ Forall (fun q => Player.rendered q = true) ps
       /\ handle env event s
          = (with_game_started true
               (with_sender_queue
                  (sender_queue s ++ [mkEvent (VStr EventName.GAME_STARTED) []])
                  (with_heap (<[r := Player.with_rendered true p]> (heap s)) s)),
             Ok tt).
Proof.
  intros Hs Hs'. unfold handle, bind, lift, dict_item, gets in *.
  destruct (dict_get (payload event) (KStr "player")) as [player|] eqn:Hp;
    cbn [of_option fst snd] in *; [|congruence].
  destruct (is_str (name event) EventName.READY) eqn:E1.
  - exfalso. pose proof (started_handle_ready env event player s) as H.
    unfold started_kept in H.
    destruct (handle_ready env event player s) as [s1 [[]|e]]; cbn [fst snd] in *;
      [|congruence].
    rewrite H, Hs in Hs'. change (game_started s1 = true) in Hs'. congruence.
  - destruct (is_str (name event) EventName.RENDERED) eqn:E2.
    + apply is_str_eq in E2. split; [exact E2|]. rewrite E2 in *.
      unfold handle_rendered, bind, as_player, ret, raise in *.
      destruct player as [| | | | | |r]; cbn [fst snd] in *; try congruence.
      unfold update_player in *.
      destruct (heap s !! r) as [p|] eqn:Hr; cbn [fst snd] in *; [|congruence].
      unfold player_values, current_players in *. cbn [fst snd players heap with_heap] in *.
      destruct (mapM _ (players s)) as [ps|] eqn:Hps; cbn [of_option fst snd] in *;
        [|exfalso; change (game_started s = true) in Hs'; congruence].
      destruct (forallb Player.rendered ps) eqn:Hall; cbn [fst snd] in *.
      * unfold notify, modify in *. cbn [fst snd game_started with_game_started] in *.
        split; [reflexivity|]. exists r, p, ps.
        split; [reflexivity|]. split; [exact Hr|]. split; [exact Hps|].
        split; [|reflexivity].
        apply Forall_forall. intros q Hq. rewrite forallb_forall in Hall.
        apply Hall, list_elem_of_In, Hq.
      * exfalso. cbn [game_started with_heap] in Hs'. rewrite Hs in Hs'.
        change (game_started s = true) in Hs'. congruence.
    + exfalso. unfold ret in *. cbn [fst snd] in *. rewrite Hs in Hs'.
      change (game_started s = true) in Hs'. congruence.
Qed.

Lemma step_grows s s' :
  map_generator_monotone env -> step env s s' -> grows s s'.
Proof.
  intros Hmap Hstep. destruct Hstep as [s client address Ha Hfresh
                                       | s client data_size event Ha Hin Hlen Hrecv
                                       | s Ha]; unfold run_thread, grows.
  - destruct (wait_for_client_cases env client address s) as [H|(_ & _ & _ & _ & Hg & _)];
      destruct (wait_for_client env client address s) as [s1 [[]|e]]; simpl in *;
      subst; lia.
  - pose proof (wait_for_client_data_frame env client data_size event s)
      as (_ & _ & _ & Hg & _).
    destruct (wait_for_client_data env client data_size event s) as [s1 [[]|e]];
      simpl in *; lia.
  - pose proof (grows_handler env Hmap s) as Hg. unfold grows in Hg.
    destruct (handler env s) as [s1 [[]|e]]; simpl in *; lia.
Qed.

Lemma steps_grow s s' :
  map_generator_monotone env -> rtc (step env) s s' -> grows s s'.
Proof.
  intros Hmap H. induction H as [s|s1 s2 s3 H12 _ IH]; [reflexivity|].
  etransitivity; [eapply step_grows; eassumption|exact IH].
Qed.
End Sessions.

(** * Select *)

Section Select.
Variable env : collaborators.

Lemma handle_started s event player :
  dict_get (payload event) (KStr "player") = Some player ->
  game_started s = true ->
  is_str (name event) EventName.READY = false ->
  is_str (name event) EventName.RENDERED = false ->
  handle env event s
  = (if is_str (name event) EventName.MOVE then handle_move env event player
     else if is_str (name event) EventName.SELECT then handle_select env event player
     else if is_str (name event) EventName.ADD_HP then handle_add_hp env event player
     else if is_str (name event) EventName.DAMAGE then handle_damage env event player
     else ret tt) s.
Proof.
  intros Hp Hs H1 H2. unfold handle, bind, lift, dict_item, gets, ret.
  rewrite Hp, H1, H2. cbn [of_option fst snd]. rewrite Hs. reflexivity.
Qed.

Lemma seq_ids_fresh g k :
  id_generator_increasing env ->
  NoDup (map (ID_GENERATOR env) (seq g k))
  /\ forall i, (i < g)%nat -> ID_GENERATOR env i ∉ map (ID_GENERATOR env) (seq g k).
Proof.
  intros Hmono.
  assert (Hinj : forall i j, ID_GENERATOR env i = ID_GENERATOR env j -> i = j).
  { intros i j E. destruct (Nat.lt_trichotomy i j) as [H|[H|H]]; [|exact H|];
      apply Hmono in H; lia. }
  split.
  - apply NoDup_fmap_2; [exact Hinj|apply NoDup_seq].
  - intros i Hi Hin. apply list_elem_of_fmap in Hin as (j & E & Hj).
    apply Hinj in E. subst j. apply elem_of_seq in Hj. lia.
Qed.

(** A planet of another owner is passed over. *)
Lemma select_planet_passed s r p planet planet_id v percentage punits :
  py_int env v = Ok planet_id ->
  Planet_cache s !! planet_id = Some planet ->
  heap s !! r = Some p ->
  Planet.owner planet <> Some (Player.id p) ->
  select_planet env (VPlayer r) percentage punits v s = (s, Ok punits).
Proof.
  intros Hv Hc Hr Ho.
  unfold select_planet, bind, lift, cache_item, as_player, ret, get_player.
  rewrite Hv, Hc. cbn [of_option fst snd]. rewrite Hr. cbn [of_option].
  rewrite owned_by_spec, bool_decide_eq_false_2 by exact Ho. reflexivity.
Qed.

Lemma with_object_ids_same p : Player.with_object_ids (Player.object_ids p) p = p.
Proof. destruct p. reflexivity. Qed.

Lemma selection_none s r p :
  heap s !! r = Some p ->
  with_heap (<[r := Player.with_object_ids (Player.object_ids p) p]> (heap s))
    (with_generated (generated s) (with_Planet_cache (Planet_cache s) s)) = s.
Proof.
  intros Hr. rewrite with_object_ids_same, list_insert_id by exact Hr.
  destruct s. reflexivity.
Qed.

(** The loop over the requested planets does what [spec_select] says. *)
Lemma select_loop_spec r percentage pct pid vs : forall planet_ids punits s q final,
  Forall2 (fun v k => py_int env v = Ok k) vs planet_ids ->
  py_int env percentage = Ok pct ->
  heap s !! r = Some q -> Player.id q = pid ->
  spec_select env pid pct
    (mkSelection (Planet_cache s) (Player.object_ids q) (generated s) punits) planet_ids
  = Some final ->
  select_loop env (VPlayer r) percentage vs punits s
  = (with_heap (<[r := Player.with_object_ids (sel_ids final) q]> (heap s))
       (with_generated (sel_generated final) (with_Planet_cache (sel_cache final) s)),
     Ok (sel_units final)).
Proof.
  induction vs as [|v vs IH]; intros planet_ids punits s q final HF Hpct Hr Hid Hspec.
  - apply Forall2_nil_inv_l in HF. subst planet_ids.
    cbn [spec_select] in Hspec. injection Hspec as <-.
    cbn [select_loop sel_ids sel_generated sel_cache sel_units]. unfold ret.
    rewrite (selection_none s r q Hr). reflexivity.
  - apply Forall2_cons_inv_l in HF as (k & ks & Hv & HF & ->).
    cbn [spec_select] in Hspec.
    destruct (spec_select_round env pid pct _ k) as [acc|] eqn:Hround; [|discriminate].
    unfold spec_select_round in Hround.
    cbn [sel_cache sel_ids sel_generated sel_units] in Hround.
    destruct (Planet_cache s !! k) as [planet|] eqn:Hc; [|discriminate].
    cbn [select_loop]. unfold bind. subst pid.
    destruct (decide (Planet.owner planet = Some (Player.id q))) as [Ho|Ho].
    + destruct (round_div_100 (Planet.units_count planet * pct)) as [count|e] eqn:Hcount;
        [|discriminate].
      injection Hround as <-.
      rewrite (select_planet_owned env s r q planet k v percentage pct count punits
                 Hv Hc Hr Ho Hpct Hcount).
      match goal with
      | |- select_loop _ _ _ _ ?pu ?s1 = _ =>
          rewrite (IH ks pu s1
                     (Player.with_object_ids
                        (Player.object_ids q
                         ++ map (ID_GENERATOR env) (seq (generated s) (Z.to_nat count))) q)
                     final HF Hpct)
      end.
      * cbn [heap with_heap with_generated with_Planet_cache].
        rewrite list_insert_insert_eq. destruct s. reflexivity.
      * cbn [heap with_heap]. apply list_lookup_insert_eq. eapply lookup_lt_Some, Hr.
      * reflexivity.
      * exact Hspec.
    + injection Hround as <-.
      rewrite (select_planet_passed s r q planet k v percentage punits Hv Hc Hr Ho).
      apply (IH ks punits s q final HF Hpct Hr eq_refl Hspec).
Qed.

(** The ids a selection draws are the generator's next ones, in
    order. *)
Lemma spec_select_ids pid pct planet_ids : forall acc final,
  spec_select env pid pct acc planet_ids = Some final ->
  exists k, sel_generated final = (sel_generated acc + k)%nat
            /\ sel_ids final
               = sel_ids acc ++ map (ID_GENERATOR env) (seq (sel_generated acc) k).
Proof.
  induction planet_ids as [|planet_id rest IH]; intros acc final Hspec.
  - cbn [spec_select] in Hspec. injection Hspec as <-. exists 0%nat.
    cbn [seq map]. rewrite Nat.add_0_r, app_nil_r. split; reflexivity.
  - cbn [spec_select] in Hspec.
    destruct (spec_select_round env pid pct acc planet_id) as [acc'|] eqn:Hround;
      [|discriminate].
    destruct (IH acc' final Hspec) as (k & Hg & Hids).
    unfold spec_select_round in Hround.
    destruct (sel_cache acc !! planet_id) as [planet|]; [|discriminate].
    destruct (decide (Planet.owner planet = Some pid)) as [Ho|Ho].
    + destruct (round_div_100 (Planet.units_count planet * pct)) as [count|e];
        [|discriminate].
      injection Hround as <-. cbn [sel_generated sel_ids] in Hg, Hids.
      exists (Z.to_nat count + k)%nat. split; [lia|].
      rewrite Hids, <- app_assoc, seq_app, map_app. reflexivity.
    + injection Hround as <-. exists k. split; assumption.
Qed.

(** Claim C7, amended.  For a select event handled in a started game whose
    requested planet ids and percentage convert with [int], [handle] does
    what [spec_select] says, planet after planet in the order requested (a
    planet named twice is taken from twice): the sender's planets lose
    [round(units_count * percentage / 100.0)] units each, that many ids
    (none for a negative count) are drawn for each and appended to the
    sender's [object_ids], and the ids drawn per planet are queued for
    broadcast.  The ids drawn are the generator's values from
    [generated s] on, in order; they are new when the generator is
    strictly increasing, and no later step of the server turns the
    generator back when the map generator does not.  A select of 50
    percent from one planet of 10 units draws 5 ids and leaves 5 units. *)
Theorem select_mints_units s event r p from vs planet_ids percentage pct final :
  game_started s = true ->
  name event = VStr EventName.SELECT ->
  dict_get (payload event) (KStr "player") = Some (VPlayer r) ->
  heap s !! r = Some p ->
  dict_get (payload event) (KStr "from") = Some from ->
  py_iter from = Ok vs ->
  Forall2 (fun v planet_id => py_int env v = Ok planet_id) vs planet_ids ->
  dict_get (payload event) (KStr "percentage") = Some percentage ->
  py_int env percentage = Ok pct ->
  spec_select env (Player.id p) pct
    (mkSelection (Planet_cache s) (Player.object_ids p) (generated s) []) planet_ids
  = Some final ->
  handle env event s
  = (with_sender_queue
       (sender_queue s
        ++ [mkEvent (name event) [(KStr "selected", VDict (sel_units final))]])
       (with_heap (<[r := Player.with_object_ids (sel_ids final) p]> (heap s))
          (with_generated (sel_generated final)
             (with_Planet_cache (sel_cache final) s))),
     Ok tt)
  /\ (exists k,
        sel_generated final = (generated s + k)%nat
        /\ sel_ids final
           = Player.object_ids p ++ map (ID_GENERATOR env) (seq (generated s) k)
        /\ (id_generator_increasing env ->
            NoDup (map (ID_GENERATOR env) (seq (generated s) k))
            /\ forall i, (i < generated s)%nat ->
                 ID_GENERATOR env i ∉ map (ID_GENERATOR env) (seq (generated s) k)))
  /\ (map_generator_monotone env ->
      forall s2, rtc (step env) (fst (handle env event s)) s2 ->
                 (sel_generated final <= generated s2)%nat)
  /\ (forall planet_id planet,
        planet_ids = [planet_id] ->
        Planet_cache s !! planet_id = Some planet ->
        Planet.owner planet = Some (Player.id p) ->
        Planet.units_count planet = 10 -> pct = 50 ->
        sel_cache final !! planet_id = Some (Planet.mk (Planet.owner planet) 5)
        /\ sel_ids final
           = Player.object_ids p ++ map (ID_GENERATOR env) (seq (generated s) 5)).
Proof.
  intros Hgs Hn Hpl Hr Hfrom Hiter HF Hpct Hp Hspec.
  assert (Hh : handle env event s
               = (with_sender_queue
                    (sender_queue s
                     ++ [mkEvent (name event) [(KStr "selected", VDict (sel_units final))]])
                    (with_heap (<[r := Player.with_object_ids (sel_ids final) p]> (heap s))
                       (with_generated (sel_generated final)
                          (with_Planet_cache (sel_cache final) s))),
                  Ok tt)).
  { rewrite (handle_started s event (VPlayer r) Hpl Hgs) by (rewrite Hn; reflexivity).
    rewrite Hn. cbn [is_str].
    change (String.eqb EventName.SELECT EventName.MOVE) with false.
    change (String.eqb EventName.SELECT EventName.SELECT) with true.
    cbv iota. rewrite <- Hn.
    unfold handle_select, bind, lift, dict_item. rewrite Hfrom, Hpct.
    cbn [of_option fst snd]. rewrite Hiter.
    rewrite (select_loop_spec r percentage pct (Player.id p) vs planet_ids [] s p final
               HF Hp Hr eq_refl Hspec).
    reflexivity. }
  split; [exact Hh|].
  destruct (spec_select_ids _ _ _ _ _ Hspec) as (k & Hg & Hids).
  cbn [sel_generated sel_ids] in Hg, Hids.
  split.
  { exists k. split; [exact Hg|]. split; [exact Hids|]. apply seq_ids_fresh. }
  split.
  { intros Hmap s2 Hsteps. apply (steps_grow env _ _ Hmap) in Hsteps.
    rewrite Hh in Hsteps. unfold grows in Hsteps. exact Hsteps. }
  intros planet_id planet -> Hc Ho Hu ->.
  cbn [spec_select] in Hspec. unfold spec_select_round in Hspec.
  cbn [sel_cache sel_ids sel_generated sel_units] in Hspec.
  rewrite Hc, decide_True in Hspec by exact Ho. rewrite Hu in Hspec.
  assert (Hround : round_div_100 (10 * 50) = Ok 5) by (vm_compute; reflexivity).
  rewrite Hround in Hspec. injection Hspec as <-.
  cbn [sel_cache sel_ids]. split; [apply lookup_insert_eq|reflexivity].
Qed.

(** What one round, and the whole event, can make of the planet cache. *)
Lemma select_planet_cache player percentage punits v s :
  Planet_cache (fst (select_planet env player percentage punits v s)) = Planet_cache s
  \/ exists planet_id planet pct count,
       Planet_cache s !! planet_id = Some planet
       /\ py_int env percentage = Ok pct
       /\ round_div_100 (Planet.units_count planet * pct) = Ok count
       /\ Planet_cache (fst (select_planet env player percentage punits v s))
          = <[planet_id := Planet.with_units_count
                             (Planet.units_count planet - count) planet]>
              (Planet_cache s).
Proof.
  unfold select_planet, bind, lift, cache_item, as_player, get_player, ret, raise.
  destruct (py_int env v) as [planet_id|e]; [|left; reflexivity].
  cbn [fst snd].
  destruct (Planet_cache s !! planet_id) as [planet|] eqn:Hc; [|left; reflexivity].
  cbn [of_option fst snd].
  destruct player as [| | | | | |r]; try (left; reflexivity).
  cbn [fst snd].
  destruct (heap s !! r) as [p|] eqn:Hr; [|left; reflexivity].
  cbn [of_option fst snd].
  destruct (owned_by planet p); [|left; reflexivity].
  destruct (py_int env percentage) as [pct|e]; [|left; reflexivity].
  cbn [fst snd].
  destruct (round_div_100 (Planet.units_count planet * pct)) as [count|e] eqn:Hcount;
    [|left; reflexivity].
  right. exists planet_id, planet, pct, count.
  split; [exact Hc|]. split; [reflexivity|]. split; [exact Hcount|].
  unfold update_planet, modify, next_ids, update_player. cbn [fst snd heap with_generated
    with_Planet_cache Planet_cache].
  rewrite Hr. cbn [fst snd Planet_cache with_heap with_generated with_Planet_cache].
  rewrite (alter_lookup_insert _ _ _ _ Hc). reflexivity.
Qed.

Lemma select_loop_count percentage j U player vs : forall punits s,
  (forall pct u count,
      py_int env percentage = Ok pct -> 0 <= u <= U ->
      round_div_100 (u * pct) = Ok count -> 0 <= count <= u) ->
  (exists planet, Planet_cache s !! j = Some planet /\ 0 <= Planet.units_count planet <= U) ->
  exists planet,
    Planet_cache (fst (select_loop env player percentage vs punits s)) !! j = Some planet
    /\ 0 <= Planet.units_count planet <= U.
Proof.
  induction vs as [|v vs IH]; intros punits s Hround Hj; [exact Hj|].
  cbn [select_loop]. unfold bind.
  assert (H1 : exists planet,
             Planet_cache (fst (select_planet env player percentage punits v s)) !! j
             = Some planet /\ 0 <= Planet.units_count planet <= U).
  { destruct (select_planet_cache player percentage punits v s)
      as [->|(planet_id & planet & pct & count & Hc & Hp & Hcount & ->)]; [exact Hj|].
    destruct (decide (planet_id = j)) as [->|Hne].
    - destruct Hj as (planet0 & Hc0 & Hu). rewrite Hc in Hc0. injection Hc0 as <-.
      rewrite lookup_insert_eq. eexists. split; [reflexivity|].
      specialize (Hround pct _ count Hp Hu Hcount). cbn. lia.
    - rewrite lookup_insert_ne by exact Hne. exact Hj. }
  destruct (select_planet env player percentage punits v s) as [s1 [punits1|e]];
    cbn [fst snd] in *; [|exact H1].
  apply IH; assumption.
Qed.

Lemma handle_select_count event player j U s :
  (forall v pct u count,
      dict_get (payload event) (KStr "percentage") = Some v ->
      py_int env v = Ok pct -> 0 <= u <= U ->
      round_div_100 (u * pct) = Ok count -> 0 <= count <= u) ->
  (exists planet, Planet_cache s !! j = Some planet /\ 0 <= Planet.units_count planet <= U) ->
  exists planet,
    Planet_cache (fst (handle_select env event player s)) !! j = Some planet
    /\ 0 <= Planet.units_count planet <= U.
Proof.
  intros Hround Hj. unfold handle_select, bind, lift, dict_item.
  destruct (dict_get (payload event) (KStr "from")) as [from|]; [|exact Hj].
  cbn [of_option fst snd].
  destruct (dict_get (payload event) (KStr "percentage")) as [percentage|] eqn:Hpct;
    [|exact Hj].
  cbn [of_option fst snd].
  destruct (py_iter from) as [vs|e]; [|exact Hj]. cbn [fst snd].
  pose proof (select_loop_count percentage j U player vs [] s
                (fun pct u count => Hround percentage pct u count eq_refl) Hj) as H1.
  destruct (select_loop env player percentage vs [] s) as [s1 [punits|e]];
    cbn [fst snd] in *; exact H1.
Qed.

Lemma handle_add_hp_cache event player s :
  Planet_cache (fst (handle_add_hp env event player s)) = Planet_cache s
  \/ exists planet_id planet v hp_count,
       Planet_cache s !! planet_id = Some planet
       /\ dict_get (payload event) (KStr "hp_count") = Some v
       /\ py_int env v = Ok hp_count
       /\ Planet_cache (fst (handle_add_hp env event player s))
          = <[planet_id := Planet.with_units_count
                             (Planet.units_count planet + hp_count) planet]>
              (Planet_cache s).
Proof.
  unfold handle_add_hp, bind, lift, dict_item, cache_item, as_player, get_player, ret, raise.
  destruct (dict_get (payload event) (KStr "planet_id")) as [x|]; [|left; reflexivity].
  cbn [of_option fst snd].
  destruct (py_int env x) as [planet_id|e]; [|left; reflexivity].
  cbn [fst snd].
  destruct (dict_get (payload event) (KStr "hp_count")) as [h|] eqn:Hh; [|left; reflexivity].
  cbn [of_option fst snd].
  destruct (py_int env h) as [hp_count|e] eqn:Hph; [|left; reflexivity].
  cbn [fst snd].
  destruct (Planet_cache s !! planet_id) as [planet|] eqn:Hc; [|left; reflexivity].
  cbn [of_option fst snd].
  destruct player as [| | | | | |r]; try (left; reflexivity).
  cbn [fst snd].
  destruct (heap s !! r) as [p|] eqn:Hr; [|left; reflexivity].
  cbn [of_option fst snd].
  destruct (owned_by planet p); [|left; reflexivity].
  right. exists planet_id, planet, h, hp_count.
  split; [exact Hc|]. split; [reflexivity|]. split; [exact Hph|].
  unfold update_planet, notify, modify.
  cbn [fst snd Planet_cache with_sender_queue with_Planet_cache].
  rewrite (alter_lookup_insert _ _ _ _ Hc). reflexivity.
Qed.

Lemma handle_ready_cache event player s :
  Planet_cache (fst (handle_ready env event player s)) = Planet_cache s
  \/ exists ids,
       Planet_cache (fst (handle_ready env event player s))
       = fst (fst (MapGenerator_run env ids (Planet_cache s) (generated s))).
Proof.
  unfold handle_ready, bind, lift, dict_item, as_player, get_player, player_values,
    ret, raise, gets.
  destruct (dict_get (payload event) (KStr "ready")) as [v|]; [|left; reflexivity].
  cbn [of_option fst snd].
  destruct player as [| | | | | |r]; try (left; reflexivity).
  cbn [fst snd]. unfold update_player.
  destruct (heap s !! r) as [p|] eqn:Hr; [|left; reflexivity].
  cbn [fst snd heap with_heap].
  destruct (<[r := Player.with_ready v p]> (heap s) !! r) as [p'|]; [|left; reflexivity].
  cbn [of_option fst snd]. unfold notify, modify.
  cbn [fst snd heap players with_heap with_sender_queue].
  destruct (mapM _ (players s)) as [ps|]; [|left; reflexivity].
  cbn [of_option fst snd].
  destruct (forallb (fun p0 => truthy (Player.ready p0)) ps && (1 <? length ps)%nat);
    [|left; reflexivity].
  right. exists (map Player.id ps).
  cbn [Planet_cache generated with_heap with_sender_queue].
  destruct (MapGenerator_run env (map Player.id ps) (Planet_cache s) (generated s))
    as [[cache game_map] n].
  reflexivity.
Qed.

(** Which branch of the handler can touch the planet cache. *)
Lemma handle_cache_cases s event :
  Planet_cache (fst (handle env event s)) = Planet_cache s
  \/ (exists player, name event = VStr EventName.READY
                     /\ Planet_cache (fst (handle env event s))
                        = Planet_cache (fst (handle_ready env event player s)))
  \/ (exists player, name event = VStr EventName.SELECT
                     /\ Planet_cache (fst (handle env event s))
                        = Planet_cache (fst (handle_select env event player s)))
  \/ (exists player, name event = VStr EventName.ADD_HP
                     /\ Planet_cache (fst (handle env event s))
                        = Planet_cache (fst (handle_add_hp env event player s)))
  \/ (exists player, name event = VStr EventName.DAMAGE
                     /\ Planet_cache (fst (handle env event s))
                        = Planet_cache (fst (apply_damage env event player s))).
Proof.
  destruct (dict_get (payload event) (KStr "player")) as [player|] eqn:Hpl.
  2:{ left. unfold handle, bind, lift, dict_item. rewrite Hpl. reflexivity. }
  destruct (is_str (name event) EventName.READY) eqn:E1.
  { right. left. exists player. apply is_str_eq in E1. split; [exact E1|].
    unfold handle, bind, lift, dict_item, gets. rewrite Hpl, E1.
    cbn [of_option fst snd is_str].
    change (String.eqb EventName.READY EventName.READY) with true. cbv iota.
    destruct (handle_ready env event player s) as [s1 [[]|e]]; cbn [fst snd];
      [|reflexivity].
    destruct (game_started s1); reflexivity. }
  destruct (is_str (name event) EventName.RENDERED) eqn:E2.
  { left. apply is_str_eq in E2.
    unfold handle, bind, lift, dict_item, gets. rewrite Hpl, E2.
    cbn [of_option fst snd is_str].
    change (String.eqb EventName.RENDERED EventName.READY) with false.
    change (String.eqb EventName.RENDERED EventName.RENDERED) with true. cbv iota.
    pose proof (cache_handle_rendered player s) as H. unfold cache_kept in H.
    destruct (handle_rendered player s) as [s1 [[]|e]]; cbn [fst snd] in *;
      [|exact H].
    destruct (game_started s1); exact H. }
  destruct (game_started s) eqn:Hgs.
  2:{ left. unfold handle, bind, lift, dict_item, gets, ret. rewrite Hpl, E1, E2.
      cbn [of_option fst snd]. rewrite Hgs. reflexivity. }
  rewrite (handle_started s event player Hpl Hgs E1 E2).
  destruct (is_str (name event) EventName.MOVE) eqn:E3.
  { left. apply (cache_handle_move env event player s). }
  destruct (is_str (name event) EventName.SELECT) eqn:E4.
  { right. right. left. exists player. apply is_str_eq in E4. auto. }
  destruct (is_str (name event) EventName.ADD_HP) eqn:E5.
  { right. right. right. left. exists player. apply is_str_eq in E5. auto. }
  destruct (is_str (name event) EventName.DAMAGE) eqn:E6.
  { right. right. right. right. exists player. apply is_str_eq in E6.
    split; [exact E6|]. unfold handle_damage, bind.
    destruct (apply_damage env event player s) as [s1 [[]|e]]; cbn [fst snd];
      [|reflexivity].
    apply (cache_check_game_over s1). }
  left. reflexivity.
Qed.

(** Claim C6, amended.  A planet whose [units_count] is not negative
    before an event is handled has a [units_count] that is not negative
    afterwards, whatever the event and however its handling ends, provided
    that an add_hp or damage event has an [hp_count] that is not negative,
    that a select event has a percentage for which the share
    [round(u * percentage / 100.0)] of every count [u] up to the planet's
    lies between 0 and [u], and that the map a ready event has generated
    holds no negative count for the planet.  Only a ready event, which may
    generate the map anew, can take the planet out of the cache. *)
Theorem units_count_stays_nonnegative s event j planet :
  Planet_cache s !! j = Some planet ->
  0 <= Planet.units_count planet ->
  (name event = VStr EventName.READY ->
   forall ids planet',
     fst (fst (MapGenerator_run env ids (Planet_cache s) (generated s))) !! j
     = Some planet' ->
     0 <= Planet.units_count planet') ->
  (name event = VStr EventName.SELECT ->
   forall v pct u count,
     dict_get (payload event) (KStr "percentage") = Some v ->
     py_int env v = Ok pct ->
     0 <= u <= Planet.units_count planet ->
     round_div_100 (u * pct) = Ok count -> 0 <= count <= u) ->
  (name event = VStr EventName.ADD_HP ->
   forall v hp_count,
     dict_get (payload event) (KStr "hp_count") = Some v ->
     py_int env v = Ok hp_count -> 0 <= hp_count) ->
  (name event = VStr EventName.DAMAGE ->
   forall hp_count,
     py_int env (default (VInt 1) (dict_get (payload event) (KStr "hp_count")))
     = Ok hp_count -> 0 <= hp_count) ->
  (forall planet',
      Planet_cache (fst (handle env event s)) !! j = Some planet' ->
      0 <= Planet.units_count planet')
  /\ (name event <> VStr EventName.READY ->
      is_Some (Planet_cache (fst (handle env event s)) !! j)).
Proof.
  intros Hj Hnonneg Hready Hselect Hadd Hdamage.
  destruct (handle_cache_cases s event)
    as [->|[(player & Hn & ->)|[(player & Hn & ->)|[(player & Hn & ->)|(player & Hn & ->)]]]].
  - rewrite Hj. split; [intros planet' [= <-]; exact Hnonneg|eauto].
  - split; [|intros Hne; contradiction].
    destruct (handle_ready_cache event player s) as [->|[ids ->]].
    + rewrite Hj. intros planet' [= <-]. exact Hnonneg.
    + apply (Hready Hn ids).
  - destruct (handle_select_count event player j (Planet.units_count planet) s)
      as (planet1 & -> & Hu).
    + intros v pct u count Hv Hp Hu Hc. apply (Hselect Hn v pct u count Hv Hp Hu Hc).
    + exists planet. split; [exact Hj|lia].
    + split; [intros planet' [= <-]; lia|eauto].
  - destruct (handle_add_hp_cache event player s)
      as [->|(planet_id & planet0 & v & hp_count & Hc & Hv & Hp & ->)].
    + rewrite Hj. split; [intros planet' [= <-]; exact Hnonneg|eauto].
    + specialize (Hadd Hn v hp_count Hv Hp).
      destruct (decide (planet_id = j)) as [->|Hne].
      * rewrite lookup_insert_eq. rewrite Hj in Hc. injection Hc as <-.
        split; [intros planet' [= <-]; cbn; lia|eauto].
      * rewrite lookup_insert_ne, Hj by exact Hne.
        split; [intros planet' [= <-]; exact Hnonneg|eauto].
  - destruct (apply_damage_cache env event player s)
      as [->|(r & p & planet0 & planet_id & hp_count & _ & _ & Hc & Hp & ->)].
    + rewrite Hj. split; [intros planet' [= <-]; exact Hnonneg|eauto].
    + specialize (Hdamage Hn hp_count Hp).
      destruct (decide (planet_id = j)) as [->|Hne].
      * rewrite lookup_insert_eq. rewrite Hj in Hc. injection Hc as <-.
        split; [intros planet' [= <-]; apply damaged_nonneg; assumption|eauto].
      * rewrite lookup_insert_ne, Hj by exact Hne.
        split; [intros planet' [= <-]; exact Hnonneg|eauto].
Qed.
End Select.

(** * A message on its way into the handler queue *)

Lemma int_repr_length_le n :
  (String.length (int_repr n) <= 2 + Z.to_nat (Z.log2 (Z.abs n)))%nat.
Proof.
  unfold int_repr. destruct (Z.ltb_spec n 0) as [E|E].
  - cbn [String.length]. pose proof (digits_length (S (Z.to_nat (Z.log2 (- n)))) (- n)).
    replace (Z.abs n) with (- n) by lia. lia.
  - pose proof (digits_length (S (Z.to_nat (Z.log2 n))) n).
    replace (Z.abs n) with n by lia. lia.
Qed.

Lemma encode_msg_nonempty nm fields :
  exists e0 ev, encode_utf8 (dumps_val (msg nm fields)) = e0 :: ev.
Proof.
  unfold msg.
  change (dumps_val (VDict ((KStr "name", VStr nm) :: fields)))
    with (String "{" (pair_text dumps_val (KStr "name", VStr nm)
                      +:+ items_text "}" (pair_text dumps_val) fields)).
  cbn [encode_utf8]. eexists _, _. reflexivity.
Qed.

Lemma ClientEvent_msg lim r bytes nm fields :
  json_loads_bytes lim bytes = Ok (msg nm fields) ->
  ClientEvent lim r bytes
  = Ok (mkEvent (VStr nm) (dict_set fields (KStr "player") (VPlayer r))).
Proof.
  intros Hloads. unfold ClientEvent. rewrite Hloads. unfold msg. rewrite rbind_ok.
  unfold dict_item. cbn [dict_get dict_del].
  destruct (decide (KStr "name" = KStr "name")) as [_|Hn]; [|contradiction].
  reflexivity.
Qed.

Lemma pack_length_ok order n :
  0 <= n <= 2147483647 -> exists prefix, struct_pack_i order n = Ok prefix.
Proof.
  intros Hn. unfold struct_pack_i.
  destruct (_ && _) eqn:Hb; [eexists; reflexivity|].
  apply andb_false_iff in Hb as [Hb|Hb]; lia.
Qed.

Section Enqueue.
Variable env : collaborators.

Lemma wait_for_client_data_event s client r b0 prefix e0 ev n event :
  assoc_get (players s) client = Some r ->
  struct_unpack_i (native_order env) (b0 :: prefix) = Ok n ->
  0 <= n ->
  ClientEvent (limits env) r (e0 :: ev) = Ok event ->
  wait_for_client_data env client (b0 :: prefix) (e0 :: ev) s
  = (with_handler_queue (handler_queue s ++ [event]) s, Ok tt).
Proof.
  intros Hr Hu Hn Hc. unfold wait_for_client_data, bind, lift. rewrite Hu.
  destruct (Z.ltb_spec n 0) as [E|E]; [lia|].
  unfold gets. cbn [fst snd]. rewrite Hr. cbn [of_option]. rewrite Hc.
  reflexivity.
Qed.

(** A framed JSON object sent by a connected client is queued for the
    handler as the client event of its sender. *)
Lemma client_message_enqueued s client r nm fields :
  assoc_get (players s) client = Some r ->
  jsonable (msg nm fields) = true ->
  string_keyed (msg nm fields) = true ->
  readable (limits env) (msg nm fields) = true ->
  Z.of_nat (String.length (dumps_val (msg nm fields))) <= 2147483647 ->
  perform env (client_sends env client (msg nm fields)) s
  = with_handler_queue
      (handler_queue s
       ++ [mkEvent (VStr nm) (dict_set fields (KStr "player") (VPlayer r))]) s
  /\ (receiver_alive s = true -> client ∈ clients s ->
      enabled env (client_sends env client (msg nm fields)) s = true).
Proof.
  intros Hr Hj Hk Hfit Hlen. unfold client_sends, perform, enabled.
  assert (Hloads : json_loads_bytes (limits env) (encode_utf8 (dumps_val (msg nm fields)))
                   = Ok (msg nm fields)).
  { unfold msg. rewrite loads_bytes_dumps by assumption.
    f_equal. apply norm_string_keyed, Hk. }
  assert (Hbytes : length (encode_utf8 (dumps_val (msg nm fields)))
                   = String.length (dumps_val (msg nm fields)))
    by (apply ascii_text_length, ascii_dumps_val).
  destruct (encode_msg_nonempty nm fields) as (e0 & ev & Hev).
  revert Hlen Hloads Hbytes Hev.
  generalize (encode_utf8 (dumps_val (msg nm fields))) as bytes.
  generalize (String.length (dumps_val (msg nm fields))) as len.
  intros len bytes Hlen Hloads Hbytes Hev. subst bytes.
  destruct (pack_length_ok (native_order env) (Z.of_nat len)) as [prefix Hp];
    [lia|].
  rewrite Hp. destruct (unpack_pack _ _ _ Hp) as [H4 Hu].
  destruct prefix as [|b0 prefix]; [discriminate H4|].
  pose proof (wait_for_client_data_event s client r b0 prefix e0 ev _ _ Hr Hu
                ltac:(lia) (ClientEvent_msg (limits env) r _ nm fields Hloads)) as Hw.
  split.
  - unfold run_thread. rewrite Hw. reflexivity.
  - intros Ha Hin. rewrite Ha, bool_decide_eq_true_2 by exact Hin.
    rewrite H4, Hu, Hbytes, Z.leb_refl, Hw. reflexivity.
Qed.
End Enqueue.

(** * A run into the empty list of winners *)

Lemma run_app env l1 l2 : forall s, run env (l1 ++ l2) s = run env l2 (run env l1 s).
Proof. induction l1 as [|a l1 IH]; intros s; [reflexivity|apply IH]. Qed.

Lemma valid_app env l1 l2 : forall s,
  valid env (l1 ++ l2) s = valid env l1 s && valid env l2 (run env l1 s).
Proof.
  induction l1 as [|a l1 IH]; intros s; [reflexivity|].
  cbn [valid run app]. rewrite IH, andb_assoc. reflexivity.
Qed.

(** Replace [run e l s0], for the actions [l] at hand, by its value. *)
Ltac run_prefix :=
  match goal with
  | |- context [run ?e ?l (init 8)] =>
      let t := eval vm_compute in (run e l (init 8)) in
      let H := fresh "Hrun" in
      assert (H : run e l (init 8) = t) by (vm_compute; reflexivity);
      rewrite !H; clear H
  end.

Ltac run_handle :=
  match goal with
  | |- context [run ?e [Handle] ?s0] =>
      let t := eval vm_compute in (run e [Handle] s0) in
      let H := fresh "Hrun" in
      assert (H : run e [Handle] s0 = t) by (vm_compute; reflexivity);
      rewrite !H; clear H
  end.

Ltac valid_handle :=
  match goal with
  | |- context [valid ?e [Handle] ?s0] =>
      let t := eval vm_compute in (valid e [Handle] s0) in
      let H := fresh "Hvalid" in
      assert (H : valid e [Handle] s0 = t) by (vm_compute; reflexivity);
      rewrite !H; clear H
  end.

Lemma started_run_state env cache game_map n :
  MapGenerator_run env [1; 2] ∅ 0%nat = (cache, game_map, n) ->
  valid env (started_run env) (init 8) = true
  /\ run env (started_run env) (init 8) = started_state env cache game_map n.
Proof.
  intros Hgen.
  change (started_run env)
    with ([Accept 0%nat (addr 5000); Accept 1%nat (addr 5001);
           client_sends env 0 (msg "ready" [(KStr "ready", VBool true)]); Handle;
           client_sends env 1 (msg "ready" [(KStr "ready", VBool true)])]
          ++ [Handle]
          ++ [client_sends env 0 (msg "rendered" []); Handle;
              client_sends env 1 (msg "rendered" []); Handle]).
  rewrite !valid_app, !run_app.
  destruct env as [ios idg mg pi order [spare dumps digits]].
  cbn [MapGenerator_run] in Hgen.
  vm_compute in Hgen.
  destruct order; run_prefix; valid_handle; run_handle; rewrite !Hgen; vm_compute;
    split; reflexivity.
Qed.

Section Crash.
Variable env : collaborators.

(** A damage by a unit the sender does not hold changes nothing. *)
Lemma apply_damage_rejected s event r p planet planet_id unit_id hp_count x u :
  dict_get (payload event) (KStr "planet_id") = Some x -> py_int env x = Ok planet_id ->
  dict_get (payload event) (KStr "unit_id") = Some u -> py_int env u = Ok unit_id ->
  py_int env (default (VInt 1) (dict_get (payload event) (KStr "hp_count"))) = Ok hp_count ->
  heap s !! r = Some p ->
  Planet_cache s !! planet_id = Some planet ->
  unit_id ∉ Player.object_ids p ->
  apply_damage env event (VPlayer r) s = (s, Ok tt).
Proof.
  intros Hx Hpx Hu Hpu Hhp Hr Hc Hin.
  unfold apply_damage, bind, lift, dict_item, cache_item, as_player, ret, get_player.
  rewrite Hx. simpl. rewrite Hpx, Hu. simpl. rewrite Hpu, Hhp, Hc, Hr. simpl.
  unfold mem. rewrite bool_decide_eq_false_2 by exact Hin. reflexivity.
Qed.

Lemma handler_event s event queue :
  handler_queue s = event :: queue ->
  handler env s = handle env event (with_handler_queue queue s).
Proof. intros Hq. unfold handler, bind, gets. simpl. rewrite Hq. reflexivity. Qed.

Lemma damage_msg_length k :
  Z.abs k < 2 ^ 64 ->
  Z.of_nat (String.length (dumps_val (damage_msg k 0))) <= 2147483647.
Proof.
  intros Hk. unfold damage_msg, msg.
  cbn [dumps_val items_text pair_text dumps_key].
  cbn [String.length]. rewrite !length_append.
  pose proof (int_repr_length_le k) as Hl.
  assert (Z.log2 (Z.abs k) < 64).
  { destruct (Z.eq_dec (Z.abs k) 0) as [E|E]; [rewrite E; reflexivity|].
    apply Z.log2_lt_pow2; lia. }
  pose proof (Z.log2_nonneg (Z.abs k)).
  set (L := String.length (int_repr k)) in *. clearbody L.
  repeat match goal with
         | |- context [String.length ?t] =>
             let v := eval vm_compute in (String.length t) in
             change (String.length t) with v
         end.
  lia.
Qed.

Lemma damage_message_enqueued cache game_map n k :
  Z.abs k < 2 ^ 64 ->
  perform env (client_sends env 0 (damage_msg k 0)) (started_state env cache game_map n)
  = crash_state env cache game_map n k
  /\ enabled env (client_sends env 0 (damage_msg k 0)) (started_state env cache game_map n)
     = true.
Proof.
  intros Hsmall.
  assert (Hj : jsonable (damage_msg k 0) = true) by (vm_compute; reflexivity).
  assert (Hs : string_keyed (damage_msg k 0) = true) by reflexivity.
  assert (Hf : readable (limits env) (damage_msg k 0) = true).
  { pose proof (int_fits (limits env) k 0 Hsmall) as Hk.
    pose proof (int_fits (limits env) 0 0 ltac:(reflexivity)) as H0.
    cbn [fits] in Hk, H0.
    unfold readable, damage_msg, msg. cbn [fits forallb].
    rewrite Hk, H0. reflexivity. }
  assert (Hr : assoc_get (players (started_state env cache game_map n)) 0%nat = Some 0%nat)
    by reflexivity.
  destruct (client_message_enqueued env (started_state env cache game_map n) 0 0
              "damage" [(KStr "planet_id", VInt k); (KStr "unit_id", VInt 0)]
              Hr Hj Hs Hf (damage_msg_length k Hsmall)) as [Hperform Hen].
  split.
  - exact Hperform.
  - apply Hen; [reflexivity|]. apply elem_of_cons. left. reflexivity.
Qed.

Lemma enabled_step a s : enabled env a s = true -> step env s (perform env a s).
Proof.
  intros Ha. destruct a as [client address|client data_size event|]; simpl in *.
  - apply andb_true_iff in Ha as [H1 H2]. apply bool_decide_eq_true in H2.
    apply step_accept; assumption.
  - apply andb_true_iff in Ha as [Ha H5]. apply negb_true_iff in H5.
    apply andb_true_iff in Ha as [Ha H4]. apply andb_true_iff in Ha as [Ha H3].
    apply andb_true_iff in Ha as [H1 H2]. apply bool_decide_eq_true in H2.
    apply step_data; try assumption.
    + apply Nat.leb_le, H3.
    + intros n Hn. rewrite Hn in H4. lia.
  - apply andb_true_iff in Ha as [Ha H5]. apply negb_true_iff in H5.
    apply step_handle; assumption.
Qed.

Lemma crash_state_reachable cache game_map n k :
  MapGenerator_run env [1; 2] ∅ 0%nat = (cache, game_map, n) ->
  Z.abs k < 2 ^ 64 ->
  reachable env 8 (crash_state env cache game_map n k).
Proof.
  intros Hgen Hsmall.
  destruct (started_run_state env cache game_map n Hgen) as [Hvalid Hrun].
  destruct (damage_message_enqueued cache game_map n k Hsmall) as [Hperform Hen].
  unfold reachable. rewrite <- Hperform.
  apply (rtc_r _ (started_state env cache game_map n)).
  - rewrite <- Hrun. apply valid_run, Hvalid.
  - apply enabled_step, Hen.
Qed.

Lemma crash_state_handler cache game_map n k planet :
  cache !! k = Some planet ->
  handler env (crash_state env cache game_map n k)
  = (with_handler_queue [] (crash_state env cache game_map n k), Raise IndexError).
Proof.
  intros Hk.
  pose (ev := mkEvent (VStr EventName.DAMAGE)
                [(KStr "planet_id", VInt k); (KStr "unit_id", VInt 0);
                 (KStr "player", VPlayer 0)]).
  rewrite (handler_event _ ev []) by reflexivity.
  rewrite (handle_damage_event env _ ev (VPlayer 0)) by reflexivity.
  cbn [game_started with_handler_queue crash_state started_state].
  unfold handle_damage, bind.
  rewrite (apply_damage_rejected _ ev 0%nat
             (Player.mk (addr 5000) 1 (VBool true) true []) planet k 0 1
             (VInt k) (VInt 0)); try reflexivity; [exact Hk|apply not_elem_of_nil].
Qed.

(** Claim C3.  Whenever the map generator gives some planet [k] to two
    players, the server reaches a state of a started game in which a damage
    event is next in the handler queue and no current player holds a unit
    and owns a planet: the scan ends without a break on an empty
    [active_players], the handler's turn ends in [IndexError] and the
    handler thread is over. *)
Theorem game_over_index_error_reachable cache game_map n k planet :
  MapGenerator_run env [1; 2] ∅ 0%nat = (cache, game_map, n) ->
  cache !! k = Some planet ->
  Z.abs k < 2 ^ 64 ->
  exists s event queue ps,
    reachable env 8 s
    /\ handler_alive s = true
    /\ game_started s = true
    /\ handler_queue s = event :: queue
    /\ name event = VStr EventName.DAMAGE
    /\ current_players s = Some ps
    /\ List.filter (qualifies (Planet_cache s)) ps = []
    /\ scan_players (Planet_cache s) ps [] = ([], false)
    /\ handler env s = (with_handler_queue queue s, Raise IndexError)
    /\ step env s (with_handler_alive false (with_handler_queue queue s)).
Proof.
  intros Hgen Hk Hsmall.
  pose proof (crash_state_reachable cache game_map n k Hgen Hsmall) as Hreach.
  pose proof (crash_state_handler cache game_map n k planet Hk) as Hh.
  exists (crash_state env cache game_map n k),
    (mkEvent (VStr EventName.DAMAGE)
       [(KStr "planet_id", VInt k); (KStr "unit_id", VInt 0); (KStr "player", VPlayer 0)]),
    [],
    [Player.mk (addr 5000) 1 (VBool true) true [];
     Player.mk (addr 5001) 2 (VBool true) true []].
  split; [exact Hreach|]. do 7 (split; [reflexivity|]).
  split; [exact Hh|].
  replace (with_handler_alive false (with_handler_queue [] (crash_state env cache game_map n k)))
    with (run_thread (with_handler_alive false) (handler env)
            (crash_state env cache game_map n k)).
  - apply step_handle; [reflexivity|]. rewrite Hh. reflexivity.
  - unfold run_thread. rewrite Hh. reflexivity.
Qed.
End Crash.

(** * The statements on the sample runs *)

Ltac compute_eq := vm_compute; reflexivity.

(** The sample map generator gives every planet 10 units. *)
Lemma sample_map_counts ids cache n j planet :
  fst (fst (MapGenerator_run sample ids cache n)) !! j = Some planet ->
  Planet.units_count planet = 10.
Proof.
  cbn [MapGenerator_run sample sample_map fst]. intros H.
  apply elem_of_list_to_map_2 in H. apply elem_of_lookup_imap_1 in H as (i & pid & E & _).
  injection E as _ ->. reflexivity.
Qed.

(** *** C1 *)

Lemma damage_captures_planet_witness :
  Planet_cache (fst (handle sample (damage_event 0 1 3 7) capture_state)) !! 1
  = Some (Planet.mk (Some 1) 2)
  /\ heap (fst (handle sample (damage_event 0 1 3 7) capture_state)) !! 0%nat
     = Some (Player.with_object_ids [0; 1; 2; 4; 5; 6; 7; 8; 9]
               (Player.with_object_ids [0; 1; 2; 3; 4; 5; 6; 7; 8; 9] player_one)).
Proof.
  destruct (damage_captures_planet sample capture_state (damage_event 0 1 3 7) 0%nat
              (Player.with_object_ids [0; 1; 2; 3; 4; 5; 6; 7; 8; 9] player_one)
              (Planet.mk (Some 2) 5) 1 3 7 (VInt 1) (VInt 3))
    as (Hcache & _ & ids & Hids & Hheap & _).
  - compute_eq.
  - reflexivity.
  - reflexivity.
  - reflexivity.
  - reflexivity.
  - reflexivity.
  - reflexivity.
  - reflexivity.
  - compute_eq.
  - compute_eq.
  - apply (bool_decide_unpack _). vm_compute. exact I.
  - discriminate.
  - reflexivity.
  - split; [exact Hcache|].
    rewrite Hheap. vm_compute in Hids. injection Hids as <-. reflexivity.
Defined.

(** A damage handled while [game_started] is false changes nothing,
    although its sender holds the unit and the planet, another player's,
    has fewer units than the damage: the game ended while the event was
    waiting in the queue. *)
Lemma damage_dropped_when_not_started :
  valid sample game_over_run (init 8) = true
  /\ game_started game_over_sample = false
  /\ handler_queue game_over_sample = [damage_event 1 1 10 7]
  /\ heap game_over_sample !! 1%nat
     = Some (Player.with_object_ids [10; 11; 12; 13; 14] player_two)
  /\ Planet_cache game_over_sample !! 1 = Some (Planet.mk (Some 1) 2)
  /\ handle sample (damage_event 1 1 10 7) game_over_sample = (game_over_sample, Ok tt)
  /\ enabled sample Handle game_over_sample = true
  /\ Planet_cache (run sample [Handle] game_over_sample) !! 1
     = Some (Planet.mk (Some 1) 2)
  /\ heap (run sample [Handle] game_over_sample) !! 1%nat
     = Some (Player.with_object_ids [10; 11; 12; 13; 14] player_two).
Proof. repeat split; compute_eq. Qed.

(** *** C2 *)



(** *** C3 *)

Lemma game_over_index_error_reachable_witness :
  exists s event queue ps,
    reachable sample 8 s
    /\ handler_alive s = true
    /\ game_started s = true
    /\ handler_queue s = event :: queue
    /\ name event = VStr EventName.DAMAGE
    /\ current_players s = Some ps
    /\ List.filter (qualifies (Planet_cache s)) ps = []
    /\ scan_players (Planet_cache s) ps [] = ([], false)
    /\ handler sample s = (with_handler_queue queue s, Raise IndexError)
    /\ step sample s (with_handler_alive false (with_handler_queue queue s)).
Proof.
  apply (game_over_index_error_reachable sample
           (fst (fst (sample_map [1; 2] ∅ 0%nat)))
           (snd (fst (sample_map [1; 2] ∅ 0%nat)))
           (snd (sample_map [1; 2] ∅ 0%nat))
           0 (Planet.mk (Some 1) 10)).
  - reflexivity.
  - compute_eq.
  - reflexivity.
Defined.

(** *** C4 *)



(** *** C5 *)

(** A lone player who reports the map rendered starts the game: no map
    was generated, [readiness] is false. *)
Lemma game_started_without_readiness :
  valid sample [Accept 0 (addr 5000); client_sends sample 0 (msg "rendered" []); Handle]
    (init 8) = true
  /\ game_started
       (run sample [Accept 0 (addr 5000); client_sends sample 0 (msg "rendered" []); Handle]
          (init 8)) = true
  /\ readiness
       (run sample [Accept 0 (addr 5000); client_sends sample 0 (msg "rendered" []); Handle]
          (init 8)) = false
  /\ map_inits
       (run sample [Accept 0 (addr 5000); client_sends sample 0 (msg "rendered" []); Handle]
          (init 8)) = 0%nat.
Proof. repeat split; compute_eq. Qed.

Lemma game_started_set_by_rendered_witness :
  name (rendered_event 1) = VStr EventName.RENDERED
  /\ readiness (fst (handle sample (rendered_event 1) one_rendered_state))
     = readiness one_rendered_state
  /\ exists r p ps,
       dict_get (payload (rendered_event 1)) (KStr "player") = Some (VPlayer r)
       /\ heap one_rendered_state !! r = Some p
       /\ current_players
            (with_heap (<[r := Player.with_rendered true p]> (heap one_rendered_state))
               one_rendered_state) = Some ps
       /\ Forall (fun q => Player.rendered q = true) ps
       /\ handle sample (rendered_event 1) one_rendered_state
          = (with_game_started true
               (with_sender_queue
                  (sender_queue one_rendered_state
                   ++ [mkEvent (VStr EventName.GAME_STARTED) []])
                  (with_heap (<[r := Player.with_rendered true p]> (heap one_rendered_state))
                     one_rendered_state)),
             Ok tt).
Proof.
  apply (game_started_set_by_rendered sample one_rendered_state (rendered_event 1));
    compute_eq.
Defined.

(** *** C6 *)

(** A select of 200 percent, an add_hp with a negative [hp_count] and a
    damage with a negative [hp_count] on a planet of the sender each leave
    a planet with a negative count. *)
Lemma units_count_goes_negative :
  (valid sample (two_players_started ++ [sel 0 0 200; Handle]) (init 8) = true
   /\ Planet_cache started_sample !! 0 = Some (Planet.mk (Some 1) 10)
   /\ Planet_cache (run sample [sel 0 0 200; Handle] started_sample) !! 0
      = Some (Planet.mk (Some 1) (-10))
   /\ handler_alive (run sample [sel 0 0 200; Handle] started_sample) = true)
  /\ (valid sample (capture_run ++ [hp 0 0 (-4); Handle]) (init 8) = true
      /\ Planet_cache capture_state !! 0 = Some (Planet.mk (Some 1) 0)
      /\ Planet_cache (run sample [hp 0 0 (-4); Handle] capture_state) !! 0
         = Some (Planet.mk (Some 1) (-4)))
  /\ (valid sample (capture_run ++ [dmg 0 0 3 (-4); Handle]) (init 8) = true
      /\ Planet_cache (run sample [dmg 0 0 3 (-4); Handle] capture_state) !! 0
         = Some (Planet.mk (Some 1) (-4))).
Proof. repeat split; compute_eq. Qed.

Lemma units_count_stays_nonnegative_witness :
  (forall planet',
      Planet_cache (fst (handle sample (select_event 0 [0; 1; 0] 50) started_sample)) !! 0
      = Some planet' -> 0 <= Planet.units_count planet')
  /\ (forall planet',
        Planet_cache (fst (handle sample (damage_event 0 1 3 7) capture_state)) !! 1
        = Some planet' -> 0 <= Planet.units_count planet')
  /\ (forall planet',
        Planet_cache (fst (handle sample (add_hp_event 0 0 4) capture_state)) !! 0
        = Some planet' -> 0 <= Planet.units_count planet')
  /\ (forall planet',
        Planet_cache (fst (handle sample (ready_event 0) ready_state)) !! 0
        = Some planet' -> 0 <= Planet.units_count planet').
Proof.
  split; [|split; [|split]].
  - refine (proj1 (units_count_stays_nonnegative sample started_sample
                    (select_event 0 [0; 1; 0] 50) 0 (Planet.mk (Some 1) 10)
                    ltac:(compute_eq) ltac:(cbn; lia)
                    ltac:(intros H; discriminate H)
                    (fun _ v pct u count Hv Hp Hu Hc => _)
                    ltac:(intros H; discriminate H)
                    ltac:(intros H; discriminate H))).
    vm_compute in Hv. injection Hv as <-. vm_compute in Hp. injection Hp as <-.
    cbn [Planet.units_count] in Hu.
    assert (Hcases : u = 0 \/ u = 1 \/ u = 2 \/ u = 3 \/ u = 4 \/ u = 5 \/ u = 6
                     \/ u = 7 \/ u = 8 \/ u = 9 \/ u = 10) by lia.
    destruct Hcases as [->|[->|[->|[->|[->|[->|[->|[->|[->|[->| ->]]]]]]]]]];
      vm_compute in Hc; injection Hc as <-; lia.
  - refine (proj1 (units_count_stays_nonnegative sample capture_state
                    (damage_event 0 1 3 7) 1 (Planet.mk (Some 2) 5)
                    ltac:(compute_eq) ltac:(cbn; lia)
                    ltac:(intros H; discriminate H)
                    ltac:(intros H; discriminate H)
                    ltac:(intros H; discriminate H)
                    (fun _ hp_count Hp => _))).
    vm_compute in Hp. injection Hp as <-. lia.
  - refine (proj1 (units_count_stays_nonnegative sample capture_state
                    (add_hp_event 0 0 4) 0 (Planet.mk (Some 1) 0)
                    ltac:(compute_eq) ltac:(cbn; lia)
                    ltac:(intros H; discriminate H)
                    ltac:(intros H; discriminate H)
                    (fun _ v hp_count Hv Hp => _)
                    ltac:(intros H; discriminate H))).
    vm_compute in Hv. injection Hv as <-. vm_compute in Hp. injection Hp as <-. lia.
  - refine (proj1 (units_count_stays_nonnegative sample ready_state
                    (ready_event 0) 0 (Planet.mk (Some 1) 10)
                    ltac:(compute_eq) ltac:(cbn; lia)
                    (fun _ ids planet' Hc => _)
                    ltac:(intros H; discriminate H)
                    ltac:(intros H; discriminate H)
                    ltac:(intros H; discriminate H))).
    apply sample_map_counts in Hc. lia.
Defined.

(** *** C7 *)

(** A negative percentage: the count is -5, the planet gains 5 units and
    no unit id is minted. *)
Lemma select_negative_percentage :
  valid sample (two_players_started ++ [sel 0 0 (-50); Handle]) (init 8) = true
  /\ round_div_100 (10 * -50) = Ok (-5)
  /\ Planet_cache (run sample [sel 0 0 (-50); Handle] started_sample) !! 0
     = Some (Planet.mk (Some 1) 15)
  /\ heap (run sample [sel 0 0 (-50); Handle] started_sample) !! 0%nat = Some player_one
  /\ generated (run sample [sel 0 0 (-50); Handle] started_sample)
     = generated started_sample.
Proof. repeat split; compute_eq. Qed.

Lemma select_mints_units_witness :
  Planet_cache (fst (handle sample (select_event 0 [0; 1; 0] 50) started_sample)) !! 0
  = Some (Planet.mk (Some 1) 3)
  /\ Planet_cache (fst (handle sample (select_event 0 [0; 1; 0] 50) started_sample)) !! 1
     = Some (Planet.mk (Some 2) 10)
  /\ heap (fst (handle sample (select_event 0 [0; 1; 0] 50) started_sample)) !! 0%nat
     = Some (Player.with_object_ids [0; 1; 2; 3; 4; 5; 6] player_one)
  /\ last (sender_queue (fst (handle sample (select_event 0 [0; 1; 0] 50) started_sample)))
     = Some (mkEvent (VStr EventName.SELECT)
               [(KStr "selected", VDict [(KInt 0, VList [VInt 5; VInt 6])])]).
Proof.
  pose (final := mkSelection
                   (<[0 := Planet.mk (Some 1) 3]> (Planet_cache started_sample))
                   [0; 1; 2; 3; 4; 5; 6] 7 [(KInt 0, VList [VInt 5; VInt 6])]).
  destruct (select_mints_units sample started_sample (select_event 0 [0; 1; 0] 50)
              0%nat player_one (VList [VInt 0; VInt 1; VInt 0]) [VInt 0; VInt 1; VInt 0]
              [0; 1; 0] (VInt 50) 50 final) as [Hh _].
  - compute_eq.
  - reflexivity.
  - reflexivity.
  - compute_eq.
  - reflexivity.
  - reflexivity.
  - repeat constructor.
  - reflexivity.
  - reflexivity.
  - compute_eq.
  - rewrite Hh. repeat split; compute_eq.
Defined.

(** *** C8 *)



(** *** C9 *)

(** On a foreign planet with no unit left, a damage without [hp_count]
    takes the planet and its count goes up, from 0 to 1. *)
Lemma damage_without_hp_count_captures :
  valid sample (two_players_started ++ [sel 0 0 100; Handle; sel 1 1 100; Handle]) (init 8)
  = true
  /\ Planet_cache emptied_state !! 1 = Some (Planet.mk (Some 2) 0)
  /\ Planet_cache (fst (handle sample (plain_damage_event 0 1 3) emptied_state)) !! 1
     = Some (Planet.mk (Some 1) 1).
Proof. repeat split; compute_eq. Qed.

Lemma damage_without_hp_count_witness :
  handle sample (plain_damage_event 0 1 3) capture_state
  = handle sample
      (mkEvent (VStr EventName.DAMAGE)
         (dict_set (payload (plain_damage_event 0 1 3)) (KStr "hp_count") (VInt 1)))
      capture_state
  /\ Planet_cache (fst (handle sample (plain_damage_event 0 1 3) capture_state)) !! 1
     = Some (Planet.mk (Some 2) 4).
Proof.
  destruct (damage_without_hp_count sample capture_state (plain_damage_event 0 1 3))
    as [Heq Hcache].
  - reflexivity.
  - reflexivity.
  - split; [exact Heq|].
    destruct (Hcache 0%nat
                (Player.with_object_ids [0; 1; 2; 3; 4; 5; 6; 7; 8; 9] player_one)
                (Planet.mk (Some 2) 5) 1 3 (VInt 1) (VInt 3)) as (H & _ & Hdown & _).
    + compute_eq.
    + reflexivity.
    + reflexivity.
    + reflexivity.
    + reflexivity.
    + reflexivity.
    + compute_eq.
    + compute_eq.
    + apply (bool_decide_unpack _). vm_compute. exact I.
    + rewrite H. f_equal.
Defined.

(** *** C10 *)

Lemma player_ids_consecutive_witness :
  map Player.id (heap started_sample) = [1; 2]
  /\ next_player_id started_sample = 2.
Proof.
  destruct (player_ids_consecutive sample 8 started_sample 2%nat (addr 5002))
    as (Hids & Hnext & _).
  - apply valid_run. compute_eq.
  - split.
    + rewrite Hids. compute_eq.
    + rewrite Hnext. compute_eq.
Defined.

(** * More of the events, the handler and the receiver *)

(** ** [ClientEvent] and [ServerEvent.request] *)

(** X1.  Whatever a client sends, the event made from it carries the
    [Player] object of the connection under ['player'] (a ['player'] field
    of the message is overwritten), and its name is the message's
    ['name']. *)
Theorem client_event_tags_sender lim player bytes e :
  ClientEvent lim player bytes = Ok e ->
  dict_get (payload e) (KStr "player") = Some (VPlayer player)
  /\ exists d, json_loads_bytes lim bytes = Ok (VDict d)
               /\ dict_get d (KStr "name") = Some (name e).
Proof.
  unfold ClientEvent. intros H.
  destruct (json_loads_bytes lim bytes) as [v|err]; [|discriminate H].
  rewrite rbind_ok in H. destruct v as [| | | | |d|]; try discriminate H.
  unfold dict_item in H.
  destruct (dict_get d (KStr "name")) as [n|] eqn:Hn; [|discriminate H].
  cbn [of_option] in H. rewrite rbind_ok in H. injection H as <-. cbn [payload name].
  split; [apply dict_get_set_eq|]. exists d. split; [reflexivity|exact Hn].
Qed.

Lemma client_event_tags_sender_witness :
  let bytes := encode_utf8 (dumps_val (msg "move" [(KStr "player", VInt 7);
                                                    (KStr "unit_id", VInt 3)])) in
  dict_get (payload (mkEvent (VStr "move")
                       [(KStr "player", VPlayer 0); (KStr "unit_id", VInt 3)]))
    (KStr "player") = Some (VPlayer 0)
  /\ exists d, json_loads_bytes sample_limits bytes = Ok (VDict d)
               /\ dict_get d (KStr "name") = Some (VStr "move").
Proof.
  apply (client_event_tags_sender sample_limits 0%nat _
           (mkEvent (VStr "move") [(KStr "player", VPlayer 0); (KStr "unit_id", VInt 3)])).
  vm_compute. reflexivity.
Defined.

(** X2.  The length prefix of a frame is the number of bytes that follow
    it: [len(string)] counts characters, and the text [json.dumps] writes
    is ASCII, one byte each. *)
Theorem request_frame_length order e wire :
  request order e = Ok wire ->
  length wire = (4 + String.length (dumps_val (VDict (event_dict e))))%nat
  /\ struct_unpack_i order (take 4 wire) = Ok (Z.of_nat (length (drop 4 wire)))
  /\ drop 4 wire = encode_utf8 (dumps_val (VDict (event_dict e))).
Proof.
  unfold request, json_dumps. intros H.
  pose proof (ascii_text_length _ (ascii_dumps_val (VDict (event_dict e)))) as Hlen.
  set (text := dumps_val (VDict (event_dict e))) in *. clearbody text.
  destruct (serializable (VDict (event_dict e))); [|discriminate H].
  rewrite rbind_ok in H.
  destruct (struct_pack_i order _) as [prefix|err] eqn:Hp; [|discriminate H].
  rewrite rbind_ok in H. injection H as <-.
  destruct (unpack_pack _ _ _ Hp) as [H4 Hu].
  rewrite take_app_length' by (symmetry; exact H4).
  rewrite drop_app_length' by (symmetry; exact H4).
  rewrite length_app, H4, Hlen.
  split; [reflexivity|]. split; [exact Hu|reflexivity].
Qed.

Lemma request_frame_length_witness :
  length game_over_frame = 37%nat
  /\ struct_unpack_i LittleEndian (take 4 game_over_frame) = Ok 33.
Proof.
  destruct (request_frame_length LittleEndian
              (mkEvent (VStr EventName.GAME_OVER) [(KStr "winner", VInt 1)])
              game_over_frame)
    as (Hlen & Hu & _).
  - vm_compute. reflexivity.
  - split; [exact Hlen|exact Hu].
Defined.

(** ** The handler's other branches *)

Lemma dict_update_get_other (d2 : pydict) : forall (d1 : pydict) k,
  k ∉ map fst d2 -> dict_get (dict_update d1 d2) k = dict_get d1 k.
Proof.
  unfold dict_update. induction d2 as [|[k0 v0] d2 IH]; intros d1 k Hk; [reflexivity|].
  cbn [fold_left fst snd]. rewrite IH.
  - apply dict_get_set_ne. intros ->. apply Hk. cbn. left.
  - intros Hin. apply Hk. cbn. right. exact Hin.
Qed.

Lemma dict_update_get (d2 : pydict) : forall (d1 : pydict) k v,
  NoDup (map fst d2) -> dict_get d2 k = Some v ->
  dict_get (dict_update d1 d2) k = Some v.
Proof.
  induction d2 as [|[k0 v0] d2 IH]; intros d1 k v Hnd Hget; [discriminate Hget|].
  cbn [map fst] in Hnd. apply NoDup_cons in Hnd as [Hk0 Hnd].
  cbn [dict_get] in Hget.
  change (dict_update d1 ((k0, v0) :: d2)) with (dict_update (dict_set d1 k0 v0) d2).
  destruct (decide (k0 = k)) as [->|Hne].
  - injection Hget as ->. rewrite dict_update_get_other by exact Hk0.
    apply dict_get_set_eq.
  - apply IH; assumption.
Qed.

Lemma dict_get_serializable (d : pydict) k r :
  dict_get d k = Some (VPlayer r) -> serializable (VDict d) = false.
Proof.
  induction d as [|[k0 v0] d IH]; intros Hget; [discriminate Hget|].
  cbn [dict_get] in Hget. cbn [serializable forallb] in *.
  destruct (decide (k0 = k)) as [_|_].
  - injection Hget as ->. reflexivity.
  - rewrite (IH Hget). apply andb_false_r.
Qed.

Section Branches.
Variable env : collaborators.

(** X3.  Before the game has started, an event that is neither [ready] nor
    [rendered] changes nothing: move, select, add_hp and damage are
    dropped, as is any unknown name. *)
Theorem events_before_start_ignored s event player :
  game_started s = false ->
  dict_get (payload event) (KStr "player") = Some player ->
  is_str (name event) EventName.READY = false ->
  is_str (name event) EventName.RENDERED = false ->
  handle env event s = (s, Ok tt)
  /\ (handler_queue s = [event] -> handler env s = (with_handler_queue [] s, Ok tt)).
Proof.
  intros Hs Hp H1 H2.
  assert (H : forall s0, game_started s0 = false -> handle env event s0 = (s0, Ok tt)).
  { intros s0 Hs0. unfold handle, bind, lift, dict_item, gets, ret.
    rewrite Hp, H1, H2. cbn [of_option fst snd]. rewrite Hs0. reflexivity. }
  split; [apply H, Hs|].
  intros Hq. rewrite (handler_event env s event []) by exact Hq. apply H. exact Hs.
Qed.

(** X4.  In a started game, [add_hp] adds [hp_count] (whatever its sign) to
    a planet of the sender and queues the event itself for broadcast; on a
    planet of somebody else it does nothing. *)
Theorem add_hp_only_on_own_planet s event r p planet planet_id hp_count x h :
  game_started s = true ->
  name event = VStr EventName.ADD_HP ->
  dict_get (payload event) (KStr "player") = Some (VPlayer r) ->
  dict_get (payload event) (KStr "planet_id") = Some x -> py_int env x = Ok planet_id ->
  dict_get (payload event) (KStr "hp_count") = Some h -> py_int env h = Ok hp_count ->
  heap s !! r = Some p ->
  Planet_cache s !! planet_id = Some planet ->
  handle env event s
  = (if decide (Planet.owner planet = Some (Player.id p)) then
       with_sender_queue (sender_queue s ++ [mkEvent (name event) (payload event)])
         (with_Planet_cache
            (<[planet_id := Planet.with_units_count
                              (Planet.units_count planet + hp_count) planet]>
               (Planet_cache s)) s)
     else s, Ok tt).
Proof.
  intros Hs Hn Hp Hx Hpx Hh Hph Hr Hc.
  rewrite (handle_started env s event (VPlayer r) Hp Hs) by (rewrite Hn; reflexivity).
  rewrite Hn. cbn [is_str]. 
  change (String.eqb EventName.ADD_HP EventName.MOVE) with false.
  change (String.eqb EventName.ADD_HP EventName.SELECT) with false.
  change (String.eqb EventName.ADD_HP EventName.ADD_HP) with true.
  cbv iota. rewrite <- Hn.
  unfold handle_add_hp, bind, lift, dict_item, cache_item, as_player, ret, get_player.
  rewrite Hx. cbn [of_option]. rewrite Hpx, Hh. cbn [of_option]. rewrite Hph.
  cbn [fst snd]. rewrite Hc, Hr. cbn [of_option]. rewrite owned_by_spec.
  destruct (decide (Planet.owner planet = Some (Player.id p))) as [Ho|Ho].
  - rewrite bool_decide_eq_true_2 by exact Ho.
    unfold update_planet, notify, modify. cbn [fst snd].
    rewrite (alter_lookup_insert _ _ _ _ Hc). reflexivity.
  - rewrite bool_decide_eq_false_2 by exact Ho. reflexivity.
Qed.

(** X5.  In a started game, a [move] whose unit the sender holds is queued
    for broadcast with its own payload and nothing else changes; any other
    [move] changes nothing.  The payload still holds the [Player] object,
    so [request] of the queued event raises [TypeError]. *)
Theorem move_rebroadcast_not_serializable s event r p u unit_id :
  game_started s = true ->
  name event = VStr EventName.MOVE ->
  NoDup (map fst (payload event)) ->
  dict_get (payload event) (KStr "player") = Some (VPlayer r) ->
  dict_get (payload event) (KStr "unit_id") = Some u -> py_int env u = Ok unit_id ->
  heap s !! r = Some p ->
  handle env event s
  = (if decide (unit_id ∈ Player.object_ids p) then
       with_sender_queue (sender_queue s ++ [mkEvent (name event) (payload event)]) s
     else s, Ok tt)
  /\ forall order, request order (mkEvent (name event) (payload event)) = Raise TypeError.
Proof.
  intros Hs Hn Hnd Hp Hu Hpu Hr. split.
  - rewrite (handle_started env s event (VPlayer r) Hp Hs) by (rewrite Hn; reflexivity).
    rewrite Hn. cbn [is_str].
    change (String.eqb EventName.MOVE EventName.MOVE) with true.
    cbv iota. rewrite <- Hn.
    unfold handle_move, bind, lift, dict_item, as_player, ret, get_player.
    rewrite Hu. cbn [of_option]. rewrite Hpu. cbn [fst snd]. rewrite Hr.
    cbn [of_option]. unfold mem.
    destruct (decide (unit_id ∈ Player.object_ids p)) as [Hin|Hin].
    + rewrite bool_decide_eq_true_2 by exact Hin. reflexivity.
    + rewrite bool_decide_eq_false_2 by exact Hin. reflexivity.
  - intros order. unfold request, json_dumps.
    rewrite (dict_get_serializable _ (KStr "player") r); [reflexivity|].
    unfold event_dict. cbn [payload name]. apply dict_update_get; assumption.
Qed.
End Branches.

Lemma events_before_start_ignored_witness :
  handle sample (damage_event 0 1 3 7) ready_state = (ready_state, Ok tt).
Proof.
  refine (proj1 (events_before_start_ignored sample ready_state (damage_event 0 1 3 7)
                   (VPlayer 0) _ _ _ _)).
  - vm_compute. reflexivity.
  - reflexivity.
  - reflexivity.
  - reflexivity.
Defined.

Lemma add_hp_only_on_own_planet_witness :
  fst (handle sample (add_hp_event 0 0 (-4)) capture_state)
  = with_sender_queue (sender_queue capture_state ++ [add_hp_event 0 0 (-4)])
      (with_Planet_cache (<[0 := Planet.mk (Some 1) (-4)]> (Planet_cache capture_state))
         capture_state)
  /\ handle sample (add_hp_event 0 1 3) capture_state = (capture_state, Ok tt).
Proof.
  split.
  - rewrite (add_hp_only_on_own_planet sample capture_state (add_hp_event 0 0 (-4)) 0%nat
               (Player.with_object_ids [0; 1; 2; 3; 4; 5; 6; 7; 8; 9] player_one)
               (Planet.mk (Some 1) 0) 0 (-4) (VInt 0) (VInt (-4)));
      try reflexivity; vm_compute; reflexivity.
  - rewrite (add_hp_only_on_own_planet sample capture_state (add_hp_event 0 1 3) 0%nat
               (Player.with_object_ids [0; 1; 2; 3; 4; 5; 6; 7; 8; 9] player_one)
               (Planet.mk (Some 2) 5) 1 3 (VInt 1) (VInt 3));
      try reflexivity; vm_compute; reflexivity.
Defined.

Lemma move_rebroadcast_not_serializable_witness :
  sender_queue (fst (handle sample (move_event 0 3) capture_state))
  = sender_queue capture_state ++ [move_event 0 3]
  /\ request LittleEndian (move_event 0 3) = Raise TypeError.
Proof.
  destruct (move_rebroadcast_not_serializable sample capture_state (move_event 0 3) 0%nat
              (Player.with_object_ids [0; 1; 2; 3; 4; 5; 6; 7; 8; 9] player_one)
              (VInt 3) 3) as [Hh Hr].
  - vm_compute. reflexivity.
  - reflexivity.
  - apply (bool_decide_unpack _). vm_compute. exact I.
  - reflexivity.
  - reflexivity.
  - reflexivity.
  - vm_compute. reflexivity.
  - split; [|apply Hr]. rewrite Hh. vm_compute. reflexivity.
Defined.

(** ** Select leaves the planets of the others alone *)

Section SelectForeign.
Variable env : collaborators.
Variables (r : nat) (id j : Z) (planet : Planet.t).
Hypothesis Hforeign : Planet.owner planet <> Some id.

Lemma select_planet_foreign percentage punits v s :
  foreign_kept r id j planet s ->
  foreign_kept r id j planet (fst (select_planet env (VPlayer r) percentage punits v s)).
Proof.
  intros [(p & Hr & Hid) Hc].
  assert (Hkeep : foreign_kept r id j planet s) by (split; [exists p; split|]; assumption).
  unfold select_planet, bind, lift, cache_item, as_player, ret, get_player.
  destruct (py_int env v) as [planet_id|err]; [|exact Hkeep]. cbn [fst snd].
  destruct (Planet_cache s !! planet_id) as [pl|] eqn:Hpl; [|exact Hkeep].
  cbn [of_option]. rewrite Hr. cbn [of_option]. rewrite owned_by_spec.
  destruct (decide (Planet.owner pl = Some (Player.id p))) as [Ho|Ho].
  2:{ rewrite bool_decide_eq_false_2 by exact Ho. exact Hkeep. }
  rewrite bool_decide_eq_true_2 by exact Ho.
  assert (Hne : planet_id <> j).
  { intros ->. rewrite Hc in Hpl. injection Hpl as <-. apply Hforeign. congruence. }
  destruct (py_int env percentage) as [pct|err]; [|exact Hkeep]. cbn [fst snd].
  destruct (round_div_100 (Planet.units_count pl * pct)) as [count|err]; [|exact Hkeep].
  unfold update_planet, next_ids, update_player, modify. cbn [fst snd heap with_generated
    with_Planet_cache Planet_cache].
  rewrite Hr. cbn [fst snd].
  split.
  - cbn [heap with_heap]. rewrite list_lookup_insert_eq by (eapply lookup_lt_Some, Hr).
    eexists. split; [reflexivity|exact Hid].
  - cbn [Planet_cache with_heap with_generated with_Planet_cache].
    rewrite lookup_alter_ne by exact Hne. exact Hc.
Qed.

Lemma select_loop_foreign percentage planet_ids : forall punits s,
  foreign_kept r id j planet s ->
  foreign_kept r id j planet
    (fst (select_loop env (VPlayer r) percentage planet_ids punits s)).
Proof.
  induction planet_ids as [|v rest IH]; intros punits s Hkeep; [exact Hkeep|].
  cbn [select_loop]. unfold bind.
  pose proof (select_planet_foreign percentage punits v s Hkeep) as H1.
  destruct (select_planet env (VPlayer r) percentage punits v s) as [s1 [punits1|err]].
  - apply IH. exact H1.
  - exact H1.
Qed.

(** X6.  A select event never changes a planet the sender does not own,
    whatever planets it names and however it ends. *)
Theorem select_keeps_foreign_planets s event p :
  name event = VStr EventName.SELECT ->
  dict_get (payload event) (KStr "player") = Some (VPlayer r) ->
  heap s !! r = Some p ->
  Player.id p = id ->
  Planet_cache s !! j = Some planet ->
  Planet_cache (fst (handle env event s)) !! j = Some planet.
Proof.
  intros Hn Hp Hr Hid Hc.
  assert (Hkeep : foreign_kept r id j planet s) by (split; [exists p; split|]; assumption).
  unfold handle, bind, lift, dict_item, gets, ret.
  rewrite Hp, Hn. cbn [of_option is_str fst snd].
  change (String.eqb EventName.SELECT EventName.READY) with false.
  change (String.eqb EventName.SELECT EventName.RENDERED) with false.
  change (String.eqb EventName.SELECT EventName.MOVE) with false.
  change (String.eqb EventName.SELECT EventName.SELECT) with true.
  cbv iota. cbn [fst snd].
  destruct (game_started s); [|exact Hc].
  unfold handle_select, bind, lift, dict_item.
  destruct (dict_get (payload event) (KStr "from")) as [ids|]; [|exact Hc].
  cbn [of_option fst snd].
  destruct (dict_get (payload event) (KStr "percentage")) as [percentage|]; [|exact Hc].
  cbn [of_option fst snd].
  destruct (py_iter ids) as [planet_ids|err]; [|exact Hc]. cbn [fst snd].
  pose proof (select_loop_foreign percentage planet_ids [] s Hkeep) as [_ H1].
  destruct (select_loop env (VPlayer r) percentage planet_ids [] s) as [s1 [punits|err]].
  - exact H1.
  - exact H1.
Qed.
End SelectForeign.

Lemma select_keeps_foreign_planets_witness :
  Planet_cache
    (fst (handle sample
            (mkEvent (VStr EventName.SELECT)
               [(KStr "from", VList [VInt 0; VInt 1]); (KStr "percentage", VInt 100);
                (KStr "player", VPlayer 0)])
            started_sample)) !! 1
  = Some (Planet.mk (Some 2) 10).
Proof.
  apply (select_keeps_foreign_planets sample 0%nat 1 1 (Planet.mk (Some 2) 10)) with
    (p := player_one).
  - discriminate.
  - reflexivity.
  - reflexivity.
  - vm_compute. reflexivity.
  - reflexivity.
  - vm_compute. reflexivity.
Defined.

(** ** The clients and the players dictionary *)

Lemma list_remove_NoDup {A} `{EqDecision A} (x : A) : forall l l',
  NoDup l -> list_remove x l = Some l' ->
  NoDup l' /\ (forall y, y ∈ l' <-> y ∈ l /\ y <> x) /\ length l = S (length l').
Proof.
  induction l as [|a l IH]; intros l' Hnd Hrm; [discriminate Hrm|].
  apply NoDup_cons in Hnd as [Ha Hnd]. cbn [list_remove] in Hrm.
  destruct (decide (a = x)) as [->|Hne].
  - injection Hrm as <-. split; [exact Hnd|]. split; [|reflexivity].
    intros y. rewrite elem_of_cons. split.
    + intros Hy. split; [right; exact Hy|]. intros ->. exact (Ha Hy).
    + intros [[->|Hy] Hyx]; [contradiction|exact Hy].
  - destruct (list_remove x l) as [l0|] eqn:E; [|discriminate Hrm].
    injection Hrm as <-. destruct (IH l0 Hnd eq_refl) as (Hnd0 & Hin0 & Hlen0).
    split; [|split].
    + apply NoDup_cons. split; [|exact Hnd0]. rewrite Hin0. intros [Hal _]. exact (Ha Hal).
    + intros y. rewrite !elem_of_cons, Hin0. split.
      * intros [->|[Hy Hyx]]; [split; [left; reflexivity|exact Hne]|].
        split; [right; exact Hy|exact Hyx].
      * intros [[->|Hy] Hyx]; [left; reflexivity|right; split; assumption].
    + cbn [length]. rewrite Hlen0. reflexivity.
Qed.

Lemma assoc_del_keys d k d' :
  assoc_del d k = Some d' -> list_remove k (map fst d) = Some (map fst d').
Proof.
  revert d'. induction d as [|[k0 v0] d IH]; intros d' Hdel; [discriminate Hdel|].
  cbn [assoc_del] in Hdel. cbn [map fst list_remove].
  destruct (decide (k0 = k)) as [->|Hne].
  - injection Hdel as <-. reflexivity.
  - destruct (assoc_del d k) as [d0|]; [|discriminate Hdel]. injection Hdel as <-.
    rewrite (IH d0 eq_refl). reflexivity.
Qed.

Lemma assoc_del_is_Some d k : k ∈ map fst d -> is_Some (assoc_del d k).
Proof.
  induction d as [|[k0 v0] d IH]; intros Hin; [inversion Hin|].
  cbn [assoc_del]. destruct (decide (k0 = k)) as [->|Hne]; [eexists; reflexivity|].
  cbn [map fst] in Hin. apply elem_of_cons in Hin as [->|Hin]; [contradiction|].
  destruct (IH Hin) as [d0 ->]. eexists; reflexivity.
Qed.

Lemma assoc_get_keys d k : is_Some (assoc_get d k) <-> k ∈ map fst d.
Proof.
  induction d as [|[k0 v0] d IH]; cbn [assoc_get map fst].
  - split; [intros [x Hx]; discriminate Hx|intros H; inversion H].
  - rewrite elem_of_cons. destruct (decide (k0 = k)) as [->|Hne].
    + split; [intros _; left; reflexivity|intros _; eexists; reflexivity].
    + rewrite IH. split; [intros H; right; exact H|].
      intros [->|H]; [contradiction|exact H].
Qed.


Lemma assoc_set_keys d k v : k ∉ map fst d -> map fst (assoc_set d k v) = map fst d ++ [k].
Proof.
  induction d as [|[k0 v0] d IH]; intros Hk; [reflexivity|].
  cbn [assoc_set]. cbn [map fst] in Hk.
  destruct (decide (k0 = k)) as [->|Hne]; [exfalso; apply Hk; left|].
  cbn [map fst app]. rewrite IH; [reflexivity|]. intros Hin. apply Hk. right. exact Hin.
Qed.

Lemma assoc_set_keys_in d k v : k ∈ map fst d -> map fst (assoc_set d k v) = map fst d.
Proof.
  induction d as [|[k0 v0] d IH]; intros Hk; [inversion Hk|].
  cbn [assoc_set]. cbn [map fst] in Hk.
  destruct (decide (k0 = k)) as [->|Hne]; [reflexivity|].
  cbn [map fst]. rewrite IH; [reflexivity|].
  apply elem_of_cons in Hk as [->|Hk]; [contradiction|exact Hk].
Qed.

Lemma connected_init max : connected (init max).
Proof.
  split; cbn; [apply NoDup_nil_2|apply NoDup_nil_2|intros c Hc; exact Hc|lia].
Qed.

Lemma connected_session_kept s s' : session_kept s s' -> connected s -> connected s'.
Proof.
  intros [Hmax [[Hc Hp]|[Hc Hp]]] [H1 H2 H3 H4].
  - split; rewrite ?Hmax, ?Hc, ?Hp; assumption.
  - split; rewrite ?Hmax, ?Hc, ?Hp.
    + apply NoDup_nil_2.
    + apply NoDup_nil_2.
    + intros c Hin. exact Hin.
    + cbn. lia.
Qed.

#[local] Instance session_kept_reflexive : Reflexive session_kept.
Proof. intros s. split; [reflexivity|left; split; reflexivity]. Qed.

#[local] Instance session_kept_transitive : Transitive session_kept.
Proof.
  intros s1 s2 s3 [Hm1 H1] [Hm2 H2]. split; [congruence|].
  destruct H2 as [[Hc Hp]|[Hc Hp]]; [|right; split; assumption].
  destruct H1 as [[Hc1 Hp1]|[Hc1 Hp1]]; [left|right]; split; congruence.
Qed.

Ltac session_prim :=
  idtac; first
    [ apply (preserves_modify session_kept); intros ?;
      (split; [reflexivity|left; split; reflexivity]); fail
    | intros ?; unfold session_kept, notify, update_planet, modify; cbn;
      (split; [reflexivity|left; split; reflexivity]); fail
    | intros ?; unfold session_kept, next_ids; cbn;
      (split; [reflexivity|left; split; reflexivity]); fail
    | intros ?; unfold session_kept, update_player; destruct (heap _ !! _); cbn;
      (split; [reflexivity|left; split; reflexivity]) ].

Section Session.
Variable env : collaborators.

Lemma session_handle_ready event player :
  preserves session_kept (handle_ready env event player).
Proof. unfold handle_ready. pres ltac:(session_prim). Qed.

Lemma session_handle_rendered player : preserves session_kept (handle_rendered player).
Proof. unfold handle_rendered. pres ltac:(session_prim). Qed.

Lemma session_handle_move event player :
  preserves session_kept (handle_move env event player).
Proof. unfold handle_move. pres ltac:(session_prim). Qed.

Lemma session_select_planet player pct punits v :
  preserves session_kept (select_planet env player pct punits v).
Proof. unfold select_planet. pres ltac:(session_prim). Qed.

Lemma session_select_loop player pct l : forall punits,
  preserves session_kept (select_loop env player pct l punits).
Proof.
  induction l as [|v l IH]; intros punits; simpl; [apply (preserves_ret session_kept)|].
  refine (preserves_bind session_kept _ _ _ _);
    [apply session_select_planet|intros; apply IH].
Qed.

Lemma session_handle_select event player :
  preserves session_kept (handle_select env event player).
Proof.
  unfold handle_select. pres ltac:(first [apply session_select_loop | session_prim]).
Qed.

Lemma session_handle_add_hp event player :
  preserves session_kept (handle_add_hp env event player).
Proof. unfold handle_add_hp. pres ltac:(session_prim). Qed.

Lemma session_apply_damage event player :
  preserves session_kept (apply_damage env event player).
Proof. unfold apply_damage. pres ltac:(session_prim). Qed.

Lemma session_check_game_over : preserves session_kept check_game_over.
Proof.
  intros s. unfold check_game_over, bind, player_values, gets, lift, notify, modify.
  destruct (mapM _ _) as [ps|]; simpl; [|reflexivity].
  destruct (scan_players _ _ _) as [active [|]]; simpl; [reflexivity|].
  destruct (head active); simpl; [|reflexivity].
  split; [reflexivity|right; split; reflexivity].
Qed.

Lemma session_handle event : preserves session_kept (handle env event).
Proof.
  unfold handle, handle_damage.
  pres ltac:(first [ apply session_handle_ready | apply session_handle_rendered
                   | apply session_handle_move | apply session_handle_select
                   | apply session_handle_add_hp | apply session_apply_damage
                   | apply session_check_game_over ]).
Qed.

Lemma session_handler : preserves session_kept (handler env).
Proof. unfold handler. pres ltac:(first [apply session_handle | session_prim]). Qed.
End Session.

Section Connected.
Variable env : collaborators.

Lemma remove_client_connected client s :
  connected s ->
  connected (fst (remove_client client s))
  /\ max_clients_count (fst (remove_client client s)) = max_clients_count s.
Proof.
  intros [H1 H2 H3 H4]. unfold remove_client, bind, gets, lift, modify. cbn [fst snd].
  destruct (list_remove client (clients s)) as [cs|] eqn:Hcs; cbn [of_option fst snd].
  2:{ split; [split; assumption|reflexivity]. }
  assert (Hin : client ∈ map fst (players s)).
  { apply H3. eapply list_remove_elem_of, Hcs. }
  destruct (assoc_del_is_Some _ _ Hin) as [ps Hps].
  change (players (with_clients cs s)) with (players s). rewrite Hps.
  cbn [of_option fst snd].
  destruct (list_remove_NoDup client _ _ H1 Hcs) as (Hnd & Hiff & Hlen).
  destruct (list_remove_NoDup client _ _ H2 (assoc_del_keys _ _ _ Hps))
    as (Hnd' & Hiff' & _).
  split; [|reflexivity]. split; cbn.
  - exact Hnd.
  - exact Hnd'.
  - intros c. rewrite Hiff, Hiff'. intros [Hc Hne]. split; [apply H3, Hc|exact Hne].
  - lia.
Qed.

Lemma wait_for_client_data_connected client data_size event s :
  connected s ->
  connected (fst (wait_for_client_data env client data_size event s))
  /\ max_clients_count (fst (wait_for_client_data env client data_size event s))
     = max_clients_count s.
Proof.
  intros Hc. unfold wait_for_client_data.
  destruct data_size as [|b bs]; [apply remove_client_connected, Hc|].
  unfold bind, lift. destruct (struct_unpack_i _ _) as [n|e]; cbn [fst snd]; [|auto].
  destruct (n <? 0); cbn [raise fst snd]; [auto|].
  destruct event as [|e0 ev]; [apply remove_client_connected, Hc|].
  unfold gets. cbn [fst snd]. destruct (assoc_get _ _) as [r|]; cbn [of_option]; [|auto].
  destruct (ClientEvent _ _) as [ce|e]; cbn [fst snd modify]; [|auto].
  destruct Hc as [H1 H2 H3 H4]. split; [split; assumption|reflexivity].
Qed.

Lemma wait_for_client_connected client address s :
  client ∉ clients s -> connected s ->
  connected (fst (wait_for_client env client address s))
  /\ max_clients_count (fst (wait_for_client env client address s)) = max_clients_count s.
Proof.
  intros Hfresh Hc. unfold wait_for_client, bind, gets, modify, notify. cbn [fst snd].
  destruct (negb (game_started s) && negb (readiness s)
            && (Z.of_nat (length (clients s)) <? max_clients_count s)) eqn:Hopen;
    cbn [fst snd]; [|auto].
  apply andb_true_iff in Hopen as [_ Hlt]. apply Z.ltb_lt in Hlt.
  destruct Hc as [H1 H2 H3 H4]. split; [|reflexivity].
  split; cbn.
  - apply NoDup_app. split; [exact H1|]. split; [|apply NoDup_singleton].
    intros x Hx Hx'. apply list_elem_of_singleton in Hx'. subst x. exact (Hfresh Hx).
  - destruct (decide (client ∈ map fst (players s))) as [Hk|Hk].
    + rewrite assoc_set_keys_in by exact Hk. exact H2.
    + rewrite assoc_set_keys by exact Hk.
      apply NoDup_app. split; [exact H2|]. split; [|apply NoDup_singleton].
      intros x Hx Hx'. apply list_elem_of_singleton in Hx'. subst x. exact (Hk Hx).
  - intros c Hc. apply elem_of_app in Hc as [Hc|Hc].
    + destruct (decide (client ∈ map fst (players s))) as [Hk|Hk].
      * rewrite assoc_set_keys_in by exact Hk. apply H3, Hc.
      * rewrite assoc_set_keys by exact Hk. apply elem_of_app. left. apply H3, Hc.
    + apply list_elem_of_singleton in Hc. subst c.
      destruct (decide (client ∈ map fst (players s))) as [Hk|Hk].
      * rewrite assoc_set_keys_in by exact Hk. exact Hk.
      * rewrite assoc_set_keys by exact Hk. apply elem_of_app. right.
        apply list_elem_of_singleton. reflexivity.
  - rewrite length_app. cbn [length]. lia.
Qed.

Lemma connected_flags s s' :
  clients s' = clients s -> players s' = players s ->
  max_clients_count s' = max_clients_count s -> connected s -> connected s'.
Proof. intros Hc Hp Hm [H1 H2 H3 H4]. split; rewrite ?Hc, ?Hp, ?Hm; assumption. Qed.

Lemma connected_step s s' :
  step env s s' ->
  connected s -> connected s' /\ max_clients_count s' = max_clients_count s.
Proof.
  intros Hstep Hc. destruct Hstep as [s client address Ha Hfresh
                                     | s client data_size event Ha Hin Hlen Hrecv
                                     | s Ha]; unfold run_thread.
  - destruct (wait_for_client_connected client address s Hfresh Hc) as [H1 H2].
    destruct (wait_for_client env client address s) as [s1 [[]|e]]; cbn [fst] in *.
    + split; assumption.
    + split; [eapply connected_flags; [..|exact H1]; reflexivity|exact H2].
  - destruct (wait_for_client_data_connected client data_size event s Hc) as [H1 H2].
    destruct (wait_for_client_data env client data_size event s) as [s1 [[]|e]];
      cbn [fst] in *.
    + split; assumption.
    + split; [eapply connected_flags; [..|exact H1]; reflexivity|exact H2].
  - pose proof (session_handler env s) as Hk.
    destruct (handler env s) as [s1 [[]|e]]; cbn [fst] in *.
    + split; [eapply connected_session_kept; eassumption|apply Hk].
    + split; [|apply Hk].
      eapply connected_flags; [..|eapply connected_session_kept; eassumption]; reflexivity.
Qed.

Lemma reachable_connected max s :
  reachable env max s -> connected s /\ max_clients_count s = max.
Proof.
  intros H. unfold reachable in H.
  apply (rtc_ind_r (R := step env)
           (fun s => connected s /\ max_clients_count s = max) (init max));
    [split; [apply connected_init|reflexivity]| |exact H].
  intros y z _ Hstep [Hy Hmax]. destruct (connected_step y z Hstep Hy) as [Hz Hm].
  split; [exact Hz|congruence].
Qed.


End Connected.



(** ** What the receiver does with a frame *)

Section Frames.
Variable env : collaborators.

Lemma connected_player max s client :
  reachable env max s -> client ∈ clients s ->
  exists r, assoc_get (players s) client = Some r /\ (r < length (heap s))%nat.
Proof.
  intros H Hin. destruct (reachable_connected env max s H) as [[_ _ H3 _] _].
  apply H3, assoc_get_keys in Hin as [r Hr]. exists r. split; [exact Hr|].
  apply (live_players s (reachable_consistent env max s H) client).
  clear -Hr. induction (players s) as [|[k0 v0] d IH]; [discriminate Hr|].
  cbn [assoc_get] in Hr. destruct (decide (k0 = client)) as [->|Hne].
  - injection Hr as ->. left.
  - right. apply IH, Hr.
Qed.


(** X10.  A frame from a connected client whose payload is within the
    model's JSON and is not a JSON object with a ['name'] raises in the
    receiver: the thread is over with the state as it was, and no
    connection or frame is taken any more. *)
Theorem receiver_stops_on_bad_frame max s client data_size event n :
  reachable env max s ->
  client ∈ clients s ->
  struct_unpack_i (native_order env) data_size = Ok n -> 0 <= n ->
  event <> [] ->
  json_loads_bytes (limits env) event <> Raise Unmodelled ->
  (forall d, json_loads_bytes (limits env) event = Ok (VDict d) ->
             dict_get d (KStr "name") = None) ->
  let s' := run_thread (with_receiver_alive false)
              (wait_for_client_data env client data_size event) s in
  s' = with_receiver_alive false s
  /\ (exists err, snd (wait_for_client_data env client data_size event s) = Raise err
                  /\ err <> Unmodelled)
  /\ forall a, a <> Handle -> enabled env a s' = false.
Proof.
  intros H Hin Hu Hn He Hmodel Hbad.
  destruct (connected_player max s client H Hin) as (r & Hr & _).
  destruct data_size as [|b0 prefix]; [discriminate Hu|].
  destruct event as [|e0 ev]; [contradiction|].
  assert (Hc : exists err, ClientEvent (limits env) r (e0 :: ev) = Raise err
                           /\ err <> Unmodelled).
  { unfold ClientEvent.
    destruct (json_loads_bytes (limits env) (e0 :: ev)) as [v|err] eqn:Hj.
    - rewrite rbind_ok.
      destruct v as [| | | | |d|]; try (eexists; split; [reflexivity|discriminate]).
      unfold dict_item. rewrite (Hbad d eq_refl). eexists. split; [reflexivity|discriminate].
    - exists err. split; [reflexivity|]. intros ->. apply Hmodel. reflexivity. }
  destruct Hc as (err & Hc & Herr).
  assert (Hw : wait_for_client_data env client (b0 :: prefix) (e0 :: ev) s
               = (s, Raise err)).
  { unfold wait_for_client_data, bind, lift. rewrite Hu.
    destruct (Z.ltb_spec n 0) as [E|E]; [lia|].
    unfold gets. cbn [fst snd]. rewrite Hr. cbn [of_option]. rewrite Hc. reflexivity. }
  cbn zeta. unfold run_thread. rewrite Hw. cbn [snd].
  split; [reflexivity|]. split; [exists err; split; [reflexivity|exact Herr]|].
  intros [c a|c ds ev'|] Ha; [reflexivity|reflexivity|contradiction].
Qed.
End Frames.


Lemma receiver_stops_on_bad_frame_witness :
  run_thread (with_receiver_alive false)
    (wait_for_client_data sample 0 bad_frame_size [Byte.x78]) started_sample
  = with_receiver_alive false started_sample
  /\ enabled sample (Accept 2 (addr 5002))
       (run_thread (with_receiver_alive false)
          (wait_for_client_data sample 0 bad_frame_size [Byte.x78]) started_sample)
     = false.
Proof.
  destruct (receiver_stops_on_bad_frame sample 8 started_sample 0%nat bad_frame_size
              [Byte.x78] 1) as (Hs & _ & Hen).
  - apply valid_run. vm_compute. reflexivity.
  - apply (bool_decide_unpack _). vm_compute. exact I.
  - vm_compute. reflexivity.
  - lia.
  - discriminate.
  - vm_compute. discriminate.
  - intros d Hd. vm_compute in Hd. discriminate Hd.
  - split; [exact Hs|]. apply Hen. discriminate.
Defined.

(** ** The [Player] objects over time *)

Section Persist.
Variable env : collaborators.

Lemma persists_same s s' : heap s' = heap s -> persists s s'.
Proof. intros Hh r p Hr. exists p. rewrite Hh. auto. Qed.

Lemma persists_trans s1 s2 s3 : persists s1 s2 -> persists s2 s3 -> persists s1 s3.
Proof.
  intros H12 H23 r p Hr. destruct (H12 r p Hr) as (p2 & Hr2 & Hid2 & Hre2).
  destruct (H23 r p2 Hr2) as (p3 & Hr3 & Hid3 & Hre3).
  exists p3. split; [exact Hr3|]. split; [congruence|auto].
Qed.

Lemma persists_step s s' : step env s s' -> persists s s'.
Proof.
  intros Hstep. destruct Hstep as [s client address Ha Hfresh
                                  | s client data_size event Ha Hin Hlen Hrecv
                                  | s Ha]; unfold run_thread.
  - pose proof (wait_for_client_cases env client address s) as Hcases.
    assert (H1 : persists s (fst (wait_for_client env client address s))).
    { destruct Hcases as [->|(_ & Hh & _)]; [apply persists_same; reflexivity|].
      intros r p Hr. exists p. rewrite Hh, lookup_app_l by (eapply lookup_lt_Some, Hr).
      auto. }
    destruct (wait_for_client env client address s) as [s1 [[]|e]]; exact H1.
  - pose proof (wait_for_client_data_frame env client data_size event s) as (Hh & _).
    destruct (wait_for_client_data env client data_size event s) as [s1 [[]|e]];
      apply persists_same; exact Hh.
  - pose proof (keeps_handler env s) as Hk.
    destruct (handler env s) as [s1 [[]|e]]; intros r p Hr;
      destruct (keeps_heap _ _ Hk r p Hr) as (p' & H1 & H2 & H3); exists p'; auto.
Qed.

(** X11.  Along any run of the server a [Player] object, once created,
    stays at its reference with the id it was given, and a [rendered] flag
    that is set stays set: game over empties the dictionary but resets no
    player. *)
Theorem player_objects_persist s s' r p :
  rtc (step env) s s' ->
  heap s !! r = Some p ->
  exists p', heap s' !! r = Some p'
             /\ Player.id p' = Player.id p
             /\ (Player.rendered p = true -> Player.rendered p' = true).
Proof.
  intros Hsteps. revert r p.
  change (persists s s').
  induction Hsteps as [s|s1 s2 s3 H12 _ IH]; [apply persists_same; reflexivity|].
  eapply persists_trans; [apply persists_step, H12|exact IH].
Qed.
End Persist.

Lemma player_objects_persist_witness :
  exists p', heap (run sample [sel 0 0 100; Handle; sel 1 1 50; Handle] started_sample)
               !! 0%nat = Some p'
             /\ Player.id p' = 1
             /\ (Player.rendered player_one = true -> Player.rendered p' = true).
Proof.
  apply (player_objects_persist sample started_sample _ 0%nat player_one).
  - apply valid_run. vm_compute. reflexivity.
  - vm_compute. reflexivity.
Defined.

(** * Units and their holders *)

(** ** Who holds a unit *)

#[local] Instance units_kept_reflexive env : Reflexive (units_kept env).
Proof. intros s H. exact H. Qed.

#[local] Instance units_kept_transitive env : Transitive (units_kept env).
Proof. intros s1 s2 s3 H12 H23 H. exact (H23 (H12 H)). Qed.

Section Units.
Variable env : collaborators.
Hypothesis Hgen : id_generator_increasing env.
Hypothesis Hmap : map_generator_monotone env.

Lemma issued_mono s s' u :
  (generated s <= generated s')%nat -> issued env s u -> issued env s' u.
Proof. intros Hle (i & Hi & ->). exists i. split; [lia|reflexivity]. Qed.

Lemma units_same s s' :
  heap s' = heap s -> (generated s <= generated s')%nat -> units_kept env s s'.
Proof.
  intros Hh Hg [H1 H2 H3]. split; rewrite Hh.
  - intros r p u Hr Hu. eapply issued_mono; [exact Hg|]. eapply H1; eassumption.
  - exact H2.
  - exact H3.
Qed.

(** The object at [r] is replaced by one whose units are units it held or
    ids given out in between. *)
Lemma units_insert s s' r p q :
  heap s !! r = Some p ->
  heap s' = <[r := q]> (heap s) ->
  (generated s <= generated s')%nat ->
  NoDup (Player.object_ids q) ->
  (forall u, u ∈ Player.object_ids q ->
     u ∈ Player.object_ids p \/ (issued env s' u /\ ~ issued env s u)) ->
  units_kept env s s'.
Proof.
  intros Hr Hh Hg Hnd Hq [H1 H2 H3].
  assert (Hlt : (r < length (heap s))%nat) by (eapply lookup_lt_Some, Hr).
  assert (Hlook : forall r' p', heap s' !! r' = Some p' ->
            (r' = r /\ p' = q) \/ (r' <> r /\ heap s !! r' = Some p')).
  { intros r' p' Hr'. rewrite Hh in Hr'. destruct (decide (r = r')) as [<-|Hne].
    - rewrite list_lookup_insert_eq in Hr' by exact Hlt. injection Hr' as <-. auto.
    - rewrite list_lookup_insert_ne in Hr' by exact Hne. right. split; [congruence|exact Hr']. }
  assert (Hold : forall r' p' u, r' <> r -> heap s !! r' = Some p' ->
            u ∈ Player.object_ids p' -> u ∈ Player.object_ids q -> False).
  { intros r' p' u Hne Hr' Hu Huq. destruct (Hq u Huq) as [Hup|[_ Hnew]].
    - apply Hne. exact (H3 r' r p' p u Hr' Hr Hu Hup).
    - apply Hnew. exact (H1 r' p' u Hr' Hu). }
  split.
  - intros r' p' u Hr' Hu. destruct (Hlook r' p' Hr') as [[-> ->]|[Hne Hr'']].
    + destruct (Hq u Hu) as [Hup|[Hiss _]]; [|exact Hiss].
      eapply issued_mono; [exact Hg|]. eapply H1; eassumption.
    + eapply issued_mono; [exact Hg|]. eapply H1; eassumption.
  - intros r' p' Hr'. destruct (Hlook r' p' Hr') as [[-> ->]|[Hne Hr'']];
      [exact Hnd|eapply H2, Hr''].
  - intros r1 r2 p1 p2 u Hr1 Hr2 Hu1 Hu2.
    destruct (Hlook r1 p1 Hr1) as [[-> ->]|[Hne1 Hr1']];
      destruct (Hlook r2 p2 Hr2) as [[-> ->]|[Hne2 Hr2']].
    + reflexivity.
    + exfalso. exact (Hold r2 p2 u Hne2 Hr2' Hu2 Hu1).
    + exfalso. exact (Hold r1 p1 u Hne1 Hr1' Hu1 Hu2).
    + exact (H3 r1 r2 p1 p2 u Hr1' Hr2' Hu1 Hu2).
Qed.

Lemma units_update_player r f :
  (forall p, Player.object_ids (f p) = Player.object_ids p) ->
  preserves (units_kept env) (update_player r f).
Proof.
  intros Hf s. unfold update_player. destruct (heap s !! r) as [p|] eqn:Hr; [|reflexivity].
  cbn [fst]. intros Hu.
  match goal with
  | |- units_owned env ?s' => refine (units_insert s s' r p (f p) Hr eq_refl _ _ _ Hu)
  end.
  - reflexivity.
  - rewrite Hf. exact (units_once env s Hu r p Hr).
  - intros u Hin. left. rewrite <- Hf. exact Hin.
Qed.

Lemma units_notify n a : preserves (units_kept env) (notify n a).
Proof. intros s. apply units_same; reflexivity. Qed.

Lemma units_update_planet k f : preserves (units_kept env) (update_planet k f).
Proof. intros s. apply units_same; reflexivity. Qed.

Lemma units_select_planet player pct punits v :
  preserves (units_kept env) (select_planet env player pct punits v).
Proof.
  intros s. unfold select_planet, bind, lift, cache_item, as_player, ret, get_player.
  destruct (py_int env v) as [planet_id|err]; [|reflexivity]. cbn [fst snd].
  destruct (Planet_cache s !! planet_id) as [pl|] eqn:Hpl; [|reflexivity].
  cbn [of_option]. destruct player as [| | | | | |r]; try reflexivity. cbn [fst snd].
  destruct (heap s !! r) as [p|] eqn:Hr; [|reflexivity]. cbn [of_option].
  destruct (owned_by pl p); [|reflexivity].
  destruct (py_int env pct) as [n|err]; [|reflexivity]. cbn [fst snd].
  destruct (round_div_100 (Planet.units_count pl * n)) as [count|err]; [|reflexivity].
  unfold update_planet, next_ids, update_player, modify.
  cbn [fst snd heap with_generated with_Planet_cache]. rewrite Hr. cbn [fst snd].
  intros Hu.
  destruct (seq_ids_fresh env (generated s) (Z.to_nat count) Hgen) as [Hnd Hfresh].
  match goal with
  | |- units_owned env ?s' =>
      refine (units_insert s s' r p
                (Player.with_object_ids
                   (Player.object_ids p
                    ++ map (ID_GENERATOR env) (seq (generated s) (Z.to_nat count))) p)
                Hr eq_refl _ _ _ Hu)
  end.
  - cbn. lia.
  - cbn [Player.object_ids Player.with_object_ids]. apply NoDup_app.
    split; [exact (units_once env s Hu r p Hr)|]. split; [|exact Hnd].
    intros u Hup Hids. destruct (units_issued env s Hu r p u Hr Hup) as (i & Hi & ->).
    exact (Hfresh i Hi Hids).
  - cbn [Player.object_ids Player.with_object_ids]. intros u Hin.
    apply elem_of_app in Hin as [Hin|Hin]; [left; exact Hin|right].
    split.
    + apply list_elem_of_fmap in Hin as (i & -> & Hi). apply elem_of_seq in Hi.
      exists i. cbn. split; [lia|reflexivity].
    + intros (i & Hi & ->). exact (Hfresh i Hi Hin).
Qed.

Lemma list_remove_sub {A} `{EqDecision A} (x : A) : forall l l',
  list_remove x l = Some l' -> forall y, y ∈ l' -> y ∈ l.
Proof.
  induction l as [|a l IH]; intros l' Hrm y Hy; [discriminate Hrm|].
  cbn [list_remove] in Hrm. destruct (decide (a = x)) as [->|Hne].
  - injection Hrm as <-. right. exact Hy.
  - destruct (list_remove x l) as [l0|] eqn:E; [|discriminate Hrm]. injection Hrm as <-.
    apply elem_of_cons in Hy as [->|Hy]; [left|right; exact (IH l0 eq_refl y Hy)].
Qed.

Lemma apply_damage_cases event player s :
  fst (apply_damage env event player s) = s
  \/ exists r p planet planet_id unit_id hp_count ids,
       player = VPlayer r /\ heap s !! r = Some p
       /\ list_remove unit_id (Player.object_ids p) = Some ids
       /\ fst (apply_damage env event player s)
          = with_sender_queue
              (sender_queue s ++
                 [damage_notice event planet_id unit_id
                    (damaged planet (Player.id p) hp_count)])
              (with_heap (<[r := Player.with_object_ids ids p]> (heap s))
                 (with_Planet_cache
                    (<[planet_id := damaged planet (Player.id p) hp_count]> (Planet_cache s))
                    s)).
Proof.
  destruct (dict_get (payload event) (KStr "planet_id")) as [x|] eqn:Hx.
  2:{ left. unfold apply_damage, bind, lift, dict_item. rewrite Hx. reflexivity. }
  destruct (py_int env x) as [planet_id|e] eqn:Hpx.
  2:{ left. unfold apply_damage, bind, lift, dict_item. rewrite Hx. simpl.
      rewrite Hpx. reflexivity. }
  destruct (dict_get (payload event) (KStr "unit_id")) as [u|] eqn:Hu.
  2:{ left. unfold apply_damage, bind, lift, dict_item. rewrite Hx. simpl.
      rewrite Hpx, Hu. reflexivity. }
  destruct (py_int env u) as [unit_id|e] eqn:Hpu.
  2:{ left. unfold apply_damage, bind, lift, dict_item. rewrite Hx. simpl.
      rewrite Hpx, Hu. simpl. rewrite Hpu. reflexivity. }
  destruct (py_int env (default (VInt 1) (dict_get (payload event) (KStr "hp_count"))))
    as [hp_count|e] eqn:Hhp.
  2:{ left. unfold apply_damage, bind, lift, dict_item. rewrite Hx. simpl.
      rewrite Hpx, Hu. simpl. rewrite Hpu, Hhp. reflexivity. }
  destruct (Planet_cache s !! planet_id) as [planet|] eqn:Hc.
  2:{ left. unfold apply_damage, bind, lift, dict_item, cache_item. rewrite Hx. simpl.
      rewrite Hpx, Hu. simpl. rewrite Hpu, Hhp, Hc. reflexivity. }
  destruct player as [| | | | | |r];
    try (left; unfold apply_damage, bind, lift, dict_item, cache_item, as_player, raise;
         rewrite Hx; simpl; rewrite Hpx, Hu; simpl; rewrite Hpu, Hhp, Hc; reflexivity).
  destruct (heap s !! r) as [p|] eqn:Hr.
  2:{ left. unfold apply_damage, bind, lift, dict_item, cache_item, as_player, ret,
        get_player. rewrite Hx. simpl. rewrite Hpx, Hu. simpl.
      rewrite Hpu, Hhp, Hc, Hr. reflexivity. }
  destruct (decide (unit_id ∈ Player.object_ids p)) as [Hin|Hin].
  - destruct (elem_of_list_remove _ _ Hin) as [ids Hrm].
    right. exists r, p, planet, planet_id, unit_id, hp_count, ids.
    rewrite (apply_damage_accepted env _ _ _ _ _ _ _ _ _ _ _ Hx Hpx Hu Hpu Hhp Hr Hc Hrm).
    auto 10.
  - left.
    rewrite (apply_damage_rejected env s event r p planet planet_id unit_id hp_count x u);
      auto.
Qed.

Lemma list_remove_NoDup_sub {A} `{EqDecision A} (x : A) l l' :
  NoDup l -> list_remove x l = Some l' -> NoDup l' /\ (forall y, y ∈ l' -> y ∈ l).
Proof.
  intros Hnd Hrm. destruct (list_remove_NoDup x l l' Hnd Hrm) as (H1 & H2 & _).
  split; [exact H1|]. intros y Hy. apply H2 in Hy. tauto.
Qed.

Lemma units_apply_damage event player :
  preserves (units_kept env) (apply_damage env event player).
Proof.
  intros s. destruct (apply_damage_cases event player s)
    as [->|(r & p & planet & planet_id & unit_id & hp_count & ids & _ & Hr & Hrm & ->)];
    [reflexivity|].
  intros Hu.
  destruct (list_remove_NoDup_sub unit_id _ _ (units_once env s Hu r p Hr) Hrm)
    as [Hnd Hsub].
  match goal with
  | |- units_owned env ?s' =>
      refine (units_insert s s' r p (Player.with_object_ids ids p) Hr eq_refl _ _ _ Hu)
  end.
  - reflexivity.
  - exact Hnd.
  - intros u Hin. left. apply Hsub, Hin.
Qed.

Ltac units_prim :=
  idtac; first
    [ apply units_notify | apply units_update_planet
    | apply units_update_player; intros ?; reflexivity
    | apply (preserves_modify (units_kept env)); intros ?; apply units_same;
      [reflexivity|cbn; lia] ].

Lemma units_map_generation ps :
  preserves (units_kept env)
    (let* s := gets (fun s => s) in
     let '(cache, game_map, n) :=
       MapGenerator_run env (map Player.id ps) (Planet_cache s) (generated s) in
     modify (with_Planet_cache cache);;
     modify (with_generated n);;
     modify (with_readiness true);;
     notify (VStr EventName.MAP_INIT) [(KStr "map", VList game_map)]).
Proof.
  intros s. unfold bind, gets. cbn [fst snd].
  pose proof (Hmap (map Player.id ps) (Planet_cache s) (generated s)) as Hn.
  destruct (MapGenerator_run env _ _ _) as [[cache gm] n].
  unfold notify, modify. cbn [fst snd] in *. apply units_same; [reflexivity|exact Hn].
Qed.

Lemma units_handle_ready event player :
  preserves (units_kept env) (handle_ready env event player).
Proof.
  unfold handle_ready.
  repeat first [ apply units_map_generation | pres_step ltac:(units_prim) ].
Qed.

Lemma units_handle_rendered player : preserves (units_kept env) (handle_rendered player).
Proof. unfold handle_rendered. pres ltac:(units_prim). Qed.

Lemma units_handle_move event player :
  preserves (units_kept env) (handle_move env event player).
Proof. unfold handle_move. pres ltac:(units_prim). Qed.

Lemma units_select_loop player pct l : forall punits,
  preserves (units_kept env) (select_loop env player pct l punits).
Proof.
  induction l as [|v l IH]; intros punits; simpl; [apply (preserves_ret (units_kept env))|].
  refine (preserves_bind (units_kept env) _ _ _ _);
    [apply units_select_planet|intros; apply IH].
Qed.

Lemma units_handle_select event player :
  preserves (units_kept env) (handle_select env event player).
Proof.
  unfold handle_select. pres ltac:(first [apply units_select_loop | units_prim]).
Qed.

Lemma units_handle_add_hp event player :
  preserves (units_kept env) (handle_add_hp env event player).
Proof. unfold handle_add_hp. pres ltac:(units_prim). Qed.

Lemma units_check_game_over : preserves (units_kept env) check_game_over.
Proof.
  intros s. destruct (check_game_over_frame s) as (Hh & _ & Hg).
  apply units_same; [exact Hh|rewrite Hg; reflexivity].
Qed.

Lemma units_handle event : preserves (units_kept env) (handle env event).
Proof.
  unfold handle, handle_damage.
  pres ltac:(first [ apply units_handle_ready | apply units_handle_rendered
                   | apply units_handle_move | apply units_handle_select
                   | apply units_handle_add_hp | apply units_apply_damage
                   | apply units_check_game_over ]).
Qed.

Lemma units_handler : preserves (units_kept env) (handler env).
Proof. unfold handler. pres ltac:(first [apply units_handle | units_prim]). Qed.

Lemma units_init max : units_owned env (init max).
Proof. split; intros *; cbn; intros H; inversion H. Qed.

Lemma units_step s s' : step env s s' -> units_kept env s s'.
Proof.
  intros Hstep. destruct Hstep as [s client address Ha Hfresh
                                  | s client data_size event Ha Hin Hlen Hrecv
                                  | s Ha]; unfold run_thread.
  - pose proof (wait_for_client_cases env client address s) as Hcases.
    assert (H1 : units_kept env s (fst (wait_for_client env client address s))).
    { destruct Hcases as [->|(_ & Hh & _ & _ & Hg & _)]; [reflexivity|].
      intros [U1 U2 U3].
      assert (Hlook : forall r p, heap (fst (wait_for_client env client address s)) !! r
                                  = Some p ->
                heap s !! r = Some p \/ Player.object_ids p = []).
      { intros r p Hr. rewrite Hh in Hr. apply lookup_app_Some in Hr as [Hr|[_ Hr]];
          [left; exact Hr|right].
        apply list_lookup_singleton_Some in Hr as [_ <-]. reflexivity. }
      split.
      - intros r p u Hr Hu. destruct (Hlook r p Hr) as [Hr'|Hnil].
        + apply (issued_mono s); [rewrite Hg; reflexivity|]. eapply U1; eassumption.
        + rewrite Hnil in Hu. inversion Hu.
      - intros r p Hr. destruct (Hlook r p Hr) as [Hr'|Hnil];
          [eapply U2, Hr'|rewrite Hnil; apply NoDup_nil_2].
      - intros r1 r2 p1 p2 u Hr1 Hr2 Hu1 Hu2.
        destruct (Hlook r1 p1 Hr1) as [Hr1'|Hnil]; [|rewrite Hnil in Hu1; inversion Hu1].
        destruct (Hlook r2 p2 Hr2) as [Hr2'|Hnil]; [|rewrite Hnil in Hu2; inversion Hu2].
        exact (U3 r1 r2 p1 p2 u Hr1' Hr2' Hu1 Hu2). }
    destruct (wait_for_client env client address s) as [s1 [[]|e]]; [exact H1|].
    etransitivity; [exact H1|]. apply units_same; reflexivity.
  - pose proof (wait_for_client_data_frame env client data_size event s)
      as (Hh & _ & _ & Hg & _).
    destruct (wait_for_client_data env client data_size event s) as [s1 [[]|e]];
      cbn [fst] in *; apply units_same; cbn; try exact Hh; rewrite Hg; reflexivity.
  - pose proof (units_handler s) as Hk.
    destruct (handler env s) as [s1 [[]|e]]; cbn [fst] in *; [exact Hk|].
    etransitivity; [exact Hk|]. apply units_same; reflexivity.
Qed.

(** X12.  When the id generator is strictly increasing and the map
    generator does not turn it back, in every reachable state each unit id
    a player holds was given out by the generator, no player holds a unit
    twice and no unit is held by two players. *)
Theorem units_held_by_one_player max s :
  reachable env max s ->
  (forall r p u, heap s !! r = Some p -> u ∈ Player.object_ids p ->
     exists i, (i < generated s)%nat /\ u = ID_GENERATOR env i)
  /\ (forall r p, heap s !! r = Some p -> NoDup (Player.object_ids p))
  /\ (forall r1 r2 p1 p2 u,
        heap s !! r1 = Some p1 -> heap s !! r2 = Some p2 ->
        u ∈ Player.object_ids p1 -> u ∈ Player.object_ids p2 -> r1 = r2).
Proof.
  intros H. unfold reachable in H.
  assert (Hu : units_owned env s).
  { apply (rtc_ind_r (R := step env) (fun s => units_owned env s) (init max));
      [apply units_init| |exact H].
    intros y z _ Hstep Hy. exact (units_step y z Hstep Hy). }
  destruct Hu as [H1 H2 H3]. split; [exact H1|]. split; [exact H2|exact H3].
Qed.
End Units.

Lemma units_held_by_one_player_witness :
  (forall r p u, heap capture_state !! r = Some p -> u ∈ Player.object_ids p ->
     exists i, (i < generated capture_state)%nat /\ u = ID_GENERATOR sample i)
  /\ (forall r p, heap capture_state !! r = Some p -> NoDup (Player.object_ids p))
  /\ (forall r1 r2 p1 p2 u,
        heap capture_state !! r1 = Some p1 -> heap capture_state !! r2 = Some p2 ->
        u ∈ Player.object_ids p1 -> u ∈ Player.object_ids p2 -> r1 = r2).
Proof.
  apply (units_held_by_one_player sample) with (max := 8).
  - intros i j Hij. cbn. lia.
  - intros ids cache n. cbn. lia.
  - apply valid_run. vm_compute. reflexivity.
Defined.
